(** * shrinquem: logic minimisation, verified against its C source

    A shallow embedding of [shrinquem.c] (the [SumOfProducts] interface
    declared in [shrinquem.h]) together with the older per-bit-loop
    evaluator, followed by the properties of the reduction.

    Machine model.  [unsigned long] is a [W]-bit word, represented by
    a [Z] in [[0, 2^W)]; every operation that can leave the range has
    its wrap-around written out.  The literal [1] in [1 << n] has type
    [int]; the model takes [int] as wide as [long] (the ILP32 / LLP64
    data models of the MSVC target the code is written for), so that
    [1 << n] is exact for [n < W].  C leaves a shift by the full width
    undefined; the model gives it the value the arithmetic has after
    truncation to [W] bits, which is [0].

    Arrays are lists; a read or write outside the allocated range, a
    dereference of a null pointer and a loop that runs out of fuel give
    [None].  [malloc] / [calloc] may fail; the outcome of each call is
    read from an [Allocator] record passed by the caller. *)

From Stdlib Require Import ZArith Lia Bool String Ascii.
From stdpp Require Import prelude strings.

Local Open Scope Z_scope.

(** ** Data model ([shrinquem.h])

    [triLogic] is a [char] in the header; the model carries the three
    values the interface names. *)

Inductive triLogic : Type :=
| LOGIC_FALSE
| LOGIC_TRUE
| LOGIC_DONT_CARE.

Inductive shrinquemStatus : Type :=
| STATUS_OKAY
| STATUS_TOO_FEW_VARIABLES
| STATUS_TOO_MANY_VARIABLES
| STATUS_OUT_OF_MEMORY
| STATUS_NULL_ARGUMENT.

Global Instance triLogic_eq_dec : EqDecision triLogic.
Proof. solve_decision. Defined.

Global Instance shrinquemStatus_eq_dec : EqDecision shrinquemStatus.
Proof. solve_decision. Defined.

(** The numeric value of a status, as the [enum] assigns it. *)
Definition status_code (s : shrinquemStatus) : Z :=
  match s with
  | STATUS_OKAY => 0
  | STATUS_TOO_FEW_VARIABLES => 1
  | STATUS_TOO_MANY_VARIABLES => 2
  | STATUS_OUT_OF_MEMORY => 3
  | STATUS_NULL_ARGUMENT => 4
  end.

(** A pointer field is [None] when null, [Some] of the pointed-to
    array otherwise. *)
Record SumOfProducts : Type := mkSumOfProducts {
  numVars : Z;
  numTerms : Z;
  terms : option (list Z);
  dontCares : option (list Z);
  equation : option string
}.

(** Outcome of the allocations of one call: [true] when the call
    returns a block, [false] when it returns a null pointer. *)
Record Allocator : Type := mkAllocator {
  calloc_resolved : bool;
  malloc_terms : bool;
  malloc_dontCares : bool;
  calloc_refCntTable : bool
}.

Definition all_ok : Allocator := mkAllocator true true true true.

(** Control outcome of one pass through a loop body. *)
Inductive ctl (S : Type) : Type :=
| Continue (s : S)
| Break (s : S).
Arguments Continue {S} s.
Arguments Break {S} s.

(** How a [while (1)] cycling loop was left: by its own [break] inside
    the body, or because the don't-care counter wrapped around. *)
Inductive loop_exit (S : Type) : Type :=
| Broke (t : Z) (s : S)
| Wrapped (t : Z) (s : S).
Arguments Broke {S} t s.
Arguments Wrapped {S} t s.

(** Array access on a heap block of [Z] indexed by an [unsigned long]. *)
Definition rd {A} (a : list A) (i : Z) : option A :=
  if decide (0 <= i) then a !! Z.to_nat i else None.

Definition wr {A} (a : list A) (i : Z) (v : A) : option (list A) :=
  if decide (0 <= i < Z.of_nat (length a)) then Some (<[Z.to_nat i := v]> a) else None.

(** [for (i = from; i < from + count; i++) body] *)
Fixpoint for_range {S} (count : nat) (i : Z) (body : Z → S → option S) (s : S) : option S :=
  match count with
  | O => Some s
  | Datatypes.S c => s' ← body i s; for_range c (i + 1) body s'
  end.

Section Machine.

(** Number of bits of [unsigned long] (and of [int]). *)
Variable W : Z.

Definition wrap (z : Z) : Z := z mod 2 ^ W.

(** [1 << n] *)
Definition shl1 (n : Z) : Z := wrap (Z.shiftl 1 n).

(** [~x] *)
Definition lnotw (x : Z) : Z := wrap (Z.lnot x).

(** [sizeof(long) * BITS_PER_BYTE] *)
Definition MAX_NUM_VARIABLES : Z := W.

(** ** The don't-care cycling step

    The [for (iBitDC = 0; iBitDC < limit; iBitDC++)] loop that every
    [while (1)] of the source ends with: advance [t] to the next
    combination of the don't-care bits.  [n] counts the iterations
    left; the result is the new [t] and the value of [iBitDC] when the
    loop is left. *)
Fixpoint next_minterm (n : nat) (iBitDC : Z) (dc t : Z) : Z * Z :=
  match n with
  | O => (t, iBitDC)
  | Datatypes.S n' =>
      let bitMaskDC := shl1 iBitDC in
      if Z.land dc bitMaskDC =? 0 then next_minterm n' (iBitDC + 1) dc t
      else if Z.land t bitMaskDC =? 0 then (Z.lor t bitMaskDC, iBitDC)
      else next_minterm n' (iBitDC + 1) dc (Z.land t (lnotw bitMaskDC))
  end.

(** [while (1) { visit; next minterm; if (iBitDC == limit) break; }]
    where [visit] may itself [break]. *)
Fixpoint while_cycle {S} (fuel : nat) (limit : Z) (dc : Z)
    (visit : Z → S → option (ctl S)) (t : Z) (s : S) : option (loop_exit S) :=
  match fuel with
  | O => None
  | Datatypes.S fuel' =>
      c ← visit t s;
      match c with
      | Break s' => Some (Broke t s')
      | Continue s' =>
          let '(t', iBitDC) := next_minterm (Z.to_nat limit) 0 dc t in
          if iBitDC =? limit then Some (Wrapped t' s')
          else while_cycle fuel' limit dc visit t' s'
      end
  end.

(** Final value of the cycled word and of the loop state, however the
    loop was left. *)
Definition exit_t {S} (r : loop_exit S) : Z :=
  match r with Broke t _ => t | Wrapped t _ => t end.

Definition exit_s {S} (r : loop_exit S) : S :=
  match r with Broke _ s => s | Wrapped _ s => s end.

(** Access through a pointer that may be null. *)
Definition rdp {A} (p : option (list A)) (i : Z) : option A :=
  a ← p; rd a i.

Definition wrp {A} (p : option (list A)) (i : Z) (v : A) : option (option (list A)) :=
  a ← p; a' ← wr a i v; Some (Some a').

(** [calloc(n, ...)] and [malloc(n * ...)]: a zeroed block, or a block
    whose contents (never read before they are written) are taken to
    be zero, or null when the allocation fails. *)
Definition alloc {A} (ok : bool) (n : Z) (zero : A) : option (list A) :=
  if ok then Some (replicate (Z.to_nat n) zero) else None.

(** [p = realloc(buf, n * sizeof(long)); buf = (p || n == 0) ? p : buf;]
    shrinking to [n] elements keeps the first [n]; [realloc(buf, 0)]
    frees the block and returns null. *)
Definition realloc_shrink (buf : option (list Z)) (n : Z) : option (list Z) :=
  if n =? 0 then None else take (Z.to_nat n) <$> buf.

(** ** EstimateMaxNumOfMinterms *)

Definition count_true (truthTable : list triLogic) (iInput : Z) (numTrueMinterms : Z) : option Z :=
  v ← rd truthTable iInput;
  Some (if decide (v = LOGIC_TRUE) then wrap (numTrueMinterms + 1) else numTrueMinterms).

Definition EstimateMaxNumOfMinterms (numVars : Z) (truthTable : list triLogic) : option Z :=
  let sizeTruthtable := shl1 numVars in
  let maximumPossibleNumOfMinterms := sizeTruthtable / 2 in
  numTrueMinterms ← for_range (Z.to_nat sizeTruthtable) 0 (count_true truthTable) 0;
  Some (Z.min maximumPossibleNumOfMinterms numTrueMinterms).

(** ** RemoveNonprimeImplicants *)

(** [refCntTable[t]++] *)
Definition ref_visit (t : Z) (refCntTable : option (list Z)) : option (ctl (option (list Z))) :=
  c ← rdp refCntTable t;
  refCntTable' ← wrp refCntTable t (wrap (c + 1));
  Some (Continue refCntTable').

(** [if (refCntTable[t] == 1) { isPrime = 1; break; }] *)
Definition prime_visit (t : Z) (refCntTable : option (list Z)) : option (ctl (option (list Z))) :=
  c ← rdp refCntTable t;
  Some (if c =? 1 then Break refCntTable else Continue refCntTable).

(** [refCntTable[t]--] *)
Definition deref_visit (t : Z) (refCntTable : option (list Z)) : option (ctl (option (list Z))) :=
  c ← rdp refCntTable t;
  refCntTable' ← wrp refCntTable t (wrap (c - 1));
  Some (Continue refCntTable').

(** The arrays the filter works on. *)
Record filter_state : Type := mk_fs {
  fs_iNewTerm : Z;
  fs_numTerms : Z;
  fs_terms : option (list Z);
  fs_dontCares : option (list Z);
  fs_refCntTable : option (list Z)
}.

(** Body of the first loop: reference-count the minterms of term
    [iOldTerm]. *)
Definition count_term (fuel : nat) (numVars : Z) (iOldTerm : Z) (fs : filter_state)
    : option filter_state :=
  t ← rdp (fs_terms fs) iOldTerm;
  dc ← rdp (fs_dontCares fs) iOldTerm;
  let t := Z.land t (lnotw dc) in
  r ← while_cycle fuel numVars dc ref_visit t (fs_refCntTable fs);
  terms' ← wrp (fs_terms fs) iOldTerm (exit_t r);
  Some (mk_fs (fs_iNewTerm fs) (fs_numTerms fs) terms' (fs_dontCares fs) (exit_s r)).

(** Body of the second loop: keep term [iOldTerm] when one of its
    minterms is referenced once, drop it otherwise. *)
Definition filter_term (fuel : nat) (numVars : Z) (iOldTerm : Z) (fs : filter_state)
    : option filter_state :=
  t ← rdp (fs_terms fs) iOldTerm;
  dc ← rdp (fs_dontCares fs) iOldTerm;
  let t := Z.land t (lnotw dc) in
  r ← while_cycle fuel numVars dc prime_visit t (fs_refCntTable fs);
  terms1 ← wrp (fs_terms fs) iOldTerm (exit_t r);
  match r with
  | Broke _ _ =>
      let iNewTerm := fs_iNewTerm fs in
      '(terms2, dontCares2) ←
        (if decide (iOldTerm ≠ iNewTerm) then
           t' ← rdp terms1 iOldTerm;
           terms2 ← wrp terms1 iNewTerm t';
           dc' ← rdp (fs_dontCares fs) iOldTerm;
           dontCares2 ← wrp (fs_dontCares fs) iNewTerm dc';
           Some (terms2, dontCares2)
         else Some (terms1, fs_dontCares fs));
      Some (mk_fs (wrap (iNewTerm + 1)) (fs_numTerms fs) terms2 dontCares2 (fs_refCntTable fs))
  | Wrapped t1 _ =>
      let numTerms' := wrap (fs_numTerms fs - 1) in
      let t2 := Z.land t1 (lnotw dc) in
      r' ← while_cycle fuel numVars dc deref_visit t2 (fs_refCntTable fs);
      terms2 ← wrp terms1 iOldTerm (exit_t r');
      Some (mk_fs (fs_iNewTerm fs) numTerms' terms2 (fs_dontCares fs) (exit_s r'))
  end.

Definition RemoveNonprimeImplicants (fuel : nat) (mem : Allocator) (sumOfProducts : SumOfProducts)
    : option SumOfProducts :=
  let numOldTerms := numTerms sumOfProducts in
  let sizeTruthtable := shl1 (numVars sumOfProducts) in
  let refCntTable := alloc (calloc_refCntTable mem) sizeTruthtable 0 in
  fs1 ← for_range (Z.to_nat numOldTerms) 0 (count_term fuel (numVars sumOfProducts))
          (mk_fs 0 numOldTerms (terms sumOfProducts) (dontCares sumOfProducts) refCntTable);
  fs2 ← for_range (Z.to_nat numOldTerms) 0 (filter_term fuel (numVars sumOfProducts)) fs1;
  if decide (fs_numTerms fs2 ≠ numOldTerms) then
    Some (mkSumOfProducts (numVars sumOfProducts) (fs_numTerms fs2)
            (realloc_shrink (fs_terms fs2) (fs_numTerms fs2))
            (realloc_shrink (fs_dontCares fs2) (fs_numTerms fs2))
            (equation sumOfProducts))
  else
    Some (mkSumOfProducts (numVars sumOfProducts) (fs_numTerms fs2)
            (fs_terms fs2) (fs_dontCares fs2) (equation sumOfProducts)).

(** ** ReduceLogic *)

(** [if (truthTable[t] == LOGIC_FALSE) { ...; break; }] *)
Definition test_visit (truthTable : list triLogic) (t : Z) (u : unit) : option (ctl unit) :=
  v ← rd truthTable t;
  Some (if decide (v = LOGIC_FALSE) then Break u else Continue u).

(** Body of the loop over [iBitTest]: can bit [iBitTest] of the term
    become a don't-care?  [terms[iTerm]] and [dontCares[iTerm]] are the
    pair [(t, dc)]. *)
Definition test_bit (fuel : nat) (truthTable : list triLogic) (iBitTest : Z) (tdc : Z * Z)
    : option (Z * Z) :=
  let '(t, dc) := tdc in
  let bitMaskTest := shl1 iBitTest in
  let t := Z.lxor t bitMaskTest in
  let t := Z.land t (lnotw dc) in
  r ← while_cycle fuel iBitTest dc (test_visit truthTable) t ();
  match r with
  | Broke t _ => Some (Z.lxor t bitMaskTest, dc)
  | Wrapped t _ => Some (t, Z.lor dc bitMaskTest)
  end.

(** [resolved[t] = LOGIC_TRUE] *)
Definition mark_visit (t : Z) (resolved : list triLogic) : option (ctl (list triLogic)) :=
  resolved' ← wr resolved t LOGIC_TRUE;
  Some (Continue resolved').

(** The buffers the expansion loop works on. *)
Record reduce_state : Type := mk_rs {
  rs_numTerms : Z;
  rs_terms : list Z;
  rs_dontCares : list Z;
  rs_resolved : list triLogic
}.

(** Body of the loop over [iInput]. *)
Definition reduce_step (fuel : nat) (numVars : Z) (truthTable : list triLogic)
    (iInput : Z) (rs : reduce_state) : option reduce_state :=
  v ← rd truthTable iInput;
  seed ← (if decide (v = LOGIC_TRUE) then
            r ← rd (rs_resolved rs) iInput; Some (bool_decide (r = LOGIC_FALSE))
          else Some false);
  if seed : bool then
    let iTerm := rs_numTerms rs in
    let numTerms' := wrap (iTerm + 1) in
    terms1 ← wr (rs_terms rs) iTerm iInput;
    dontCares1 ← wr (rs_dontCares rs) iTerm 0;
    '(t, dc) ← for_range (Z.to_nat numVars) 0 (test_bit fuel truthTable) (iInput, 0);
    let t := Z.land t (lnotw dc) in
    r ← while_cycle fuel numVars dc mark_visit t (rs_resolved rs);
    terms2 ← wr terms1 iTerm (exit_t r);
    dontCares2 ← wr dontCares1 iTerm dc;
    Some (mk_rs numTerms' terms2 dontCares2 (exit_s r))
  else Some rs.

(** The [status != STATUS_OKAY] branch of [cleanupAndExit]. *)
Definition cleanup_error (status : shrinquemStatus) (sumOfProducts : SumOfProducts)
    : shrinquemStatus * SumOfProducts :=
  (status,
   mkSumOfProducts (numVars sumOfProducts) 0 None None (equation sumOfProducts)).

(** [ReduceLogic(truthTable, sumOfProducts)]; both arguments are
    pointers.  [sumOfProducts] is dereferenced on every path. *)
Definition ReduceLogic (fuel : nat) (mem : Allocator)
    (truthTable : option (list triLogic)) (sumOfProducts : option SumOfProducts)
    : option (shrinquemStatus * SumOfProducts) :=
  sop ← sumOfProducts;
  match truthTable with
  | None => Some (cleanup_error STATUS_NULL_ARGUMENT sop)
  | Some truthTable =>
      if numVars sop <? 1 then Some (cleanup_error STATUS_TOO_FEW_VARIABLES sop)
      else if MAX_NUM_VARIABLES <? numVars sop then
        Some (cleanup_error STATUS_TOO_MANY_VARIABLES sop)
      else
        let sizeTruthtable := shl1 (numVars sop) in
        maxNumOfMinterms ← EstimateMaxNumOfMinterms (numVars sop) truthTable;
        let resolved := alloc (calloc_resolved mem) sizeTruthtable LOGIC_FALSE in
        let terms0 := alloc (malloc_terms mem) maxNumOfMinterms 0 in
        let dontCares0 := alloc (malloc_dontCares mem) maxNumOfMinterms 0 in
        match resolved, terms0, dontCares0 with
        | Some resolved, Some terms0, Some dontCares0 =>
            rs ← for_range (Z.to_nat sizeTruthtable) 0
                   (reduce_step fuel (numVars sop) truthTable)
                   (mk_rs 0 terms0 dontCares0 resolved);
            sop' ← RemoveNonprimeImplicants fuel mem
                     (mkSumOfProducts (numVars sop) (rs_numTerms rs)
                        (realloc_shrink (Some (rs_terms rs)) (rs_numTerms rs))
                        (realloc_shrink (Some (rs_dontCares rs)) (rs_numTerms rs))
                        (equation sop));
            Some (STATUS_OKAY, sop')
        | _, _, _ => Some (cleanup_error STATUS_OUT_OF_MEMORY sop)
        end
  end.

(** ** EvaluateSumOfProducts *)

Fixpoint eval_terms (count : nat) (iTerm : Z) (terms dontCares : option (list Z))
    (constrainedInput : Z) : option triLogic :=
  match count with
  | O => Some LOGIC_FALSE
  | Datatypes.S c =>
      dc ← rdp dontCares iTerm;
      t ← rdp terms iTerm;
      if Z.lor constrainedInput dc =? Z.lor t dc then Some LOGIC_TRUE
      else eval_terms c (iTerm + 1) terms dontCares constrainedInput
  end.

Definition EvaluateSumOfProducts (sumOfProducts : SumOfProducts) (input : Z) : option triLogic :=
  let inputMask := wrap (shl1 (numVars sumOfProducts) - 1) in
  let constrainedInput := Z.land input inputMask in
  eval_terms (Z.to_nat (numTerms sumOfProducts)) 0
    (terms sumOfProducts) (dontCares sumOfProducts) constrainedInput.

(** The evaluator of the older array interface, which walks the bits
    of every term.  [term_loop] is the loop over [iVar]; it returns the
    value of [iVar] when it is left. *)
Fixpoint term_loop (n : nat) (iVar : Z) (iTerm : Z) (terms dontCares : option (list Z))
    (input : Z) : option Z :=
  match n with
  | O => Some iVar
  | Datatypes.S n' =>
      let bitMask := shl1 iVar in
      dc ← rdp dontCares iTerm;
      if negb (Z.land dc bitMask =? 0) then
        term_loop n' (iVar + 1) iTerm terms dontCares input
      else
        t ← rdp terms iTerm;
        if negb (Z.land input bitMask =? Z.land t bitMask) then Some iVar
        else term_loop n' (iVar + 1) iTerm terms dontCares input
  end.

Fixpoint eval_terms_bitloop (count : nat) (iTerm : Z) (numVars : Z)
    (terms dontCares : option (list Z)) (input : Z) : option triLogic :=
  match count with
  | O => Some LOGIC_FALSE
  | Datatypes.S c =>
      iVar ← term_loop (Z.to_nat numVars) 0 iTerm terms dontCares input;
      if iVar =? numVars then Some LOGIC_TRUE
      else eval_terms_bitloop c (iTerm + 1) numVars terms dontCares input
  end.

Definition EvaluateSumOfProducts_bitloop (numVars numTerms : Z)
    (terms dontCares : option (list Z)) (input : Z) : option triLogic :=
  eval_terms_bitloop (Z.to_nat numTerms) 0 numVars terms dontCares input.

(** ** GenerateEquationString

    The allocations of this function are taken to succeed.  The
    source takes [strlen] of the name of every variable before it
    builds the string, which [mapM] over the names stands for; its
    first pass over the terms, which only measures the output, is
    left out. *)

(** The name given to variable [iVar] when the caller passes none:
    the one-character string ['A' + (char)iVar]. *)
Definition auto_name (iVar : Z) : string :=
  String (ascii_of_N (Z.to_N ((65 + iVar) mod 256))) EmptyString.

Definition var_name (varNames : option (list string)) (iVar : Z) : option string :=
  match varNames with
  | Some names => rd names iVar
  | None => Some (auto_name iVar)
  end.

(** The scan for a ['1']: the value of [iVar] when the loop over the
    don't-care bits of term 0 is left. *)
Fixpoint all_dc_loop (n : nat) (iVar : Z) (dontCares : option (list Z)) : option Z :=
  match n with
  | O => Some iVar
  | Datatypes.S n' =>
      let bitMask := shl1 iVar in
      dc ← rdp dontCares 0;
      if Z.land dc bitMask =? 0 then Some iVar
      else all_dc_loop n' (iVar + 1) dontCares
  end.

(** The literals of term [iTerm], most significant variable first,
    appended to [eq]. *)
Fixpoint term_string (n : nat) (iVar : Z) (numVars : Z) (iTerm : Z)
    (terms dontCares : option (list Z)) (varNames : option (list string))
    (eq : string) : option string :=
  match n with
  | O => Some eq
  | Datatypes.S n' =>
      let bitMask := shl1 (wrap (wrap (numVars - iVar) - 1)) in
      dc ← rdp dontCares iTerm;
      eq' ← (if Z.land dc bitMask =? 0 then
               name ← var_name varNames iVar;
               t ← rdp terms iTerm;
               Some (if Z.land t bitMask =? 0 then eq +:+ name +:+ "'"
                     else eq +:+ name)
             else Some eq);
      term_string n' (iVar + 1) numVars iTerm terms dontCares varNames eq'
  end.

Fixpoint equation_string (count : nat) (iTerm : Z) (numVars numTerms : Z)
    (terms dontCares : option (list Z)) (varNames : option (list string))
    (eq : string) : option string :=
  match count with
  | O => Some eq
  | Datatypes.S c =>
      eq1 ← term_string (Z.to_nat numVars) 0 numVars iTerm terms dontCares varNames eq;
      let eq2 := if iTerm <? wrap (numTerms - 1) then eq1 +:+ " + " else eq1 in
      equation_string c (iTerm + 1) numVars numTerms terms dontCares varNames eq2
  end.

Definition GenerateEquationString (sumOfProducts : SumOfProducts)
    (varNames : option (list string)) : option (shrinquemStatus * SumOfProducts) :=
  let set_equation (eq : string) :=
    (STATUS_OKAY,
     mkSumOfProducts (numVars sumOfProducts) (numTerms sumOfProducts)
       (terms sumOfProducts) (dontCares sumOfProducts) (Some eq)) in
  if numTerms sumOfProducts <=? 0 then Some (set_equation "0")
  else
    one ← (if numTerms sumOfProducts =? 1 then
             iVar ← all_dc_loop (Z.to_nat (numVars sumOfProducts)) 0 (dontCares sumOfProducts);
             Some (iVar =? numVars sumOfProducts)
           else Some false);
    if one : bool then Some (set_equation "1")
    else
      _ ← mapM (var_name varNames) (seqZ 0 (numVars sumOfProducts));
      eq ← equation_string (Z.to_nat (numTerms sumOfProducts)) 0
             (numVars sumOfProducts) (numTerms sumOfProducts)
             (terms sumOfProducts) (dontCares sumOfProducts) varNames EmptyString;
      Some (set_equation eq).

(** ** FinalizeSumOfProducts *)

Definition FinalizeSumOfProducts (sumOfProducts : SumOfProducts) : SumOfProducts :=
  mkSumOfProducts 0 0 None None None.

End Machine.

(** ** Specification vocabulary *)

(** Number of don't-care positions among the [n] bits from [i] up. *)
Fixpoint popcount (n : nat) (i : Z) (dc : Z) : nat :=
  match n with
  | O => O
  | Datatypes.S n' => ((if Z.testbit dc i then 1 else 0) + popcount n' (i + 1) dc)%nat
  end.

(** The binary counter restricted to the don't-care positions: the
    bits of [k], least significant first, are laid on the positions of
    [dc] among the [n] bits from [i] up, in increasing order. *)
Fixpoint scatter (n : nat) (i : Z) (dc k : Z) : Z :=
  match n with
  | O => 0
  | Datatypes.S n' =>
      if Z.testbit dc i
      then Z.lor (if Z.odd k then 2 ^ i else 0) (scatter n' (i + 1) dc (k / 2))
      else scatter n' (i + 1) dc k
  end.

(** The minterms of the cube [(base, dc)] over [n] variables in
    counter order. *)
Definition visited (n : nat) (dc base : Z) : list Z :=
  (λ k, Z.lor base (scatter n 0 dc k)) <$> seqZ 0 (2 ^ Z.of_nat (popcount n 0 dc)).

(** A cycling loop unrolled over the list of minterms it visits. *)
Fixpoint run_visits {S} (visit : Z → S → option (ctl S)) (base : Z) (ms : list Z) (s : S)
    : option (loop_exit S) :=
  match ms with
  | [] => Some (Wrapped base s)
  | m :: ms' =>
      c ← visit m s;
      match c with
      | Break s' => Some (Broke m s')
      | Continue s' => run_visits visit base ms' s'
      end
  end.

(** Term [(t, dc)] covers minterm [m] of a function of [n] variables:
    the two agree on every position that is not a don't-care. *)
Definition covers (n : Z) (t dc m : Z) : Prop :=
  0 <= m < 2 ^ n ∧ Z.lor m dc = Z.lor t dc.

Global Instance covers_dec n t dc m : Decision (covers n t dc m).
Proof. unfold covers. apply _. Defined.

(** Every minterm the term covers has a truth value other than
    [LOGIC_FALSE]. *)
Definition implicant (n : Z) (truthTable : list triLogic) (t dc : Z) : Prop :=
  ∀ m, covers n t dc m → rd truthTable m ≠ Some LOGIC_FALSE.

(** The first [num] terms held in the two parallel buffers. *)
Definition term_list (num : Z) (terms dontCares : list Z) : list (Z * Z) :=
  zip (take (Z.to_nat num) terms) (take (Z.to_nat num) dontCares).

(** The terms of a sum of products (empty when the buffers are null). *)
Definition terms_of (sumOfProducts : SumOfProducts) : list (Z * Z) :=
  term_list (numTerms sumOfProducts)
    (default [] (terms sumOfProducts)) (default [] (dontCares sumOfProducts)).

(** Some term of the list covers [m]. *)
Definition covered (n : Z) (l : list (Z * Z)) (m : Z) : Prop :=
  ∃ td, td ∈ l ∧ covers n td.1 td.2 m.

(** Number of terms of the list that cover [m]. *)
Definition cover_count (n : Z) (l : list (Z * Z)) (m : Z) : Z :=
  Z.of_nat (length (filter (λ td, covers n td.1 td.2 m) l)).

(** Number of [LOGIC_TRUE] entries. *)
Definition true_count (l : list triLogic) : Z :=
  Z.of_nat (length (filter (λ v, v = LOGIC_TRUE) l)).

(** A well-formed term of an [n]-variable function over [truthTable]. *)
Definition term_ok (n : Z) (truthTable : list triLogic) (td : Z * Z) : Prop :=
  0 <= td.1 < 2 ^ n ∧ 0 <= td.2 < 2 ^ n ∧ Z.land td.1 td.2 = 0 ∧
  implicant n truthTable td.1 td.2.

(** Range and normal form of a term: the fixed bits are cleared on
    the don't-care positions. *)
Definition term_wf (n : Z) (td : Z * Z) : Prop :=
  0 <= td.1 < 2 ^ n ∧ 0 <= td.2 < 2 ^ n ∧ Z.land td.1 td.2 = 0.

(** [td] stands for a term of [live]: same don't-cares, same fixed
    bits outside them. *)
Definition stands_for (n : Z) (live : list (Z * Z)) (td : Z * Z) : Prop :=
  0 <= td.1 < 2 ^ n ∧
  ∃ td0, td0 ∈ live ∧ td0.2 = td.2 ∧ Z.lor td.1 td.2 = Z.lor td0.1 td0.2.

(** [td] has a minterm that no other term of [l] covers. *)
Definition sole_cover (n : Z) (l : list (Z * Z)) (td : Z * Z) : Prop :=
  ∃ m, covers n td.1 td.2 m ∧ cover_count n l m = 1.

(** State of the filter in terms of lists: [K] are the terms kept so
    far, [rest] the terms still to be examined. *)
Definition live_inv (n : Z) (live K rest : list (Z * Z)) : Prop :=
  Forall (stands_for n live) K ∧
  (∀ m, covered n live m → covered n (K ++ rest) m) ∧
  Forall (sole_cover n (K ++ rest)) K.

(** What the expansion followed by the filter establishes: the terms
    of [sumOfProducts] come from a list [live] of implicants that
    covers every [LOGIC_TRUE] minterm, and the filter lost none of the
    coverage. *)
Definition reduced (n : Z) (truthTable : list triLogic) (sumOfProducts : SumOfProducts) : Prop :=
  numVars sumOfProducts = n ∧
  numTerms sumOfProducts = Z.of_nat (length (terms_of sumOfProducts)) ∧
  ∃ live,
    Forall (term_ok n truthTable) live ∧
    (∀ m, rd truthTable m = Some LOGIC_TRUE → covered n live m) ∧
    live_inv n live (terms_of sumOfProducts) [] ∧
    ((∀ m, 0 <= m < 2 ^ n → rd truthTable m ≠ Some LOGIC_FALSE) →
     (length live <= 1)%nat ∧ Forall (λ td, td.2 = 2 ^ n - 1) live).

(** A loop body that only records the minterm it is given. *)
Definition record_visit (t : Z) (seen : list Z) : option (ctl (list Z)) :=
  Some (Continue (seen ++ [t])).

(** The cycling loop of the source run with the recording body: clear
    the don't-care bits of the term, then cycle. *)
Definition cycle_trace (W : Z) (fuel : nat) (numVars dc t : Z) : option (loop_exit (list Z)) :=
  while_cycle W fuel numVars dc record_visit (Z.land t (lnotw W dc)) [].

(** Term number [p] of [sumOfProducts] covers minterm [m]. *)
Definition term_covers (n : Z) (sumOfProducts : SumOfProducts) (p m : Z) : Prop :=
  0 <= p < numTerms sumOfProducts ∧
  ∃ t dc, rdp (terms sumOfProducts) p = Some t ∧
          rdp (dontCares sumOfProducts) p = Some dc ∧ covers n t dc m.

(** ** Loop invariants *)

(** Invariant of the loop over [iBitTest] for the term seeded at
    [seed]: after the bits below [b], [tdc] is the pair
    [(terms[iTerm], dontCares[iTerm])]. *)
Definition expand_inv (n : Z) (truthTable : list triLogic) (seed : Z) (b : Z) (tdc : Z * Z)
    : Prop :=
  0 <= tdc.2 < 2 ^ b ∧ 0 <= tdc.1 < 2 ^ n ∧
  Z.lor tdc.1 tdc.2 = Z.lor seed tdc.2 ∧
  implicant n truthTable seed tdc.2 ∧
  (1 <= b → rd truthTable (Z.lxor seed 1) ≠ Some LOGIC_FALSE → Z.testbit tdc.2 0 = true) ∧
  ((∀ m, 0 <= m < 2 ^ n → rd truthTable m ≠ Some LOGIC_FALSE) → tdc.2 = 2 ^ b - 1).

(** Capacity of the two term buffers, as [EstimateMaxNumOfMinterms]
    returns it. *)
Definition capacity (n : Z) (truthTable : list triLogic) : Z :=
  Z.min (2 ^ (n - 1)) (true_count truthTable).

(** The terms found so far. *)
Definition live_terms (k : nat) (rs : reduce_state) : list (Z * Z) :=
  term_list (Z.of_nat k) (rs_terms rs) (rs_dontCares rs).

(** Invariant of the loop over [iInput]. *)
Definition reduce_inv (n : Z) (truthTable : list triLogic) (i : Z) (rs : reduce_state) : Prop :=
  ∃ k : nat,
    rs_numTerms rs = Z.of_nat k ∧
    Z.of_nat (length (rs_terms rs)) = capacity n truthTable ∧
    Z.of_nat (length (rs_dontCares rs)) = capacity n truthTable ∧
    Z.of_nat (length (rs_resolved rs)) = 2 ^ n ∧
    Z.of_nat k <= capacity n truthTable ∧
    Forall (term_ok n truthTable) (live_terms k rs) ∧
    (∀ m v, rd (rs_resolved rs) m = Some v → v ≠ LOGIC_FALSE → covered n (live_terms k rs) m) ∧
    (∀ m, covered n (live_terms k rs) m → rd (rs_resolved rs) m = Some LOGIC_TRUE) ∧
    (∀ m, 0 <= m < i → rd truthTable m = Some LOGIC_TRUE → covered n (live_terms k rs) m) ∧
    Z.of_nat k <= true_count (take (Z.to_nat i) truthTable) ∧
    2 * Z.of_nat k <= i + 1 ∧
    (Z.odd i = true → 2 * Z.of_nat k = i + 1 →
     rd truthTable i = Some LOGIC_TRUE → covered n (live_terms k rs) i) ∧
    ((∀ m, 0 <= m < 2 ^ n → rd truthTable m ≠ Some LOGIC_FALSE) →
     (k <= 1)%nat ∧ Forall (λ td, td.2 = 2 ^ n - 1) (live_terms k rs)).

(** Invariant of the first loop of the filter over the [k] terms
    [(ts0, ds0)]. *)
Definition count_inv (n : Z) (ts0 ds0 : list Z) (k : nat) (i : Z) (fs : filter_state) : Prop :=
  ∃ rc,
    fs = mk_fs 0 (Z.of_nat k) (Some ts0) (Some ds0) (Some rc) ∧
    Z.of_nat (length rc) = 2 ^ n ∧
    ∀ m, 0 <= m < 2 ^ n →
         rd rc m = Some (cover_count n (take (Z.to_nat i) (zip ts0 ds0)) m).

(** Invariant of the second loop of the filter. *)
Definition filter_inv (n : Z) (ts0 ds0 : list Z) (k : nat) (i : Z) (fs : filter_state) : Prop :=
  ∃ (j : nat) ts ds rc,
    fs = mk_fs (Z.of_nat j) (Z.of_nat k - (i - Z.of_nat j)) (Some ts) (Some ds) (Some rc) ∧
    Z.of_nat j <= i ∧ length ts = k ∧ length ds = k ∧
    drop (Z.to_nat i) ts = drop (Z.to_nat i) ts0 ∧
    drop (Z.to_nat i) ds = drop (Z.to_nat i) ds0 ∧
    Z.of_nat (length rc) = 2 ^ n ∧
    (∀ m, 0 <= m < 2 ^ n →
          rd rc m = Some (cover_count n (term_list (Z.of_nat j) ts ds ++
                                         drop (Z.to_nat i) (zip ts0 ds0)) m)) ∧
    live_inv n (zip ts0 ds0) (term_list (Z.of_nat j) ts ds) (drop (Z.to_nat i) (zip ts0 ds0)).

(** ** Example inputs *)

(** A caller-initialised [SumOfProducts sumOfProducts = { numVars };] *)
Definition fresh (numVars : Z) : SumOfProducts := mkSumOfProducts numVars 0 None None None.

(** The truth table of the README: f(A, B, C) over minterms 0..7. *)
Definition scenario_A : list triLogic :=
  [LOGIC_TRUE; LOGIC_TRUE; LOGIC_FALSE; LOGIC_TRUE;
   LOGIC_TRUE; LOGIC_FALSE; LOGIC_FALSE; LOGIC_FALSE].

(** Two variables, true everywhere but on minterm 3. *)
Definition nand_table : list triLogic :=
  [LOGIC_TRUE; LOGIC_TRUE; LOGIC_TRUE; LOGIC_FALSE].

(** Two variables, never false. *)
Definition never_false_table : list triLogic :=
  [LOGIC_DONT_CARE; LOGIC_TRUE; LOGIC_DONT_CARE; LOGIC_TRUE].

(** The truth table of the constant-true function of [n] variables. *)
Definition all_true (n : Z) : list triLogic := replicate (Z.to_nat (2 ^ n)) LOGIC_TRUE.

(** ** The test driver ([shrinquem_tests.c]) *)

Definition test_input (W : Z) (sumOfProducts : SumOfProducts) (truthTable : list triLogic)
    (iInput : Z) (counts : Z * Z) : option (Z * Z) :=
  let '(numRight, numWrong) := counts in
  v ← rd truthTable iInput;
  if decide (v = LOGIC_DONT_CARE) then Some (wrap W (numRight + 1), numWrong)
  else
    result ← EvaluateSumOfProducts W sumOfProducts iInput;
    if decide (v = result) then Some (wrap W (numRight + 1), numWrong)
    else Some (numRight, wrap W (numWrong + 1)).

(** [TestAllInputs(sumOfProducts, truthTable, &numRight, &numWrong)]
    of the test driver. *)
Definition TestAllInputs (W : Z) (sumOfProducts : SumOfProducts) (truthTable : list triLogic)
    (numRight numWrong : Z) : option (Z * Z) :=
  let numOfPossibleInputs := shl1 W (numVars sumOfProducts) in
  for_range (Z.to_nat numOfPossibleInputs) 0 (test_input W sumOfProducts truthTable)
    (numRight, numWrong).

(** ** The term counters

    The two file-scope counters [numTermsKept] and [numTermsRemoved],
    which the second loop of [RemoveNonprimeImplicants] advances.
    [filter_term_counted] and [RemoveNonprimeImplicants_counted] are
    [filter_term] and [RemoveNonprimeImplicants] with the counters
    carried along. *)

Record term_counters : Type := mk_tc {
  numTermsKept : Z;
  numTermsRemoved : Z
}.

Definition ResetTermCounters (c : term_counters) : term_counters := mk_tc 0 0.

Definition GetNumTermsKept (c : term_counters) : Z := numTermsKept c.

Definition GetNumTermsRemoved (c : term_counters) : Z := numTermsRemoved c.

(** Body of the second loop of the filter, with the counters: the
    term kept adds one to [numTermsKept], the term dropped adds one to
    [numTermsRemoved]. *)
Definition filter_term_counted (W : Z) (fuel : nat) (numVars : Z) (iOldTerm : Z)
    (st : filter_state * term_counters) : option (filter_state * term_counters) :=
  let '(fs, c) := st in
  t ← rdp (fs_terms fs) iOldTerm;
  dc ← rdp (fs_dontCares fs) iOldTerm;
  let t := Z.land t (lnotw W dc) in
  r ← while_cycle W fuel numVars dc prime_visit t (fs_refCntTable fs);
  terms1 ← wrp (fs_terms fs) iOldTerm (exit_t r);
  match r with
  | Broke _ _ =>
      let iNewTerm := fs_iNewTerm fs in
      '(terms2, dontCares2) ←
        (if decide (iOldTerm ≠ iNewTerm) then
           t' ← rdp terms1 iOldTerm;
           terms2 ← wrp terms1 iNewTerm t';
           dc' ← rdp (fs_dontCares fs) iOldTerm;
           dontCares2 ← wrp (fs_dontCares fs) iNewTerm dc';
           Some (terms2, dontCares2)
         else Some (terms1, fs_dontCares fs));
      Some (mk_fs (wrap W (iNewTerm + 1)) (fs_numTerms fs) terms2 dontCares2
              (fs_refCntTable fs),
            mk_tc (wrap W (numTermsKept c + 1)) (numTermsRemoved c))
  | Wrapped t1 _ =>
      let numTerms' := wrap W (fs_numTerms fs - 1) in
      let removed := wrap W (numTermsRemoved c + 1) in
      let t2 := Z.land t1 (lnotw W dc) in
      r' ← while_cycle W fuel numVars dc (deref_visit W) t2 (fs_refCntTable fs);
      terms2 ← wrp terms1 iOldTerm (exit_t r');
      Some (mk_fs (fs_iNewTerm fs) numTerms' terms2 (fs_dontCares fs) (exit_s r'),
            mk_tc (numTermsKept c) removed)
  end.

(** [RemoveNonprimeImplicants] together with the counters. *)
Definition RemoveNonprimeImplicants_counted (W : Z) (fuel : nat) (mem : Allocator)
    (sumOfProducts : SumOfProducts) (c : term_counters)
    : option (SumOfProducts * term_counters) :=
  let numOldTerms := numTerms sumOfProducts in
  let sizeTruthtable := shl1 W (numVars sumOfProducts) in
  let refCntTable := alloc (calloc_refCntTable mem) sizeTruthtable 0 in
  fs1 ← for_range (Z.to_nat numOldTerms) 0 (count_term W fuel (numVars sumOfProducts))
          (mk_fs 0 numOldTerms (terms sumOfProducts) (dontCares sumOfProducts) refCntTable);
  '(fs2, c') ← for_range (Z.to_nat numOldTerms) 0
                 (filter_term_counted W fuel (numVars sumOfProducts)) (fs1, c);
  if decide (fs_numTerms fs2 ≠ numOldTerms) then
    Some (mkSumOfProducts (numVars sumOfProducts) (fs_numTerms fs2)
            (realloc_shrink (fs_terms fs2) (fs_numTerms fs2))
            (realloc_shrink (fs_dontCares fs2) (fs_numTerms fs2))
            (equation sumOfProducts), c')
  else
    Some (mkSumOfProducts (numVars sumOfProducts) (fs_numTerms fs2)
            (fs_terms fs2) (fs_dontCares fs2) (equation sumOfProducts), c').

(** ** Prime implicants and the order of discovery *)

Definition blocked (n : Z) (truthTable : list triLogic) (t dc b : Z) : Prop :=
  ∃ m, covers n t (Z.lor dc (2 ^ b)) m ∧ rd truthTable m = Some LOGIC_FALSE.

(** [(t, dc)] is a prime implicant of the function, with the
    don't-care entries of the table free to take either value: the
    term covers no false minterm, and not one of its fixed variables
    can be freed. *)
Definition prime_implicant (n : Z) (truthTable : list triLogic) (t dc : Z) : Prop :=
  implicant n truthTable t dc ∧
  ∀ b, 0 <= b < n → Z.testbit dc b = false → blocked n truthTable t dc b.

(** The term [td] is what the loop over [iBitTest] makes of the
    minterm [seed], with its don't-care bits cleared. *)
Definition expansion_of (W : Z) (fuel : nat) (n : Z) (truthTable : list triLogic)
    (seed : Z) (td : Z * Z) : Prop :=
  rd truthTable seed = Some LOGIC_TRUE ∧
  ∃ t, for_range (Z.to_nat n) 0 (test_bit W fuel truthTable) (seed, 0) = Some (t, td.2) ∧
       td.1 = Z.ldiff t td.2.

(** The list [live] is what the loop over [iInput] discovers among
    the minterms below [i]: its terms are the expansions of the
    minterms [seeds], which come in strictly increasing order; a seed
    is covered by no term found before it; and every true minterm
    below [i] is a seed or is covered by the term of a smaller seed.
    So the seeds are the true minterms that no earlier term covers,
    and the list is determined by the table. *)
Definition discovery (W : Z) (fuel : nat) (n : Z) (truthTable : list triLogic)
    (i : Z) (seeds : list Z) (live : list (Z * Z)) : Prop :=
  Forall2 (expansion_of W fuel n truthTable) seeds live ∧
  Forall (λ s, 0 <= s < i) seeds ∧
  (∀ p q sp sq, seeds !! p = Some sp → seeds !! q = Some sq → (p < q)%nat → sp < sq) ∧
  (∀ p q sp td, seeds !! p = Some sp → live !! q = Some td → (q < p)%nat →
                ¬ covers n td.1 td.2 sp) ∧
  (∀ m, 0 <= m < i → rd truthTable m = Some LOGIC_TRUE →
        ∃ p sp td, seeds !! p = Some sp ∧ live !! p = Some td ∧ sp <= m ∧
                   covers n td.1 td.2 m).

Definition kept_terms (fs : filter_state) : list (Z * Z) :=
  term_list (fs_iNewTerm fs) (default [] (fs_terms fs)) (default [] (fs_dontCares fs)).

(** A term with its don't-care bits cleared. *)
Definition normal_form (td : Z * Z) : Z * Z := (Z.ldiff td.1 td.2, td.2).

(** Invariant of the counted second loop over the [k] terms
    [(ts0, ds0)], started with the counters [c0]: the counters have
    advanced by the terms kept and by the terms dropped so far. *)
Definition counted_inv (W : Z) (n : Z) (ts0 ds0 : list Z) (k : nat) (c0 : term_counters)
    (i : Z) (st : filter_state * term_counters) : Prop :=
  filter_inv n ts0 ds0 k i st.1 ∧
  numTermsKept st.2 = wrap W (numTermsKept c0 + fs_iNewTerm st.1) ∧
  numTermsRemoved st.2 = wrap W (numTermsRemoved c0 + (Z.of_nat k - fs_numTerms st.1)).

(** ** GenerateEquationString with its buffers

    The same function with what the rendering above leaves out: the
    outcome of every allocation, the table of name lengths, the pass
    that measures the output, the equation buffer of the measured
    size, and the writes into it by index.  [W] is the width of
    [unsigned long], [SZ] the width of [size_t] and [PTR] the size in
    bytes of a pointer, by which the source multiplies the measured
    length.  A C string is the array of its characters followed by a
    NUL; a Rocq string stands for the characters. *)

Definition NUL : ascii := Ascii.zero.

(** The array that holds the string [s]. *)
Definition c_array (s : string) : list ascii := list_ascii_of_string s ++ [NUL].

(** [strlen]: the number of characters before the first NUL; a scan
    that leaves the array has no result. *)
Fixpoint strlen (a : list ascii) : option Z :=
  match a with
  | [] => None
  | c :: a' => if decide (c = NUL) then Some 0 else Z.succ <$> strlen a'
  end.

(** The string that a reader of the array finds in it. *)
Fixpoint c_string (a : list ascii) : option string :=
  match a with
  | [] => None
  | c :: a' => if decide (c = NUL) then Some EmptyString else String c <$> c_string a'
  end.

(** The allocations of one call.  Whichever path the call takes, it
    allocates one equation block; [equation_contents] is what that
    block holds before it is written.  [malloc_varNameAuto iVar] is
    the allocation of the name of variable [iVar]. *)
Record StringAllocator := mkStringAllocator {
  malloc_equation : bool;
  equation_contents : Z → ascii;
  malloc_varNamesAuto : bool;
  malloc_varNameAuto : Z → bool;
  malloc_varNameSizes : bool
}.

Section Buffers.

Variable W : Z.
Variable SZ : Z.
Variable PTR : Z.

Definition wrap_size (z : Z) : Z := z mod 2 ^ SZ.

(** The loop that names the variables, over a table that starts out
    null.  The inner [None] is the return of [STATUS_OUT_OF_MEMORY]
    from inside the loop. *)
Fixpoint auto_names (mem : StringAllocator) (n : nat) (iVar : Z)
    (varNamesAuto : list (option (list ascii))) :
    option (option (list (option (list ascii)))) :=
  match n with
  | O => Some (Some varNamesAuto)
  | Datatypes.S n' =>
      p ← rd varNamesAuto iVar;
      match p with
      | Some _ => auto_names mem n' (iVar + 1) varNamesAuto
      | None =>
          if malloc_varNameAuto mem iVar then
            varNamesAuto' ← wr varNamesAuto iVar (Some (c_array (auto_name iVar)));
            auto_names mem n' (iVar + 1) varNamesAuto'
          else Some None
      end
  end.

(** [strlen(varNamesToUse[iVar])] *)
Definition name_size (varNamesToUse : list (option (list ascii))) (iVar : Z) : option Z :=
  p ← rd varNamesToUse iVar; name ← p; strlen name.

(** The first pass over term [iTerm]: the length of its literals,
    added to [outputSize] in [size_t]. *)
Fixpoint size_term (n : nat) (iVar : Z) (numVars : Z) (iTerm : Z)
    (terms dontCares : option (list Z)) (varNameSizes : list Z)
    (outputSize : Z) : option Z :=
  match n with
  | O => Some outputSize
  | Datatypes.S n' =>
      let bitMask := shl1 W (wrap W (wrap W (numVars - iVar) - 1)) in
      dc ← rdp dontCares iTerm;
      outputSize' ← (if Z.land dc bitMask =? 0 then
                       size ← rd varNameSizes iVar;
                       t ← rdp terms iTerm;
                       Some (if Z.land t bitMask =? 0
                             then wrap_size (wrap_size (outputSize + size) + 1)
                             else wrap_size (outputSize + size))
                     else Some outputSize);
      size_term n' (iVar + 1) numVars iTerm terms dontCares varNameSizes outputSize'
  end.

(** The first pass over the terms: three more characters after every
    term but the last, one after the last. *)
Fixpoint size_equation (count : nat) (iTerm : Z) (numVars numTerms : Z)
    (terms dontCares : option (list Z)) (varNameSizes : list Z)
    (outputSize : Z) : option Z :=
  match count with
  | O => Some outputSize
  | Datatypes.S c =>
      size1 ← size_term (Z.to_nat numVars) 0 numVars iTerm terms dontCares varNameSizes
                outputSize;
      let size2 := if iTerm <? wrap W (numTerms - 1) then wrap_size (size1 + 3)
                   else wrap_size (size1 + 1) in
      size_equation c (iTerm + 1) numVars numTerms terms dontCares varNameSizes size2
  end.

(** [equation[iEquPos++] = c], on the pair of the buffer and
    [iEquPos]. *)
Definition put (c : ascii) (st : list ascii * Z) : option (list ascii * Z) :=
  equation ← wr st.1 st.2 c; Some (equation, wrap W (st.2 + 1)).

(** [for (iCharPos = 0; iCharPos < size; iCharPos++)
       equation[iEquPos++] = name[iCharPos];]
    [iCharPos] is an [unsigned long]: against a [size] of [2^W] or
    more the loop never ends. *)
Definition copy_name (name : list ascii) (size : Z) (st : list ascii * Z) :
    option (list ascii * Z) :=
  if decide (size < 2 ^ W) then
    for_range (Z.to_nat size) 0 (λ iCharPos st, c ← rd name iCharPos; put c st) st
  else None.

(** The second pass over term [iTerm]. *)
Fixpoint write_term (n : nat) (iVar : Z) (numVars : Z) (iTerm : Z)
    (terms dontCares : option (list Z)) (varNamesToUse : list (option (list ascii)))
    (varNameSizes : list Z) (st : list ascii * Z) : option (list ascii * Z) :=
  match n with
  | O => Some st
  | Datatypes.S n' =>
      let bitMask := shl1 W (wrap W (wrap W (numVars - iVar) - 1)) in
      dc ← rdp dontCares iTerm;
      st' ← (if Z.land dc bitMask =? 0 then
               size ← rd varNameSizes iVar;
               p ← rd varNamesToUse iVar;
               name ← p;
               st1 ← copy_name name size st;
               t ← rdp terms iTerm;
               if Z.land t bitMask =? 0 then put "'"%char st1 else Some st1
             else Some st);
      write_term n' (iVar + 1) numVars iTerm terms dontCares varNamesToUse varNameSizes st'
  end.

(** The second pass over the terms. *)
Fixpoint write_equation (count : nat) (iTerm : Z) (numVars numTerms : Z)
    (terms dontCares : option (list Z)) (varNamesToUse : list (option (list ascii)))
    (varNameSizes : list Z) (st : list ascii * Z) : option (list ascii * Z) :=
  match count with
  | O => Some st
  | Datatypes.S c =>
      st1 ← write_term (Z.to_nat numVars) 0 numVars iTerm terms dontCares varNamesToUse
              varNameSizes st;
      st2 ← (if iTerm <? wrap W (numTerms - 1) then
               st' ← put " "%char st1; st'' ← put "+"%char st'; put " "%char st''
             else put NUL st1);
      write_equation c (iTerm + 1) numVars numTerms terms dontCares varNamesToUse
        varNameSizes st2
  end.

(** The function.  Every failed allocation returns
    [STATUS_OUT_OF_MEMORY] at once, with the equation still null.
    The equation block has [outputSize] times [PTR] bytes, the product
    taken in [size_t]. *)
Definition GenerateEquationString_buffers (mem : StringAllocator)
    (sumOfProducts : SumOfProducts) (varNames : option (list string)) :
    option (shrinquemStatus * SumOfProducts) :=
  let set_equation (equation : option string) :=
    mkSumOfProducts (numVars sumOfProducts) (numTerms sumOfProducts)
      (terms sumOfProducts) (dontCares sumOfProducts) equation in
  let out_of_memory := Some (STATUS_OUT_OF_MEMORY, set_equation None) in
  let constant (c : ascii) :=
    if malloc_equation mem then
      equation ← wr (equation_contents mem <$> seqZ 0 2) 0 c;
      equation ← wr equation 1 NUL;
      eq ← c_string equation;
      Some (STATUS_OKAY, set_equation (Some eq))
    else out_of_memory in
  if numTerms sumOfProducts <=? 0 then constant "0"%char
  else
    one ← (if numTerms sumOfProducts =? 1 then
             iVar ← all_dc_loop W (Z.to_nat (numVars sumOfProducts)) 0
                      (dontCares sumOfProducts);
             Some (iVar =? numVars sumOfProducts)
           else Some false);
    if one : bool then constant "1"%char
    else
      named ← match varNames with
              | Some names => Some (Some ((λ name, Some (c_array name)) <$> names))
              | None =>
                  if malloc_varNamesAuto mem then
                    auto_names mem (Z.to_nat (numVars sumOfProducts)) 0
                      (replicate (Z.to_nat (numVars sumOfProducts)) None)
                  else Some None
              end;
      match named with
      | None => out_of_memory
      | Some varNamesToUse =>
          if malloc_varNameSizes mem then
            varNameSizes ← mapM (name_size varNamesToUse) (seqZ 0 (numVars sumOfProducts));
            outputSize ← size_equation (Z.to_nat (numTerms sumOfProducts)) 0
                           (numVars sumOfProducts) (numTerms sumOfProducts)
                           (terms sumOfProducts) (dontCares sumOfProducts) varNameSizes 0;
            if malloc_equation mem then
              st ← write_equation (Z.to_nat (numTerms sumOfProducts)) 0
                     (numVars sumOfProducts) (numTerms sumOfProducts)
                     (terms sumOfProducts) (dontCares sumOfProducts)
                     varNamesToUse varNameSizes
                     (equation_contents mem <$> seqZ 0 (wrap_size (outputSize * PTR)), 0);
              eq ← c_string st.1;
              Some (STATUS_OKAY, set_equation (Some eq))
            else out_of_memory
          else out_of_memory
      end.

End Buffers.

(** Every allocation of the call returns a block. *)
Definition allocations_succeed (mem : StringAllocator) : Prop :=
  malloc_equation mem = true ∧ malloc_varNamesAuto mem = true ∧
  (∀ iVar, malloc_varNameAuto mem iVar = true) ∧ malloc_varNameSizes mem = true.

(** The names the caller may pass: at least [numVars] strings, none
    with a NUL among its characters.  Without names the variables are
    named from ['A'] on, which reaches the NUL character at variable
    191. *)
Definition names_fit (numVars : Z) (varNames : option (list string)) : Prop :=
  match varNames with
  | Some names =>
      numVars <= Z.of_nat (length names) ∧
      Forall (λ name, NUL ∉ list_ascii_of_string name) names
  | None => numVars <= 191
  end.

(** Entry [iVar] of the table of automatic names. *)
Definition auto_array (iVar : Z) : option (list ascii) := Some (c_array (auto_name iVar)).

(** [f] writes the characters [cs] from [iEquPos] on, into any buffer
    with room for them, and leaves the rest of the buffer as it was. *)
Definition writes (W : Z) (f : list ascii * Z → option (list ascii * Z))
    (cs : list ascii) : Prop :=
  ∀ pre tail, (length cs <= length tail)%nat →
    Z.of_nat (length pre + length cs) < 2 ^ W →
    f (pre ++ tail, Z.of_nat (length pre)) =
      Some ((pre ++ cs) ++ drop (length cs) tail, Z.of_nat (length (pre ++ cs))).

(** [f] adds [k] to [outputSize], in [size_t]. *)
Definition measures (SZ : Z) (f : Z → option Z) (k : nat) : Prop :=
  ∀ outputSize, f (wrap_size SZ outputSize) = Some (wrap_size SZ (outputSize + Z.of_nat k)).

(** ** More example inputs *)

Definition only_one_table : list triLogic :=
  [LOGIC_FALSE; LOGIC_TRUE; LOGIC_FALSE; LOGIC_FALSE].

(** A table of two variables that is never true. *)
Definition never_true_table : list triLogic :=
  [LOGIC_FALSE; LOGIC_DONT_CARE; LOGIC_FALSE; LOGIC_FALSE].

(** The two terms A'C and B'C' of scenario A. *)
Definition scenario_A_terms : SumOfProducts :=
  mkSumOfProducts 3 2 (Some [1; 0]) (Some [2; 4]) None.

(** An allocator under which every allocation of
    [GenerateEquationString] succeeds, and one that has no block for
    the equation. *)
Definition strings_ok : StringAllocator :=
  mkStringAllocator true (λ _, "?"%char) true (λ _, true) true.

Definition no_equation : StringAllocator :=
  mkStringAllocator false (λ _, "?"%char) true (λ _, true) true.

(** ** Bit-level facts *)

Lemma testbit_pow2 (i j : Z) : 0 <= i → Z.testbit (2 ^ i) j = bool_decide (i = j).
Proof.
  intros Hi. rewrite Z.pow2_bits_eqb by lia.
  destruct (Z.eqb_spec i j); case_bool_decide; congruence.
Qed.

Lemma land_pow2 (x i : Z) :
  0 <= i → Z.land x (2 ^ i) = if Z.testbit x i then 2 ^ i else 0.
Proof.
  intros Hi. apply Z.bits_inj'. intros j Hj.
  rewrite Z.land_spec, testbit_pow2 by lia.
  destruct (Z.testbit x i) eqn:E.
  - rewrite testbit_pow2 by lia. case_bool_decide; subst; rewrite ?E, ?andb_false_r; done.
  - rewrite Z.bits_0. case_bool_decide; subst; rewrite ?E, ?andb_false_r; done.
Qed.

Lemma land_pow2_eqb (x i : Z) :
  0 <= i → (Z.land x (2 ^ i) =? 0) = negb (Z.testbit x i).
Proof.
  intros Hi. rewrite land_pow2 by done.
  destruct (Z.testbit x i); simpl; [|done].
  apply Z.eqb_neq. pose proof (Z.pow_pos_nonneg 2 i). lia.
Qed.

Lemma bits_above (x n j : Z) : 0 <= x < 2 ^ n → n <= j → Z.testbit x j = false.
Proof.
  intros Hx Hj. destruct (decide (0 <= n)) as [Hn|Hn].
  - rewrite <- (Z.mod_small x (2 ^ n)) by done. apply Z.mod_pow2_bits_high. lia.
  - rewrite Z.pow_neg_r in Hx by lia. lia.
Qed.

Lemma range_of_bits (x n : Z) :
  0 <= n → 0 <= x → (∀ j, n <= j → Z.testbit x j = false) → x < 2 ^ n.
Proof.
  intros Hn Hx Hb.
  destruct (decide (x = 0)) as [->|Hne]; [apply Z.pow_pos_nonneg; lia|].
  apply Z.log2_lt_pow2; [lia|].
  destruct (decide (Z.log2 x < n)) as [|Hge]; [done|].
  pose proof (Z.bit_log2 x ltac:(lia)) as Hl.
  rewrite Hb in Hl by lia. done.
Qed.

Lemma lor_range (x y n : Z) : 0 <= n → 0 <= x < 2 ^ n → 0 <= y < 2 ^ n → 0 <= Z.lor x y < 2 ^ n.
Proof.
  intros Hn Hx Hy. split; [apply Z.lor_nonneg; lia|].
  apply range_of_bits; [done|apply Z.lor_nonneg; lia|].
  intros j Hj. rewrite Z.lor_spec, (bits_above x n), (bits_above y n) by done. done.
Qed.

Lemma lxor_range (x y n : Z) : 0 <= n → 0 <= x < 2 ^ n → 0 <= y < 2 ^ n → 0 <= Z.lxor x y < 2 ^ n.
Proof.
  intros Hn Hx Hy. split; [apply Z.lxor_nonneg; lia|].
  apply range_of_bits; [done|apply Z.lxor_nonneg; lia|].
  intros j Hj. rewrite Z.lxor_spec, (bits_above x n), (bits_above y n) by done. done.
Qed.

Lemma ldiff_range (x y n : Z) : 0 <= n → 0 <= x < 2 ^ n → 0 <= Z.ldiff x y < 2 ^ n.
Proof.
  intros Hn Hx.
  assert (0 <= Z.ldiff x y) by (apply Z.ldiff_nonneg; lia).
  split; [done|]. apply range_of_bits; [done..|].
  intros j Hj. rewrite Z.ldiff_spec, (bits_above x n) by done. done.
Qed.

Lemma pow2_lt (n w : Z) : 0 <= n < w → 2 ^ n < 2 ^ w.
Proof. intros Hn. apply Z.pow_lt_mono_r; lia. Qed.

Section Words.
Context (W : Z) (HW : 0 < W).

Lemma wrap_small (x : Z) : 0 <= x < 2 ^ W → wrap W x = x.
Proof. apply Z.mod_small. Qed.

Lemma wrap_range (x : Z) : 0 <= wrap W x < 2 ^ W.
Proof. apply Z.mod_pos_bound, Z.pow_pos_nonneg; lia. Qed.

Lemma pow2_lt_word (i : Z) : 0 <= i < W → 0 < 2 ^ i < 2 ^ W.
Proof.
  intros Hi. split; [apply Z.pow_pos_nonneg; lia|apply Z.pow_lt_mono_r; lia].
Qed.

Lemma shl1_small (i : Z) : 0 <= i < W → shl1 W i = 2 ^ i.
Proof.
  intros Hi. unfold shl1. rewrite Z.shiftl_1_l.
  apply wrap_small. pose proof (pow2_lt_word i Hi). lia.
Qed.

Lemma shl1_width : shl1 W W = 0.
Proof. unfold shl1, wrap. rewrite Z.shiftl_1_l. apply Z.mod_same. pose proof (Z.pow_pos_nonneg 2 W). lia. Qed.

Lemma testbit_lnotw (x j : Z) :
  0 <= j → Z.testbit (lnotw W x) j = bool_decide (j < W) && negb (Z.testbit x j).
Proof.
  intros Hj. unfold lnotw, wrap. rewrite Z.testbit_mod_pow2 by lia.
  rewrite Z.lnot_spec by done.
  destruct (Z.ltb_spec j W); case_bool_decide; try lia; done.
Qed.

Lemma land_lnotw (t x : Z) : 0 <= t < 2 ^ W → Z.land t (lnotw W x) = Z.ldiff t x.
Proof.
  intros Ht. apply Z.bits_inj'. intros j Hj.
  rewrite Z.land_spec, Z.ldiff_spec, testbit_lnotw by done.
  case_bool_decide; [done|].
  rewrite (bits_above t W) by lia. done.
Qed.

End Words.

(** ** The restricted counter *)

Lemma half_parity (k : Z) : k = 2 * (k / 2) + (if Z.odd k then 1 else 0).
Proof. rewrite <- Zmod_odd. apply Z.div_mod. lia. Qed.

Lemma pow2_popcount_pos n i dc : 0 < 2 ^ Z.of_nat (popcount n i dc).
Proof. apply Z.pow_pos_nonneg; lia. Qed.

Lemma pow2_popcount_S n i dc :
  2 ^ Z.of_nat (popcount (S n) i dc) =
  (if Z.testbit dc i then 2 else 1) * 2 ^ Z.of_nat (popcount n (i + 1) dc).
Proof.
  simpl popcount. destruct (Z.testbit dc i).
  - rewrite Nat2Z.inj_add, Z.pow_add_r by lia. done.
  - simpl. lia.
Qed.

Lemma scatter_nonneg n : ∀ i dc k, 0 <= i → 0 <= scatter n i dc k.
Proof.
  induction n as [|n IH]; intros i dc k Hi; simpl; [done|].
  destruct (Z.testbit dc i); [|apply IH; lia].
  apply Z.lor_nonneg. split; [|apply IH; lia].
  destruct (Z.odd k); [apply Z.pow_nonneg|]; lia.
Qed.

Lemma scatter_bits n : ∀ i dc k j,
  0 <= i → Z.testbit (scatter n i dc k) j = true →
  i <= j < i + Z.of_nat n ∧ Z.testbit dc j = true.
Proof.
  induction n as [|n IH]; intros i dc k j Hi; simpl scatter.
  - rewrite Z.bits_0. done.
  - destruct (Z.testbit dc i) eqn:Hdc.
    + rewrite Z.lor_spec. intros [Hb|Hb]%orb_true_iff.
      * destruct (Z.odd k); [|by rewrite Z.bits_0 in Hb].
        rewrite testbit_pow2 in Hb by done. apply bool_decide_eq_true in Hb as <-.
        split; [lia|done].
      * apply IH in Hb as [? ?]; [|lia]. split; [lia|done].
    + intros Hb. apply IH in Hb as [? ?]; [|lia]. split; [lia|done].
Qed.

Lemma scatter_bit_low n i dc k j : 0 <= i → j < i → Z.testbit (scatter n i dc k) j = false.
Proof.
  intros Hi Hj. destruct (Z.testbit _ j) eqn:E; [|done].
  apply scatter_bits in E as [? _]; lia.
Qed.

Lemma scatter_range n i dc k m :
  0 <= i → i + Z.of_nat n <= m → 0 <= scatter n i dc k < 2 ^ m.
Proof.
  intros Hi Hm. pose proof (scatter_nonneg n i dc k Hi). split; [done|].
  apply range_of_bits; [lia|done|]. intros j Hj.
  destruct (Z.testbit _ j) eqn:E; [|done].
  apply scatter_bits in E as [? _]; lia.
Qed.

Lemma scatter_0 n : ∀ i dc, scatter n i dc 0 = 0.
Proof.
  induction n as [|n IH]; intros i dc; simpl; [done|].
  destruct (Z.testbit dc i); rewrite ?Z.div_0_l by lia; simpl; rewrite IH; done.
Qed.

Section Counter.
Context (W : Z) (HW : 0 < W).

Lemma next_minterm_scatter dc n : ∀ i fixed k,
  0 <= i → i + Z.of_nat n <= W → 0 <= fixed < 2 ^ W →
  (∀ j, i <= j → Z.testbit dc j = true → Z.testbit fixed j = false) →
  0 <= k < 2 ^ Z.of_nat (popcount n i dc) →
  ∃ idx,
    next_minterm W n i dc (Z.lor fixed (scatter n i dc k)) =
      (if decide (k + 1 < 2 ^ Z.of_nat (popcount n i dc))
       then Z.lor fixed (scatter n i dc (k + 1)) else fixed, idx) ∧
    (if decide (k + 1 < 2 ^ Z.of_nat (popcount n i dc))
     then i <= idx < i + Z.of_nat n else idx = i + Z.of_nat n).
Proof.
  induction n as [|n IH]; intros i fixed k Hi HiW Hfix Hfree Hk.
  - simpl in *. exists i. assert (k = 0) as -> by lia.
    rewrite Z.lor_0_r. case_decide; [lia|]. split; [done|lia].
  - rewrite pow2_popcount_S in *. simpl next_minterm. simpl scatter.
    rewrite shl1_small by lia. rewrite land_pow2_eqb by done.
    pose proof (pow2_popcount_pos n (i + 1) dc) as HN.
    destruct (Z.testbit dc i) eqn:Hdc; simpl negb; cbv iota.
    + (* position [i] is a don't-care *)
      rewrite land_pow2_eqb by done.
      assert (Z.testbit (Z.lor fixed (Z.lor (if Z.odd k then 2 ^ i else 0)
                (scatter n (i + 1) dc (k / 2)))) i = Z.odd k) as ->.
      { rewrite !Z.lor_spec, Hfree, scatter_bit_low by (done || lia).
        destruct (Z.odd k); rewrite ?testbit_pow2, ?Z.bits_0 by done;
          [rewrite bool_decide_eq_true_2|]; done. }
      pose proof (half_parity k) as Hpar.
      destruct (Z.odd k) eqn:Hodd; simpl negb; cbv iota.
      * (* carry: clear the bit and go on *)
        assert (Z.land (Z.lor fixed (Z.lor (2 ^ i) (scatter n (i + 1) dc (k / 2))))
                  (lnotw W (2 ^ i)) = Z.lor fixed (scatter n (i + 1) dc (k / 2))) as ->.
        { rewrite land_lnotw; [|done|].
          2:{ apply lor_range; [lia|done|]. apply lor_range; [lia| |].
              - pose proof (pow2_lt_word W HW i). lia.
              - apply scatter_range; lia. }
          apply Z.bits_inj'. intros j Hj.
          rewrite Z.ldiff_spec, !Z.lor_spec, testbit_pow2 by done.
          case_bool_decide as Hij; [subst j|by rewrite orb_false_l, andb_true_r].
          rewrite Hfree, scatter_bit_low by (done || lia). done. }
        destruct (IH (i + 1) fixed (k / 2)) as (idx & Hnext & Hidx); [lia..|done| |lia|].
        { intros j Hj. apply Hfree. lia. }
        exists idx. rewrite Hnext.
        assert (Z.odd (k + 1) = false) as ->.
        { rewrite Z.odd_add, Hodd. done. }
        assert ((k + 1) / 2 = k / 2 + 1) as ->.
        { rewrite Hpar at 1. replace (2 * (k / 2) + 1 + 1) with ((k / 2 + 1) * 2) by lia.
          apply Z.div_mul. lia. }
        rewrite Z.lor_0_l.
        destruct (decide (k / 2 + 1 < _)), (decide (k + 1 < _)); try lia; (split; [done|lia]).
      * (* set the bit and leave *)
        exists i. destruct (decide (k + 1 < _)); [|lia].
        assert (Z.odd (k + 1) = true) as ->.
        { rewrite Z.odd_add, Hodd. done. }
        assert ((k + 1) / 2 = k / 2) as ->.
        { rewrite Hpar at 1. replace (2 * (k / 2) + 0 + 1) with (1 + (k / 2) * 2) by lia.
          rewrite Z.div_add by lia. done. }
        split; [|lia]. f_equal. rewrite Z.lor_0_l.
        rewrite <- !Z.lor_assoc. f_equal. apply Z.lor_comm.
    + (* position [i] is fixed *)
      destruct (IH (i + 1) fixed k) as (idx & Hnext & Hidx); [lia..|done| |lia|].
      { intros j Hj. apply Hfree. lia. }
      exists idx. rewrite Hnext. rewrite Z.mul_1_l.
      case_decide; (split; [done|lia]).
Qed.

End Counter.

Lemma disjoint_bits (x y j : Z) : Z.land x y = 0 → Z.testbit y j = true → Z.testbit x j = false.
Proof.
  intros Hd Hy. pose proof (Z.land_spec x y j) as Hl.
  rewrite Hd, Z.bits_0, Hy, andb_true_r in Hl. done.
Qed.

Lemma scatter_surj dc n : ∀ i s,
  0 <= i → 0 <= s →
  (∀ j, Z.testbit s j = true → i <= j < i + Z.of_nat n ∧ Z.testbit dc j = true) →
  ∃ k, 0 <= k < 2 ^ Z.of_nat (popcount n i dc) ∧ scatter n i dc k = s.
Proof.
  induction n as [|n IH]; intros i s Hi Hs Hbits.
  - exists 0. simpl. split; [lia|]. symmetry. apply Z.bits_inj'. intros j Hj.
    rewrite Z.bits_0. destruct (Z.testbit s j) eqn:E; [|done].
    apply Hbits in E. lia.
  - destruct (IH (i + 1) (Z.ldiff s (2 ^ i))) as (k' & Hk' & Hsc); [lia| |..].
    { apply Z.ldiff_nonneg. lia. }
    { intros j. rewrite Z.ldiff_spec, testbit_pow2 by done.
      intros [Hb Hne]%andb_true_iff. apply Hbits in Hb as [? ?].
      apply negb_true_iff, bool_decide_eq_false in Hne. split; [lia|done]. }
    rewrite pow2_popcount_S. simpl scatter.
    destruct (Z.testbit dc i) eqn:Hdc.
    + exists (2 * k' + (if Z.testbit s i then 1 else 0)).
      assert (Z.odd (2 * k' + (if Z.testbit s i then 1 else 0)) = Z.testbit s i) as ->.
      { rewrite Z.odd_add, Z.odd_mul. simpl. by destruct (Z.testbit s i). }
      assert ((2 * k' + (if Z.testbit s i then 1 else 0)) / 2 = k') as ->.
      { rewrite Z.add_comm, Z.mul_comm, Z.div_add by lia.
        destruct (Z.testbit s i); rewrite Z.div_small by lia; lia. }
      split; [destruct (Z.testbit s i); lia|].
      rewrite Hsc. apply Z.bits_inj'. intros j Hj.
      rewrite Z.lor_spec, Z.ldiff_spec, testbit_pow2 by done.
      case_bool_decide as Hij.
      * subst j. destruct (Z.testbit s i); rewrite ?testbit_pow2, ?Z.bits_0 by done;
          [rewrite bool_decide_eq_true_2 by done|]; simpl; rewrite ?andb_false_r; done.
      * rewrite andb_true_r.
        destruct (Z.testbit s i); rewrite ?testbit_pow2, ?Z.bits_0 by done; [|done].
        rewrite bool_decide_eq_false_2 by done. done.
    + exists k'. split; [lia|]. rewrite Hsc.
      apply Z.bits_inj'. intros j Hj.
      rewrite Z.ldiff_spec, testbit_pow2 by done.
      case_bool_decide as Hij; [|by rewrite andb_true_r].
      subst j. rewrite andb_false_r. destruct (Z.testbit s i) eqn:E; [|done].
      apply Hbits in E as [_ E]. congruence.
Qed.

Lemma scatter_inj dc n : ∀ i k k',
  0 <= i →
  0 <= k < 2 ^ Z.of_nat (popcount n i dc) → 0 <= k' < 2 ^ Z.of_nat (popcount n i dc) →
  scatter n i dc k = scatter n i dc k' → k = k'.
Proof.
  induction n as [|n IH]; intros i k k' Hi Hk Hk'.
  - simpl in *. lia.
  - rewrite pow2_popcount_S in *. simpl scatter.
    destruct (Z.testbit dc i) eqn:Hdc; [|intros; apply (IH (i + 1)); (done || lia)].
    intros Heq.
    assert (Z.odd k = Z.odd k') as Hodd.
    { pose proof (f_equal (λ x, Z.testbit x i) Heq) as Hb. simpl in Hb.
      rewrite !Z.lor_spec, !scatter_bit_low, !orb_false_r in Hb by lia.
      destruct (Z.odd k), (Z.odd k'); rewrite ?testbit_pow2, ?Z.bits_0 in Hb by done;
        try done; rewrite bool_decide_eq_true_2 in Hb; done. }
    assert (k / 2 = k' / 2) as Hhalf.
    { apply (IH (i + 1)); [lia| | |].
      - pose proof (half_parity k). destruct (Z.odd k); lia.
      - pose proof (half_parity k'). destruct (Z.odd k'); lia.
      - apply Z.bits_inj'. intros j Hj.
        pose proof (f_equal (λ x, Z.testbit x j) Heq) as Hb. simpl in Hb.
        rewrite !Z.lor_spec in Hb.
        destruct (decide (j = i)) as [->|Hne]; [by rewrite !scatter_bit_low by lia|].
        rewrite Hodd in Hb.
        destruct (Z.odd k'); rewrite ?testbit_pow2, ?Z.bits_0 in Hb by done; [|done].
        rewrite bool_decide_eq_false_2 in Hb by done. done. }
    pose proof (half_parity k). pose proof (half_parity k').
    rewrite Hodd, Hhalf in *. lia.
Qed.

(** ** The list of visited minterms *)

Lemma length_visited n dc base :
  Z.of_nat (length (visited n dc base)) = 2 ^ Z.of_nat (popcount n 0 dc).
Proof.
  unfold visited. rewrite length_fmap, length_seqZ.
  pose proof (pow2_popcount_pos n 0 dc). lia.
Qed.

Lemma visited_nonempty n dc base : visited n dc base ≠ [].
Proof.
  intros Hnil. pose proof (length_visited n dc base) as Hl.
  pose proof (pow2_popcount_pos n 0 dc). rewrite Hnil in Hl. simpl in Hl. lia.
Qed.

Lemma head_visited n dc base : head (visited n dc base) = Some base.
Proof.
  unfold visited. pose proof (pow2_popcount_pos n 0 dc).
  rewrite seqZ_cons by lia. simpl. by rewrite scatter_0, Z.lor_0_r.
Qed.

Lemma elem_of_visited n dc base m :
  0 <= dc < 2 ^ Z.of_nat n → 0 <= base → Z.land base dc = 0 →
  m ∈ visited n dc base ↔ 0 <= m ∧ Z.ldiff m dc = base.
Proof.
  intros Hdc Hbase Hdisj. unfold visited. rewrite list_elem_of_fmap. split.
  - intros (k & -> & Hk). pose proof (scatter_nonneg n 0 dc k ltac:(lia)).
    split; [apply Z.lor_nonneg; lia|].
    apply Z.bits_inj'. intros j Hj. rewrite Z.ldiff_spec, Z.lor_spec.
    destruct (Z.testbit dc j) eqn:Ej.
    + rewrite (disjoint_bits base dc j), andb_false_r by done. done.
    + rewrite andb_true_r. destruct (Z.testbit (scatter _ _ _ _) j) eqn:Es.
      * apply scatter_bits in Es as [_ Es]; [congruence|lia].
      * by rewrite orb_false_r.
  - intros [Hm Hld].
    destruct (scatter_surj dc n 0 (Z.land m dc)) as (k & Hk & Hsc); [lia| | |].
    { apply Z.land_nonneg. lia. }
    { intros j. rewrite Z.land_spec. intros [_ Hb]%andb_true_iff. split; [|done].
      destruct (decide (0 <= j < Z.of_nat n)); [lia|].
      destruct (decide (j < 0)); [by rewrite Z.testbit_neg_r in Hb|].
      rewrite (bits_above dc (Z.of_nat n)) in Hb by lia. done. }
    exists k. split; [|apply elem_of_seqZ; lia].
    rewrite Hsc, <- Hld. apply Z.bits_inj'. intros j Hj.
    rewrite Z.lor_spec, Z.ldiff_spec, Z.land_spec.
    by destruct (Z.testbit m j), (Z.testbit dc j).
Qed.

Lemma NoDup_visited n dc base :
  0 <= dc < 2 ^ Z.of_nat n → Z.land base dc = 0 → NoDup (visited n dc base).
Proof.
  intros Hdc Hdisj. unfold visited. apply NoDup_fmap_2_strong; [|apply NoDup_seqZ].
  intros k k' Hk Hk' Heq. apply elem_of_seqZ in Hk, Hk'.
  apply (scatter_inj dc n 0); [lia..|].
  apply Z.bits_inj'. intros j Hj.
  pose proof (f_equal (λ x, Z.testbit x j) Heq) as Hb. simpl in Hb.
  rewrite !Z.lor_spec in Hb.
  destruct (Z.testbit dc j) eqn:Ej.
  - by rewrite (disjoint_bits base dc j) in Hb.
  - destruct (Z.testbit (scatter n 0 dc k) j) eqn:E1.
    { apply scatter_bits in E1 as [_ E1]; [congruence|lia]. }
    destruct (Z.testbit (scatter n 0 dc k') j) eqn:E2; [|done].
    apply scatter_bits in E2 as [_ E2]; [congruence|lia].
Qed.

Section Cycle.
Context (W : Z) (HW : 0 < W).

Lemma while_cycle_suffix {S} (visit : Z → S → option (ctl S)) n dc base :
  Z.of_nat n <= W → 0 <= base < 2 ^ W → Z.land base dc = 0 →
  ∀ cnt fuel k s,
    0 <= k → k + Z.of_nat (Datatypes.S cnt) = 2 ^ Z.of_nat (popcount n 0 dc) →
    (cnt < fuel)%nat →
    while_cycle W fuel (Z.of_nat n) dc visit (Z.lor base (scatter n 0 dc k)) s =
    run_visits visit base
      ((λ k, Z.lor base (scatter n 0 dc k)) <$> seqZ k (Z.of_nat (Datatypes.S cnt))) s.
Proof.
  intros Hn Hbase Hdisj. induction cnt as [|cnt IH]; intros fuel k s Hk Hcnt Hfuel.
  all: destruct fuel as [|fuel]; [lia|].
  all: rewrite seqZ_cons by lia; simpl.
  all: destruct (visit _ s) as [[s'|s']|]; simpl; try done.
  all: rewrite Nat2Z.id.
  all: destruct (next_minterm_scatter W HW dc n 0 base k) as (idx & -> & Hidx);
    [lia|lia|done|intros; by eapply disjoint_bits|lia|].
  - rewrite decide_False in Hidx by lia. rewrite decide_False by lia.
    subst idx. simpl. rewrite Z.eqb_refl. done.
  - rewrite decide_True in Hidx by lia. rewrite decide_True by lia.
    destruct (Z.eqb_spec idx (Z.of_nat n)); [lia|].
    rewrite IH by lia. f_equal. f_equal. f_equal; lia.
Qed.

(** A cycling loop with enough fuel visits the minterms of the cube in
    counter order. *)
Lemma while_cycle_visits {S} (visit : Z → S → option (ctl S)) n dc base fuel s :
  Z.of_nat n <= W → 0 <= base < 2 ^ W → Z.land base dc = 0 →
  2 ^ Z.of_nat (popcount n 0 dc) <= Z.of_nat fuel →
  while_cycle W fuel (Z.of_nat n) dc visit base s =
  run_visits visit base (visited n dc base) s.
Proof.
  intros Hn Hbase Hdisj Hfuel. pose proof (pow2_popcount_pos n 0 dc) as HN.
  unfold visited.
  replace (2 ^ Z.of_nat (popcount n 0 dc))
    with (Z.of_nat (Datatypes.S (Z.to_nat (2 ^ Z.of_nat (popcount n 0 dc) - 1)))) by lia.
  rewrite <- (while_cycle_suffix visit n dc base Hn Hbase Hdisj _ fuel 0 s); [|lia..].
  by rewrite scatter_0, Z.lor_0_r.
Qed.

End Cycle.

(** ** Loops and arrays *)

Lemma for_range_inv {S} (P : Z → S → Prop) (body : Z → S → option S) count :
  ∀ i s,
    P i s →
    (∀ j s, i <= j < i + Z.of_nat count → P j s → ∃ s', body j s = Some s' ∧ P (j + 1) s') →
    ∃ s', for_range count i body s = Some s' ∧ P (i + Z.of_nat count) s'.
Proof.
  induction count as [|count IH]; intros i s Hinit Hstep; simpl.
  - exists s. by rewrite Z.add_0_r.
  - destruct (Hstep i s) as (s1 & -> & H1); [lia|done|]. simpl.
    destruct (IH (i + 1) s1) as (s2 & -> & H2); [done| |].
    { intros j s' Hj. apply Hstep. lia. }
    exists s2. split; [done|]. by replace (i + Z.of_nat (Datatypes.S count)) with (i + 1 + Z.of_nat count) by lia.
Qed.

Lemma rd_Some {A} (a : list A) i v :
  rd a i = Some v ↔ 0 <= i ∧ a !! Z.to_nat i = Some v.
Proof.
  unfold rd. destruct (decide (0 <= i)); [tauto|].
  split; [done|]. intros [? _]. lia.
Qed.

Lemma rd_lt {A} (a : list A) i v : rd a i = Some v → 0 <= i < Z.of_nat (length a).
Proof. intros [? Hl%lookup_lt_Some]%rd_Some. lia. Qed.

Lemma rd_is_Some {A} (a : list A) i : 0 <= i < Z.of_nat (length a) → is_Some (rd a i).
Proof.
  intros Hi. unfold rd. rewrite decide_True by lia. apply lookup_lt_is_Some. lia.
Qed.

Lemma wr_Some {A} (a : list A) i v :
  0 <= i < Z.of_nat (length a) → wr a i v = Some (<[Z.to_nat i := v]> a).
Proof. intros Hi. unfold wr. by rewrite decide_True. Qed.

Lemma rd_insert {A} (a : list A) i j v :
  0 <= i < Z.of_nat (length a) → 0 <= j →
  rd (<[Z.to_nat i := v]> a) j = if decide (i = j) then Some v else rd a j.
Proof.
  intros Hi Hj. unfold rd. rewrite !(decide_True (P := 0 <= j)) by done.
  destruct (decide (i = j)) as [->|Hne].
  - apply list_lookup_insert_eq. lia.
  - apply list_lookup_insert_ne. lia.
Qed.

Lemma rd_replicate {A} n (x : A) i : 0 <= i < n → rd (replicate (Z.to_nat n) x) i = Some x.
Proof.
  intros Hi. unfold rd. rewrite decide_True by lia. apply lookup_replicate_2. lia.
Qed.

(** ** Coverage *)

Lemma ldiff_eq_lor_eq (m t dc : Z) : Z.ldiff m dc = Z.ldiff t dc ↔ Z.lor m dc = Z.lor t dc.
Proof.
  split; intros Heq; apply Z.bits_inj'; intros j Hj;
    pose proof (f_equal (λ x, Z.testbit x j) Heq) as Hb; simpl in Hb;
    rewrite ?Z.ldiff_spec, ?Z.lor_spec in *;
    by destruct (Z.testbit m j), (Z.testbit t j), (Z.testbit dc j).
Qed.

Lemma ldiff_disjoint (t dc : Z) : Z.land (Z.ldiff t dc) dc = 0.
Proof.
  apply Z.bits_inj'. intros j Hj. rewrite Z.land_spec, Z.ldiff_spec, Z.bits_0.
  by destruct (Z.testbit t j), (Z.testbit dc j).
Qed.

Lemma ldiff_ldiff (t dc : Z) : Z.ldiff (Z.ldiff t dc) dc = Z.ldiff t dc.
Proof.
  apply Z.bits_inj'. intros j Hj. rewrite !Z.ldiff_spec.
  by destruct (Z.testbit t j), (Z.testbit dc j).
Qed.

Lemma ldiff_id (t dc : Z) : Z.land t dc = 0 → Z.ldiff t dc = t.
Proof.
  intros Hd. apply Z.bits_inj'. intros j Hj. rewrite Z.ldiff_spec.
  destruct (Z.testbit dc j) eqn:E; [|by rewrite andb_true_r].
  by rewrite (disjoint_bits t dc j).
Qed.

Lemma covers_range n t dc m : covers n t dc m → 0 <= m < 2 ^ n.
Proof. by intros [? _]. Qed.

Lemma covers_self n t dc : 0 <= t < 2 ^ n → covers n t dc t.
Proof. by split. Qed.

Lemma covers_equiv n t t' dc m : Z.lor t dc = Z.lor t' dc → covers n t dc m ↔ covers n t' dc m.
Proof. unfold covers. by intros ->. Qed.

(** The minterms a cycling loop visits are the minterms the term
    covers. *)
Lemma elem_of_visited_covers (b : nat) n t dc m :
  Z.of_nat b <= n → 0 <= dc < 2 ^ Z.of_nat b → 0 <= t < 2 ^ n →
  m ∈ visited b dc (Z.ldiff t dc) ↔ covers n t dc m.
Proof.
  intros Hb Hdc Ht.
  rewrite elem_of_visited; [|done|apply Z.ldiff_nonneg; lia|apply ldiff_disjoint].
  unfold covers. rewrite ldiff_eq_lor_eq. split; [|intros [[? ?] ?]; done].
  intros [Hm Heq]. split; [|done]. split; [done|].
  apply range_of_bits; [lia|done|]. intros j Hj.
  pose proof (f_equal (λ x, Z.testbit x j) Heq) as Hbit. simpl in Hbit.
  rewrite !Z.lor_spec, (bits_above t n), (bits_above dc (Z.of_nat b)) in Hbit by lia.
  by rewrite orb_false_r in Hbit.
Qed.

Lemma popcount_le n : ∀ i dc, (popcount n i dc <= n)%nat.
Proof.
  induction n as [|n IH]; intros i dc; simpl; [done|].
  specialize (IH (i + 1) dc). destruct (Z.testbit dc i); lia.
Qed.

Lemma pow2_popcount_le (b : nat) n dc : Z.of_nat b <= n → 2 ^ Z.of_nat (popcount b 0 dc) <= 2 ^ n.
Proof.
  intros Hb. apply Z.pow_le_mono_r; [lia|]. pose proof (popcount_le b 0 dc). lia.
Qed.

(** ** Unrolled loop bodies *)

Lemma run_visits_cons {St} (visit : Z → St → option (ctl St)) base m ms s :
  run_visits visit base (m :: ms) s =
  c ← visit m s;
  match c with
  | Break s' => Some (Broke m s')
  | Continue s' => run_visits visit base ms s'
  end.
Proof. done. Qed.

Lemma run_test base truthTable : ∀ L,
  (∀ m, m ∈ L → 0 <= m < Z.of_nat (length truthTable)) →
  (∃ m, run_visits (test_visit truthTable) base L () = Some (Broke m ()) ∧
        m ∈ L ∧ rd truthTable m = Some LOGIC_FALSE) ∨
  (run_visits (test_visit truthTable) base L () = Some (Wrapped base ()) ∧
   ∀ m, m ∈ L → rd truthTable m ≠ Some LOGIC_FALSE).
Proof.
  induction L as [|m L IH]; intros Hin.
  - right. split; [done|]. intros m Hm. by apply elem_of_nil in Hm.
  - destruct (rd_is_Some truthTable m) as [v Hv]; [apply Hin; left|].
    assert (test_visit truthTable m () =
            Some (if decide (v = LOGIC_FALSE) then Break () else Continue ())) as Hvis.
    { unfold test_visit. by rewrite Hv. }
    rewrite run_visits_cons, Hvis. simpl.
    destruct (decide (v = LOGIC_FALSE)) as [Hf|Hf].
    + left. exists m. subst v. split_and!; [done|left|done].
    + destruct IH as [(m' & Hrun & Hm' & Hfalse)|[Hrun Hall]].
      { intros m' Hm'. apply Hin. by right. }
      * left. exists m'. split_and!; [done|by right|done].
      * right. split; [done|]. intros m' [->|Hm']%elem_of_cons; [congruence|by apply Hall].
Qed.

Lemma run_mark base : ∀ L resolved,
  (∀ m, m ∈ L → 0 <= m < Z.of_nat (length resolved)) →
  ∃ resolved',
    run_visits mark_visit base L resolved = Some (Wrapped base resolved') ∧
    length resolved' = length resolved ∧
    (∀ m, m ∈ L → rd resolved' m = Some LOGIC_TRUE) ∧
    (∀ m, m ∉ L → rd resolved' m = rd resolved m).
Proof.
  induction L as [|m L IH]; intros resolved Hin.
  - exists resolved. split_and!; [done..| |done]. intros m Hm. by apply elem_of_nil in Hm.
  - assert (0 <= m < Z.of_nat (length resolved)) as Hm by (apply Hin; left).
    assert (mark_visit m resolved = Some (Continue (<[Z.to_nat m := LOGIC_TRUE]> resolved)))
      as Hvis.
    { unfold mark_visit. by rewrite wr_Some. }
    rewrite run_visits_cons, Hvis. simpl.
    destruct (IH (<[Z.to_nat m := LOGIC_TRUE]> resolved)) as (res' & -> & Hlen & Hset & Hkeep).
    { intros m' Hm'. rewrite length_insert. apply Hin. by right. }
    exists res'. rewrite length_insert in Hlen. split_and!; [done..| |].
    + intros m' Hm'. destruct (decide (m' ∈ L)) as [|Hnot]; [by apply Hset|].
      apply elem_of_cons in Hm' as [->|]; [|done].
      rewrite Hkeep, rd_insert, decide_True by (done || lia). done.
    + intros m' Hm'. apply not_elem_of_cons in Hm' as [Hne Hnot].
      rewrite Hkeep by done. unfold rd. case_decide; [|done].
      apply list_lookup_insert_ne. lia.
Qed.

(** ** Term expansion *)

Lemma lor_flip (m t p dc : Z) :
  Z.lor m dc = Z.lor (Z.lxor t p) dc → Z.lor (Z.lxor m p) dc = Z.lor t dc.
Proof.
  intros Heq. apply Z.bits_inj'. intros j Hj.
  pose proof (f_equal (λ x, Z.testbit x j) Heq) as Hb. simpl in Hb.
  rewrite ?Z.lor_spec, ?Z.lxor_spec in *.
  by destruct (Z.testbit m j), (Z.testbit t j), (Z.testbit p j), (Z.testbit dc j).
Qed.

Lemma lor_flip_both (t s p dc : Z) :
  Z.lor t dc = Z.lor s dc → Z.lor (Z.lxor t p) dc = Z.lor (Z.lxor s p) dc.
Proof.
  intros Heq. apply Z.bits_inj'. intros j Hj.
  pose proof (f_equal (λ x, Z.testbit x j) Heq) as Hb. simpl in Hb.
  rewrite ?Z.lor_spec, ?Z.lxor_spec in *.
  by destruct (Z.testbit t j), (Z.testbit s j), (Z.testbit p j), (Z.testbit dc j).
Qed.

Lemma lor_base_widen (t p dc : Z) :
  Z.lor (Z.ldiff (Z.lxor t p) dc) (Z.lor dc p) = Z.lor t (Z.lor dc p).
Proof.
  apply Z.bits_inj'. intros j Hj.
  rewrite ?Z.lor_spec, ?Z.ldiff_spec, ?Z.lxor_spec.
  by destruct (Z.testbit t j), (Z.testbit p j), (Z.testbit dc j).
Qed.

Lemma lor_widen (t s dc p : Z) :
  Z.lor t dc = Z.lor s dc → Z.lor t (Z.lor dc p) = Z.lor s (Z.lor dc p).
Proof. intros Heq. by rewrite !Z.lor_assoc, Heq. Qed.

Lemma lor_ldiff (t dc : Z) : Z.lor (Z.ldiff t dc) dc = Z.lor t dc.
Proof.
  apply Z.bits_inj'. intros j Hj. rewrite ?Z.lor_spec, ?Z.ldiff_spec.
  by destruct (Z.testbit t j), (Z.testbit dc j).
Qed.

(** Freeing one more position splits the cube in two halves. *)
Lemma covers_widen n s dc b m :
  0 <= b → covers n s (Z.lor dc (2 ^ b)) m →
  covers n s dc m ∨ covers n (Z.lxor s (2 ^ b)) dc m.
Proof.
  intros Hb [Hm Heq].
  destruct (Bool.bool_dec (Z.testbit m b) (Z.testbit s b)) as [Hsame|Hdiff]; [left|right].
  all: split; [done|]; apply Z.bits_inj'; intros j Hj.
  all: pose proof (f_equal (λ x, Z.testbit x j) Heq) as Hbit; simpl in Hbit.
  all: rewrite ?Z.lor_spec, ?Z.lxor_spec, ?testbit_pow2 in * by done.
  all: case_bool_decide as Hjb; [subst j|].
  all: rewrite ?orb_false_r, ?xorb_false_r in *; try done.
  - by rewrite Hsame.
  - destruct (Z.testbit m b), (Z.testbit s b); try done; by destruct (Z.testbit dc b).
Qed.

Lemma covers_narrow n s dc p m : covers n s dc m → covers n s (Z.lor dc p) m.
Proof. intros [Hm Heq]. split; [done|]. by apply lor_widen. Qed.

Lemma covers_narrow_flip n s dc b m :
  covers n (Z.lxor s (2 ^ b)) dc m → covers n s (Z.lor dc (2 ^ b)) m.
Proof.
  intros [Hm Heq]. split; [done|]. apply Z.bits_inj'. intros j Hj.
  pose proof (f_equal (λ x, Z.testbit x j) Heq) as Hbit. simpl in Hbit.
  rewrite ?Z.lor_spec, ?Z.lxor_spec in *.
  by destruct (Z.testbit m j), (Z.testbit s j), (Z.testbit (2 ^ b) j), (Z.testbit dc j).
Qed.

Lemma lor_ones_succ (b : Z) : 0 <= b → Z.lor (2 ^ b - 1) (2 ^ b) = 2 ^ (b + 1) - 1.
Proof.
  intros Hb. rewrite !Z.sub_1_r, <- !Z.ones_equiv.
  apply Z.bits_inj'. intros j Hj.
  rewrite Z.lor_spec, !Z.testbit_ones_nonneg, testbit_pow2 by lia.
  destruct (Z.ltb_spec j b), (Z.ltb_spec j (b + 1)); case_bool_decide; (done || lia).
Qed.

Lemma lor_ones_full (x n : Z) : 0 <= n → 0 <= x < 2 ^ n → Z.lor x (2 ^ n - 1) = 2 ^ n - 1.
Proof.
  intros Hn Hx. rewrite !Z.sub_1_r, <- !Z.ones_equiv.
  apply Z.bits_inj'. intros j Hj.
  rewrite Z.lor_spec, !Z.testbit_ones_nonneg by lia.
  destruct (Z.ltb_spec j n); [by rewrite orb_true_r|].
  by rewrite (bits_above x n).
Qed.

Section Expand.
Context (W : Z) (HW : 0 < W).
Context (n : Z) (Hn : 1 <= n < W).
Context (truthTable : list triLogic) (Htt : Z.of_nat (length truthTable) = 2 ^ n).
Context (fuel : nat) (Hfuel : 2 ^ n <= Z.of_nat fuel).

Lemma test_bit_spec b t dc :
  0 <= b < n → 0 <= dc < 2 ^ b → 0 <= t < 2 ^ n →
  ∃ t' dc',
    test_bit W fuel truthTable b (t, dc) = Some (t', dc') ∧
    0 <= t' < 2 ^ n ∧ Z.lor t' dc' = Z.lor t dc' ∧
    ((dc' = Z.lor dc (2 ^ b) ∧
      ∀ m, covers n (Z.lxor t (2 ^ b)) dc m → rd truthTable m ≠ Some LOGIC_FALSE) ∨
     (dc' = dc ∧
      ∃ m, covers n (Z.lxor t (2 ^ b)) dc m ∧ rd truthTable m = Some LOGIC_FALSE)).
Proof.
  intros Hb Hdc Ht. pose proof (pow2_lt n W ltac:(lia)) as HnW.
  assert (0 < 2 ^ b < 2 ^ n) as Hpb.
  { split; [apply Z.pow_pos_nonneg; lia|apply Z.pow_lt_mono_r; lia]. }
  assert (0 <= Z.lxor t (2 ^ b) < 2 ^ n) as Ht1 by (apply lxor_range; lia).
  unfold test_bit. rewrite shl1_small by lia.
  rewrite land_lnotw by lia.
  pose proof (while_cycle_visits W HW (test_visit truthTable) (Z.to_nat b) dc
                (Z.ldiff (Z.lxor t (2 ^ b)) dc) fuel ()) as Hcyc.
  rewrite Z2Nat.id in Hcyc by lia. rewrite Hcyc; clear Hcyc; [|lia| |apply ldiff_disjoint|].
  2:{ pose proof (ldiff_range (Z.lxor t (2 ^ b)) dc n). lia. }
  2:{ pose proof (pow2_popcount_le (Z.to_nat b) n dc). lia. }
  assert (∀ m, m ∈ visited (Z.to_nat b) dc (Z.ldiff (Z.lxor t (2 ^ b)) dc) ↔
               covers n (Z.lxor t (2 ^ b)) dc m) as Hvis.
  { intros m. apply elem_of_visited_covers; [lia| |done]. by rewrite Z2Nat.id by lia. }
  destruct (run_test (Z.ldiff (Z.lxor t (2 ^ b)) dc) truthTable
              (visited (Z.to_nat b) dc (Z.ldiff (Z.lxor t (2 ^ b)) dc)))
    as [(m & -> & Hm & Hfalse)|[-> Hall]].
  { intros m Hm%Hvis. rewrite Htt. by destruct Hm. }
  - apply Hvis in Hm. simpl. eexists _, _. split; [done|].
    destruct Hm as [Hmr Hmeq].
    pose proof (lxor_range m (2 ^ b) n). split_and!; [lia..| |].
    + by apply lor_flip.
    + right. split; [done|]. exists m. by split.
  - simpl. eexists _, _. split; [done|].
    pose proof (ldiff_range (Z.lxor t (2 ^ b)) dc n). split_and!; [lia..| |].
    + apply lor_base_widen.
    + left. split; [done|]. intros m Hm%Hvis. by apply Hall.
Qed.

Lemma expand_step seed b tdc :
  0 <= b < n → expand_inv n truthTable seed b tdc →
  ∃ tdc', test_bit W fuel truthTable b tdc = Some tdc' ∧ expand_inv n truthTable seed (b + 1) tdc'.
Proof.
  intros Hb. destruct tdc as [t dc]. unfold expand_inv. cbn [fst snd].
  intros (Hdc & Ht & Heq & Himp & Hbit0 & Hfull).
  destruct (test_bit_spec b t dc) as (t' & dc' & -> & Ht' & Heq' & Hcase); [done..|].
  exists (t', dc'). split; [done|]. cbn [fst snd].
  assert (0 < 2 ^ b) as Hpb by (apply Z.pow_pos_nonneg; lia).
  assert (2 ^ (b + 1) = 2 * 2 ^ b) as Hpow by (rewrite Z.pow_add_r; lia).
  destruct Hcase as [[-> Hall]|[-> (m & Hm & Hfalse)]].
  - pose proof (lor_range dc (2 ^ b) (b + 1)).
    split_and!; try done; try lia.
    + rewrite Heq'. by apply lor_widen.
    + intros m [Hm|Hm]%covers_widen; [by apply Himp| |lia].
      apply Hall. revert Hm. apply covers_equiv. by apply lor_flip_both.
    + intros _ Hnf. rewrite Z.lor_spec.
      destruct (decide (b = 0)) as [->|Hne]; [by rewrite orb_true_r|].
      rewrite Hbit0 by (done || lia). done.
    + intros Hnone. rewrite Hfull by done. apply lor_ones_succ; lia.
  - split_and!; try done; try lia.
    + intros _ Hnf. destruct (decide (b = 0)) as [->|Hne]; [|apply Hbit0; (done || lia)].
      exfalso. apply Hnf. assert (dc = 0) as -> by (simpl in Hdc; lia).
      destruct Hm as [_ Hm]. rewrite !Z.lor_0_r in *. subst. done.
    + intros Hnone. exfalso. apply (Hnone m); [by destruct Hm|done].
Qed.

(** The loop over [iBitTest] grows the seed into an implicant. *)
Lemma expand_spec seed :
  0 <= seed < 2 ^ n → rd truthTable seed = Some LOGIC_TRUE →
  ∃ tdc,
    for_range (Z.to_nat n) 0 (test_bit W fuel truthTable) (seed, 0) = Some tdc ∧
    expand_inv n truthTable seed n tdc.
Proof.
  intros Hseed Htrue.
  destruct (for_range_inv (expand_inv n truthTable seed) (test_bit W fuel truthTable)
              (Z.to_nat n) 0 (seed, 0)) as (tdc & Hrun & Hinv).
  - unfold expand_inv. cbn [fst snd]. split_and!; try done; try lia.
    intros m [_ Hm]. rewrite !Z.lor_0_r in Hm. subst m. by rewrite Htrue.
  - intros j s Hj Hinv. apply expand_step; [lia|done].
  - exists tdc. split; [done|]. by rewrite Z.add_0_l, Z2Nat.id in Hinv by lia.
Qed.

End Expand.

(** ** Term buffers and counting *)

Lemma length_term_list (k : nat) ts ds :
  (k <= length ts)%nat → (k <= length ds)%nat → length (term_list (Z.of_nat k) ts ds) = k.
Proof.
  intros Hts Hds. unfold term_list. rewrite Nat2Z.id, length_zip_with, !length_take. lia.
Qed.

Lemma term_list_snoc (k : nat) ts ds t dc :
  (k < length ts)%nat → (k < length ds)%nat →
  term_list (Z.of_nat k + 1) (<[k := t]> ts) (<[k := dc]> ds) =
  term_list (Z.of_nat k) ts ds ++ [(t, dc)].
Proof.
  intros Hts Hds. unfold term_list.
  replace (Z.to_nat (Z.of_nat k + 1)) with (Datatypes.S k) by lia. rewrite Nat2Z.id.
  rewrite (take_S_r _ _ t), (take_S_r _ _ dc) by (by apply list_lookup_insert_eq).
  rewrite !take_insert_ge by lia.
  rewrite zip_with_app; [done|]. rewrite !length_take. lia.
Qed.

Lemma term_list_take (k : nat) ts ds :
  term_list (Z.of_nat k) (take k ts) (take k ds) = term_list (Z.of_nat k) ts ds.
Proof. unfold term_list. rewrite Nat2Z.id, !take_take, !Nat.min_id. done. Qed.

Lemma true_count_nonneg l : 0 <= true_count l.
Proof. unfold true_count. lia. Qed.

Lemma true_count_app l1 l2 : true_count (l1 ++ l2) = true_count l1 + true_count l2.
Proof. unfold true_count. rewrite filter_app, length_app. lia. Qed.

Lemma true_count_le_length l : true_count l <= Z.of_nat (length l).
Proof. unfold true_count. pose proof (length_filter (λ v, v = LOGIC_TRUE) l). lia. Qed.

Lemma true_count_take_S l (i : nat) v :
  l !! i = Some v →
  true_count (take (Datatypes.S i) l) =
  true_count (take i l) + (if decide (v = LOGIC_TRUE) then 1 else 0).
Proof.
  intros Hv. rewrite (take_S_r _ _ v), true_count_app by done. f_equal.
  unfold true_count. case_decide.
  - by rewrite filter_cons_True.
  - by rewrite filter_cons_False.
Qed.

Lemma true_count_take_le l (i : nat) : true_count (take i l) <= true_count l.
Proof.
  rewrite <- (take_drop i l) at 2. rewrite true_count_app.
  pose proof (true_count_nonneg (drop i l)). lia.
Qed.

Lemma covered_app n l1 l2 m : covered n (l1 ++ l2) m ↔ covered n l1 m ∨ covered n l2 m.
Proof.
  unfold covered. split.
  - intros (td & [H|H]%elem_of_app & Hc); [left|right]; by exists td.
  - intros [(td & H & Hc)|(td & H & Hc)]; exists td; (split; [apply elem_of_app|done]); auto.
Qed.

Lemma covered_singleton n t dc m : covered n [(t, dc)] m ↔ covers n t dc m.
Proof.
  unfold covered. split.
  - by intros (td & ->%list_elem_of_singleton & Hc).
  - intros Hc. exists (t, dc). split; [by apply list_elem_of_singleton|done].
Qed.

Lemma lxor_1_even (i : Z) : 0 <= i → Z.odd i = false → Z.lxor i 1 = i + 1.
Proof.
  intros Hi Hodd. rewrite <- Z.add_nocarry_lxor; [done|].
  apply Z.bits_inj'. intros j Hj. rewrite Z.land_spec, Z.bits_0.
  destruct (decide (j = 0)) as [->|Hne].
  - by rewrite Z.bit0_odd, Hodd.
  - change 1 with (2 ^ 0). rewrite testbit_pow2, bool_decide_eq_false_2, andb_false_r by lia.
    done.
Qed.

Lemma covers_bit0 n t dc i :
  0 <= i → 0 <= i + 1 < 2 ^ n → Z.odd i = false → Z.testbit dc 0 = true →
  covers n t dc i → covers n t dc (i + 1).
Proof.
  intros Hi Hi1 Hodd Hdc [_ Heq]. split; [done|]. rewrite <- Heq.
  rewrite <- lxor_1_even by done.
  apply Z.bits_inj'. intros j Hj. rewrite !Z.lor_spec, Z.lxor_spec.
  destruct (decide (j = 0)) as [->|Hne]; [by rewrite Hdc, !orb_true_r|].
  change 1 with (2 ^ 0). rewrite testbit_pow2, bool_decide_eq_false_2, xorb_false_r by lia.
  done.
Qed.

Lemma pow2_half (n : Z) : 1 <= n → 2 ^ n / 2 = 2 ^ (n - 1).
Proof.
  intros Hn. replace n with (n - 1 + 1) at 1 by lia. rewrite Z.pow_add_r by lia.
  change (2 ^ 1) with 2. rewrite Z.div_mul by lia. done.
Qed.

Lemma pow2_double (n : Z) : 1 <= n → 2 ^ n = 2 * 2 ^ (n - 1).
Proof.
  intros Hn. replace n with (n - 1 + 1) at 1 by lia. rewrite Z.pow_add_r by lia. lia.
Qed.

Section Estimate.
Context (W : Z) (HW : 0 < W).
Context (n : Z) (Hn : 1 <= n < W).
Context (truthTable : list triLogic) (Htt : Z.of_nat (length truthTable) = 2 ^ n).

Lemma EstimateMaxNumOfMinterms_spec :
  EstimateMaxNumOfMinterms W n truthTable =
  Some (Z.min (2 ^ (n - 1)) (true_count truthTable)).
Proof.
  pose proof (pow2_lt n W ltac:(lia)) as HnW.
  assert (0 < 2 ^ n) as Hpos by (apply Z.pow_pos_nonneg; lia).
  unfold EstimateMaxNumOfMinterms. rewrite shl1_small by lia. rewrite pow2_half by lia.
  destruct (for_range_inv
              (λ j c, c = true_count (take (Z.to_nat j) truthTable))
              (count_true W truthTable) (Z.to_nat (2 ^ n)) 0 0) as (c & -> & Hc).
  - done.
  - intros j c Hj ->.
    destruct (rd_is_Some truthTable j) as [v Hv]; [lia|].
    unfold count_true. rewrite Hv. simpl. eexists. split; [done|].
    apply rd_Some in Hv as [_ Hv].
    replace (Z.to_nat (j + 1)) with (Datatypes.S (Z.to_nat j)) by lia.
    rewrite (true_count_take_S _ _ v) by done.
    case_decide; [|lia]. apply wrap_small.
    pose proof (true_count_nonneg (take (Z.to_nat j) truthTable)).
    pose proof (true_count_le_length (take (Z.to_nat j) truthTable)) as Hle.
    rewrite length_take in Hle. lia.
  - simpl. rewrite Hc. rewrite Z.add_0_l, Z2Nat.id, take_ge by lia. done.
Qed.

End Estimate.

(** ** The expansion loop of ReduceLogic *)

Section Reduce.
Context (W : Z) (HW : 0 < W).
Context (n : Z) (Hn : 1 <= n < W).
Context (truthTable : list triLogic) (Htt : Z.of_nat (length truthTable) = 2 ^ n).
Context (fuel : nat) (Hfuel : 2 ^ n <= Z.of_nat fuel).

Lemma reduce_inv_skip i rs v :
  0 <= i < 2 ^ n → rd truthTable i = Some v →
  (v = LOGIC_TRUE → ∃ r, rd (rs_resolved rs) i = Some r ∧ r ≠ LOGIC_FALSE) →
  reduce_inv n truthTable i rs → reduce_inv n truthTable (i + 1) rs.
Proof.
  intros Hi Hv Hres
    (k & Hnum & Hlt & Hld & Hlr & Hcap & Hok & Hmark & Hcov & Htrue & Hcnt & Hhalf & Hodd & Hfull).
  exists k. split_and!; try done.
  - intros m Hm Hmt. destruct (decide (m = i)) as [->|Hne]; [|apply Htrue; (done || lia)].
    destruct Hres as (r & Hr & Hrf); [congruence|]. by eapply Hmark.
  - apply rd_Some in Hv as [_ Hv].
    replace (Z.to_nat (i + 1)) with (Datatypes.S (Z.to_nat i)) by lia.
    rewrite (true_count_take_S _ _ v) by done. case_decide; lia.
  - lia.
  - intros _ Heq. lia.
Qed.

Lemma reduce_inv_seed i rs :
  0 <= i < 2 ^ n → rd truthTable i = Some LOGIC_TRUE →
  rd (rs_resolved rs) i = Some LOGIC_FALSE →
  reduce_inv n truthTable i rs →
  ∃ k : nat, rs_numTerms rs = Z.of_nat k ∧ 2 * Z.of_nat k <= i ∧ Z.of_nat k < (capacity n truthTable).
Proof.
  intros Hi Hv Hr
    (k & Hnum & Hlt & Hld & Hlr & Hcap & Hok & Hmark & Hcov & Htrue & Hcnt & Hhalf & Hodd & Hfull).
  exists k. split; [done|].
  assert (2 * Z.of_nat k <= i) as Hhalf2.
  { pose proof (half_parity i) as Hpar. destruct (Z.odd i) eqn:Hoddi; [|lia].
    destruct (decide (2 * Z.of_nat k = i + 1)) as [Heq|]; [|lia].
    specialize (Hcov i (Hodd eq_refl Heq Hv)). congruence. }
  split; [done|]. unfold capacity. apply Z.min_glb_lt.
  - pose proof (pow2_double n ltac:(lia)). pose proof (half_parity i). destruct (Z.odd i); lia.
  - apply rd_Some in Hv as [_ Hv].
    pose proof (true_count_take_S _ _ _ Hv) as Hs. rewrite decide_True in Hs by done.
    pose proof (true_count_take_le truthTable (Datatypes.S (Z.to_nat i))). lia.
Qed.

Lemma reduce_step_spec i rs :
  0 <= i < 2 ^ n → reduce_inv n truthTable i rs →
  ∃ rs', reduce_step W fuel n truthTable i rs = Some rs' ∧ reduce_inv n truthTable (i + 1) rs'.
Proof.
  intros Hi Hinv.
  pose proof (pow2_lt n W ltac:(lia)) as HnW.
  destruct (rd_is_Some truthTable i) as [v Hv]; [lia|].
  destruct (rd_is_Some (rs_resolved rs) i) as [r Hr].
  { destruct Hinv as (k & _ & _ & _ & Hlr & _). lia. }
  unfold reduce_step. rewrite Hv. simpl.
  destruct (decide (v = LOGIC_TRUE)) as [->|Hv']; simpl.
  2:{ exists rs. split; [done|]. eapply reduce_inv_skip; [done..| |done]. done. }
  rewrite Hr. simpl. case_bool_decide as Hrf; simpl.
  2:{ exists rs. split; [done|]. eapply reduce_inv_skip; [done..| |done].
      intros _. by exists r. }
  subst r.
  destruct (reduce_inv_seed i rs Hi Hv Hr Hinv) as (k & Hnum & Hhalf2 & Hcapk).
  destruct Hinv
    as (k' & Hnum' & Hlt & Hld & Hlr & Hcap & Hok & Hmark & Hcov & Htrue & Hcnt & Hhalf & Hodd & Hfull).
  assert (k' = k) as -> by lia. clear Hnum'.
  rewrite Hnum. rewrite !wr_Some by lia. simpl. rewrite Nat2Z.id.
  destruct (expand_spec W HW n Hn truthTable Htt fuel Hfuel i Hi Hv) as ([t dc] & -> & Hexp).
  destruct Hexp as (Hdc & Ht & Heq & Himp & Hbit0 & Hfulldc). cbn [fst snd] in *. simpl.
  rewrite land_lnotw by lia.
  pose proof (ldiff_range t dc n ltac:(lia) Ht) as Hbase.
  pose proof (while_cycle_visits W HW mark_visit (Z.to_nat n) dc (Z.ldiff t dc) fuel
                (rs_resolved rs)) as Hcyc.
  rewrite Z2Nat.id in Hcyc by lia. rewrite Hcyc; clear Hcyc; [|lia|lia|apply ldiff_disjoint|].
  2:{ pose proof (pow2_popcount_le (Z.to_nat n) n dc). lia. }
  assert (∀ m, m ∈ visited (Z.to_nat n) dc (Z.ldiff t dc) ↔ covers n i dc m) as Hvis.
  { intros m. rewrite (elem_of_visited_covers _ n); [|lia| |done].
    - by apply covers_equiv.
    - by rewrite Z2Nat.id by lia. }
  destruct (run_mark (Z.ldiff t dc) (visited (Z.to_nat n) dc (Z.ldiff t dc)) (rs_resolved rs))
    as (res' & -> & Hlen' & Hset & Hkeep).
  { intros m Hm%Hvis. rewrite Hlr. by destruct Hm. }
  simpl. rewrite !wr_Some by (rewrite length_insert; lia). simpl.
  rewrite Nat2Z.id, !list_insert_insert_eq.
  eexists. split; [done|].
  assert (live_terms (Datatypes.S k)
            (mk_rs (wrap W (Z.of_nat k + 1)) (<[k := Z.ldiff t dc]> (rs_terms rs))
               (<[k := dc]> (rs_dontCares rs)) res') =
          live_terms k rs ++ [(Z.ldiff t dc, dc)]) as Hlive.
  { unfold live_terms. simpl. rewrite <- term_list_snoc by lia. f_equal. lia. }
  assert (∀ m, covers n (Z.ldiff t dc) dc m ↔ covers n i dc m) as Hnew.
  { intros m. apply covers_equiv. by rewrite lor_ldiff. }
  exists (Datatypes.S k). rewrite Hlive. simpl.
  split_and!.
  - unfold capacity in Hcapk. pose proof (pow2_double n ltac:(lia)).
    rewrite wrap_small by lia. lia.
  - by rewrite length_insert.
  - by rewrite length_insert.
  - lia.
  - lia.
  - apply Forall_app. split; [done|]. apply Forall_singleton.
    unfold term_ok. cbn [fst snd]. split_and!; [lia..|apply ldiff_disjoint|].
    intros m Hm%Hnew. by apply Himp.
  - intros m v Hrd Hvf. apply covered_app.
    destruct (decide (m ∈ visited (Z.to_nat n) dc (Z.ldiff t dc))) as [Hin|Hnot].
    + right. apply covered_singleton, Hnew, Hvis, Hin.
    + left. rewrite Hkeep in Hrd by done. by eapply Hmark.
  - intros m [Hc|Hc%covered_singleton]%covered_app.
    + destruct (decide (m ∈ visited (Z.to_nat n) dc (Z.ldiff t dc))) as [Hin|Hnot].
      * by apply Hset.
      * rewrite Hkeep by done. by apply Hcov.
    + apply Hset, Hvis, Hnew, Hc.
  - intros m Hm Hmt. apply covered_app.
    destruct (decide (m = i)) as [->|Hne]; [right|left; apply Htrue; (done || lia)].
    apply covered_singleton, Hnew, covers_self. lia.
  - apply rd_Some in Hv as [_ Hv].
    replace (Z.to_nat (i + 1)) with (Datatypes.S (Z.to_nat i)) by lia.
    rewrite (true_count_take_S _ _ LOGIC_TRUE) by done. rewrite decide_True by done. lia.
  - lia.
  - intros Hoddi Heqk Hnext. apply covered_app. right.
    apply covered_singleton, Hnew.
    assert (Z.odd i = false) as Hev.
    { rewrite Z.odd_add in Hoddi. simpl in Hoddi. by destruct (Z.odd i). }
    apply rd_lt in Hnext as Hi1. rewrite Htt in Hi1.
    apply covers_bit0; [lia|lia|done| |apply covers_self; lia].
    apply Hbit0; [lia|]. rewrite lxor_1_even by (done || lia). congruence.
  - intros Hnone. destruct (Hfull Hnone) as [Hk1 Hall].
    destruct k as [|k].
    + split; [lia|]. apply Forall_app. split; [done|].
      apply Forall_singleton. cbn [snd]. by apply Hfulldc.
    + exfalso. assert (k = 0)%nat as -> by lia.
      destruct (live_terms 1 rs) as [|[t0 dc0] l] eqn:El.
      { pose proof (length_term_list 1 (rs_terms rs) (rs_dontCares rs)) as Hl1.
        unfold live_terms in El. rewrite El in Hl1. simpl in Hl1.
        assert (1 <= length (rs_terms rs))%nat by lia.
        assert (1 <= length (rs_dontCares rs))%nat by lia. lia. }
      apply Forall_cons in Hall as [Hdc0 _]. apply Forall_cons in Hok as [Hok0 _].
      cbn [snd] in Hdc0. subst dc0.
      assert (covered n ((t0, 2 ^ n - 1) :: l) i) as Hci.
      { exists (t0, 2 ^ n - 1). split; [left|]. cbn [fst snd]. split; [done|].
        destruct Hok0 as (Ht0 & _). cbn [fst] in Ht0.
        rewrite !lor_ones_full by lia. done. }
      apply Hcov in Hci. congruence.
Qed.

(** The loop over [iInput], from freshly allocated buffers. *)
Lemma reduce_loop_spec :
  ∃ rs,
    for_range (Z.to_nat (2 ^ n)) 0 (reduce_step W fuel n truthTable)
      (mk_rs 0 (replicate (Z.to_nat (capacity n truthTable)) 0) (replicate (Z.to_nat (capacity n truthTable)) 0)
         (replicate (Z.to_nat (2 ^ n)) LOGIC_FALSE)) = Some rs ∧
    reduce_inv n truthTable (2 ^ n) rs.
Proof.
  assert (0 < 2 ^ n) as Hpos by (apply Z.pow_pos_nonneg; lia).
  assert (0 <= (capacity n truthTable)) as Hcap.
  { unfold capacity. pose proof (true_count_nonneg truthTable).
    pose proof (Z.pow_pos_nonneg 2 (n - 1)). lia. }
  destruct (for_range_inv (reduce_inv n truthTable) (reduce_step W fuel n truthTable) (Z.to_nat (2 ^ n)) 0
              (mk_rs 0 (replicate (Z.to_nat (capacity n truthTable)) 0) (replicate (Z.to_nat (capacity n truthTable)) 0)
                 (replicate (Z.to_nat (2 ^ n)) LOGIC_FALSE))) as (rs & Hrun & Hinv).
  - exists 0%nat. unfold live_terms, term_list. simpl.
    rewrite !length_replicate.
    split_and!; try done; try lia.
    + intros m v Hrd Hvf. apply rd_lt in Hrd as Hm. rewrite length_replicate in Hm.
      rewrite rd_replicate in Hrd by lia. congruence.
    + intros m (td & Htd & _). by apply elem_of_nil in Htd.
    + intros _. split; [lia|done].
  - intros j rs Hj Hinv. apply reduce_step_spec; [lia|done].
  - exists rs. split; [done|]. by rewrite Z.add_0_l, Z2Nat.id in Hinv by lia.
Qed.

End Reduce.

(** ** Reference counts *)

Lemma cover_count_nil n m : cover_count n [] m = 0.
Proof. done. Qed.

Lemma cover_count_app n l1 l2 m :
  cover_count n (l1 ++ l2) m = cover_count n l1 m + cover_count n l2 m.
Proof. unfold cover_count. rewrite filter_app, length_app. lia. Qed.

Lemma cover_count_cons n t dc l m :
  cover_count n ((t, dc) :: l) m =
  (if decide (covers n t dc m) then 1 else 0) + cover_count n l m.
Proof.
  unfold cover_count. destruct (decide (covers n t dc m)).
  - rewrite filter_cons_True by done. simpl. lia.
  - rewrite filter_cons_False by done. lia.
Qed.

Lemma cover_count_singleton n t dc m :
  cover_count n [(t, dc)] m = if decide (covers n t dc m) then 1 else 0.
Proof. rewrite cover_count_cons, cover_count_nil. lia. Qed.

Lemma cover_count_nonneg n l m : 0 <= cover_count n l m.
Proof. unfold cover_count. lia. Qed.

Lemma cover_count_le_length n l m : cover_count n l m <= Z.of_nat (length l).
Proof.
  unfold cover_count. pose proof (length_filter (λ td, covers n td.1 td.2 m) l). lia.
Qed.

Lemma covered_cons n t dc l m : covered n ((t, dc) :: l) m ↔ covers n t dc m ∨ covered n l m.
Proof.
  change ((t, dc) :: l) with ([(t, dc)] ++ l). by rewrite covered_app, covered_singleton.
Qed.

Lemma covered_nil n m : ¬ covered n [] m.
Proof. intros (td & Htd & _). by apply elem_of_nil in Htd. Qed.

Lemma covered_count n l m : covered n l m ↔ 0 < cover_count n l m.
Proof.
  induction l as [|[t dc] l IH].
  - rewrite cover_count_nil. split; [by intros ?%covered_nil|lia].
  - rewrite covered_cons, cover_count_cons, IH.
    pose proof (cover_count_nonneg n l m). case_decide; split; try lia; tauto.
Qed.

(** Two entries that cover a minterm counted once are the same entry. *)
Lemma cover_count_unique n l m p q tdp tdq :
  cover_count n l m = 1 →
  l !! p = Some tdp → covers n tdp.1 tdp.2 m →
  l !! q = Some tdq → covers n tdq.1 tdq.2 m →
  p = q.
Proof.
  revert p q. induction l as [|[t dc] l IH]; intros p q Hcnt Hp Hcp Hq Hcq; [done|].
  rewrite cover_count_cons in Hcnt. pose proof (cover_count_nonneg n l m) as Hnn.
  destruct p as [|p], q as [|q]; simpl in *; simplify_eq; try done.
  - rewrite decide_True in Hcnt by done.
    assert (covered n l m) as Hc%covered_count by (exists tdq; split;
      [by eapply list_elem_of_lookup_2|done]). lia.
  - rewrite decide_True in Hcnt by done.
    assert (covered n l m) as Hc%covered_count by (exists tdp; split;
      [by eapply list_elem_of_lookup_2|done]). lia.
  - f_equal. apply IH; try done. case_decide; [|lia].
    assert (covered n l m) as Hc%covered_count by (exists tdp; split;
      [by eapply list_elem_of_lookup_2|done]). lia.
Qed.

Section RefCount.
Context (W : Z) (HW : 0 < W).

Lemma run_ref base : ∀ L refCntTable,
  NoDup L →
  (∀ m, m ∈ L → ∃ c, rd refCntTable m = Some c ∧ 0 <= c ∧ c + 1 < 2 ^ W) →
  ∃ refCntTable',
    run_visits (ref_visit W) base L (Some refCntTable) =
      Some (Wrapped base (Some refCntTable')) ∧
    length refCntTable' = length refCntTable ∧
    (∀ m c, m ∈ L → rd refCntTable m = Some c → rd refCntTable' m = Some (c + 1)) ∧
    (∀ m, m ∉ L → rd refCntTable' m = rd refCntTable m).
Proof.
  induction L as [|m L IH]; intros rc Hnd Hin.
  - exists rc. split_and!; [done..| |done]. intros m c Hm. by apply elem_of_nil in Hm.
  - apply NoDup_cons in Hnd as [Hm Hnd].
    destruct (Hin m) as (c & Hc & Hc0 & Hc1); [left|].
    pose proof (rd_lt _ _ _ Hc) as Hlt.
    assert (ref_visit W m (Some rc) = Some (Continue (Some (<[Z.to_nat m := c + 1]> rc))))
      as Hvis.
    { unfold ref_visit, rdp, wrp. simpl. rewrite Hc. simpl.
      rewrite wr_Some by done. simpl. by rewrite wrap_small by lia. }
    rewrite run_visits_cons, Hvis. simpl.
    destruct (IH (<[Z.to_nat m := c + 1]> rc)) as (rc' & -> & Hlen & Hset & Hkeep); [done| |].
    { intros m' Hm'. destruct (Hin m') as (c' & Hc' & ?); [by right|].
      exists c'. split; [|done]. rewrite rd_insert by (eapply rd_lt in Hc'; lia).
      rewrite decide_False; [done|]. intros ->. done. }
    exists rc'. rewrite length_insert in Hlen. split_and!; [done..| |].
    + intros m' c' [->|Hm']%elem_of_cons Hc'.
      * rewrite Hkeep by done. rewrite rd_insert, decide_True by (done || lia). congruence.
      * apply Hset; [done|]. rewrite rd_insert by (eapply rd_lt in Hc'; lia).
        rewrite decide_False; [done|]. intros ->. done.
    + intros m' [Hne Hnot]%not_elem_of_cons. rewrite Hkeep by done.
      destruct (decide (0 <= m')) as [Hm0|Hm0].
      * rewrite rd_insert by lia. by rewrite decide_False.
      * unfold rd. by rewrite !decide_False.
Qed.

Lemma run_deref base : ∀ L refCntTable,
  NoDup L →
  (∀ m, m ∈ L → ∃ c, rd refCntTable m = Some c ∧ 1 <= c < 2 ^ W) →
  ∃ refCntTable',
    run_visits (deref_visit W) base L (Some refCntTable) =
      Some (Wrapped base (Some refCntTable')) ∧
    length refCntTable' = length refCntTable ∧
    (∀ m c, m ∈ L → rd refCntTable m = Some c → rd refCntTable' m = Some (c - 1)) ∧
    (∀ m, m ∉ L → rd refCntTable' m = rd refCntTable m).
Proof.
  induction L as [|m L IH]; intros rc Hnd Hin.
  - exists rc. split_and!; [done..| |done]. intros m c Hm. by apply elem_of_nil in Hm.
  - apply NoDup_cons in Hnd as [Hm Hnd].
    destruct (Hin m) as (c & Hc & Hc1); [left|].
    pose proof (rd_lt _ _ _ Hc) as Hlt.
    assert (deref_visit W m (Some rc) = Some (Continue (Some (<[Z.to_nat m := c - 1]> rc))))
      as Hvis.
    { unfold deref_visit, rdp, wrp. simpl. rewrite Hc. simpl.
      rewrite wr_Some by done. simpl. by rewrite wrap_small by lia. }
    rewrite run_visits_cons, Hvis. simpl.
    destruct (IH (<[Z.to_nat m := c - 1]> rc)) as (rc' & -> & Hlen & Hset & Hkeep); [done| |].
    { intros m' Hm'. destruct (Hin m') as (c' & Hc' & ?); [by right|].
      exists c'. split; [|done]. rewrite rd_insert by (eapply rd_lt in Hc'; lia).
      rewrite decide_False; [done|]. intros ->. done. }
    exists rc'. rewrite length_insert in Hlen. split_and!; [done..| |].
    + intros m' c' [->|Hm']%elem_of_cons Hc'.
      * rewrite Hkeep by done. rewrite rd_insert, decide_True by (done || lia). congruence.
      * apply Hset; [done|]. rewrite rd_insert by (eapply rd_lt in Hc'; lia).
        rewrite decide_False; [done|]. intros ->. done.
    + intros m' [Hne Hnot]%not_elem_of_cons. rewrite Hkeep by done.
      destruct (decide (0 <= m')) as [Hm0|Hm0].
      * rewrite rd_insert by lia. by rewrite decide_False.
      * unfold rd. by rewrite !decide_False.
Qed.

End RefCount.

Lemma run_prime base refCntTable : ∀ L,
  (∀ m, m ∈ L → 0 <= m < Z.of_nat (length refCntTable)) →
  (∃ m, run_visits prime_visit base L (Some refCntTable) = Some (Broke m (Some refCntTable)) ∧
        m ∈ L ∧ rd refCntTable m = Some 1) ∨
  (run_visits prime_visit base L (Some refCntTable) = Some (Wrapped base (Some refCntTable)) ∧
   ∀ m, m ∈ L → rd refCntTable m ≠ Some 1).
Proof.
  induction L as [|m L IH]; intros Hin.
  - right. split; [done|]. intros m Hm. by apply elem_of_nil in Hm.
  - destruct (rd_is_Some refCntTable m) as [c Hc]; [apply Hin; left|].
    assert (prime_visit m (Some refCntTable) =
            Some (if c =? 1 then Break (Some refCntTable) else Continue (Some refCntTable)))
      as Hvis.
    { unfold prime_visit, rdp. simpl. by rewrite Hc. }
    rewrite run_visits_cons, Hvis. simpl.
    destruct (Z.eqb_spec c 1) as [->|Hne].
    + left. exists m. split_and!; [done|left|done].
    + destruct IH as [(m' & Hrun & Hm' & Hone)|[Hrun Hall]].
      { intros m' Hm'. apply Hin. by right. }
      * left. exists m'. split_and!; [done|by right|done].
      * right. split; [done|]. intros m' [->|Hm']%elem_of_cons; [congruence|by apply Hall].
Qed.

(** ** The filter on lists of terms *)

Lemma cover_count_keep n K rest t dc m x :
  covers n t dc m →
  cover_count n ((K ++ [(m, dc)]) ++ rest) x = cover_count n (K ++ (t, dc) :: rest) x.
Proof.
  intros [_ Hm]. rewrite !cover_count_app, cover_count_singleton, cover_count_cons.
  assert (covers n m dc x ↔ covers n t dc x) as Heq by (by apply covers_equiv).
  destruct (decide (covers n m dc x)), (decide (covers n t dc x)); try lia; tauto.
Qed.

Lemma cover_count_drop n K rest t dc x :
  cover_count n (K ++ rest) x =
  cover_count n (K ++ (t, dc) :: rest) x - (if decide (covers n t dc x) then 1 else 0).
Proof. rewrite !cover_count_app, cover_count_cons. lia. Qed.

Lemma live_inv_init n live : live_inv n live [] live.
Proof. split_and!; [done| |done]. by intros m Hm. Qed.

Lemma live_inv_keep n live K rest t dc m :
  live_inv n live K ((t, dc) :: rest) → (t, dc) ∈ live →
  covers n t dc m → cover_count n (K ++ (t, dc) :: rest) m = 1 →
  live_inv n live (K ++ [(m, dc)]) rest.
Proof.
  intros (Hst & Hcov & Hsole) Hin Hm Hone. split_and!.
  - apply Forall_app. split; [done|]. apply Forall_singleton.
    split; [by destruct Hm|]. exists (t, dc). split_and!; [done..|]. by destruct Hm.
  - intros x Hx%Hcov. apply covered_count. rewrite (cover_count_keep _ _ _ t) by done.
    by apply covered_count.
  - apply Forall_app. split.
    + eapply Forall_impl; [done|]. intros td (x & Hx & Hx1). exists x.
      by rewrite (cover_count_keep _ _ _ t).
    + apply Forall_singleton. exists m. cbn [fst snd]. split.
      * apply covers_self. by destruct Hm.
      * by rewrite (cover_count_keep _ _ _ t).
Qed.

Lemma live_inv_drop n live K rest t dc :
  live_inv n live K ((t, dc) :: rest) →
  (∀ m, covers n t dc m → cover_count n (K ++ (t, dc) :: rest) m ≠ 1) →
  live_inv n live K rest.
Proof.
  intros (Hst & Hcov & Hsole) Hmany. split_and!; [done| |].
  - intros x Hx%Hcov%covered_count. apply covered_count.
    rewrite (cover_count_drop _ _ _ t dc). case_decide as Hc; [|lia].
    specialize (Hmany x Hc). lia.
  - eapply Forall_impl; [done|]. intros [t' dc'] (x & Hx & Hx1). exists x. split; [done|].
    rewrite (cover_count_drop _ _ _ t dc). case_decide as Hc; [|lia].
    by specialize (Hmany x Hc).
Qed.

(** At the end every kept term is the only one to cover some
    minterm, and nothing the initial terms covered is lost. *)
Lemma live_inv_final n live K :
  live_inv n live K [] →
  Forall (stands_for n live) K ∧
  (∀ m, covered n live m → covered n K m) ∧
  Forall (sole_cover n K) K.
Proof. unfold live_inv. by rewrite app_nil_r. Qed.

(** ** RemoveNonprimeImplicants on the buffers *)

Section Filter.
Context (W : Z) (HW : 0 < W).
Context (n : Z) (Hn : 1 <= n < W).
Context (fuel : nat) (Hfuel : 2 ^ n <= Z.of_nat fuel).

(** A cycling loop started on a well-formed term. *)
Lemma cycle_term {St} (visit : Z → St → option (ctl St)) t dc s :
  term_wf n (t, dc) →
  while_cycle W fuel n dc visit (Z.land t (lnotw W dc)) s =
    run_visits visit t (visited (Z.to_nat n) dc t) s ∧
  (∀ m, m ∈ visited (Z.to_nat n) dc t ↔ covers n t dc m) ∧
  NoDup (visited (Z.to_nat n) dc t).
Proof.
  intros (Ht & Hdc & Hdisj). cbn [fst snd] in *.
  pose proof (pow2_lt n W ltac:(lia)) as HnW.
  rewrite land_lnotw, ldiff_id by (done || lia).
  pose proof (while_cycle_visits W HW visit (Z.to_nat n) dc t fuel s) as Hcyc.
  rewrite Z2Nat.id in Hcyc by lia. split_and!.
  - apply Hcyc; [lia|lia|done|]. pose proof (pow2_popcount_le (Z.to_nat n) n dc). lia.
  - intros m. rewrite <- (ldiff_id t dc) at 1 by done.
    apply elem_of_visited_covers; [lia| |done]. by rewrite Z2Nat.id by lia.
  - apply NoDup_visited; [|done]. by rewrite Z2Nat.id by lia.
Qed.

Context (ts0 ds0 : list Z) (k : nat).
Context (Hlt : length ts0 = k) (Hld : length ds0 = k).
Context (Hwf : Forall (term_wf n) (zip ts0 ds0)) (Hk : Z.of_nat k <= 2 ^ n).

Lemma lookup_live (i : nat) :
  (i < k)%nat →
  ∃ t dc, ts0 !! i = Some t ∧ ds0 !! i = Some dc ∧
          zip ts0 ds0 !! i = Some (t, dc) ∧ term_wf n (t, dc).
Proof.
  intros Hi.
  destruct (lookup_lt_is_Some_2 ts0 i) as [t Ht]; [lia|].
  destruct (lookup_lt_is_Some_2 ds0 i) as [dc Hdc]; [lia|].
  assert (zip ts0 ds0 !! i = Some (t, dc)) as Hz.
  { rewrite lookup_zip_with, Ht, Hdc. done. }
  exists t, dc. split_and!; [done..|]. by eapply Forall_lookup_1.
Qed.

Lemma count_term_spec i fs :
  0 <= i < Z.of_nat k → count_inv n ts0 ds0 k i fs →
  ∃ fs', count_term W fuel n i fs = Some fs' ∧ count_inv n ts0 ds0 k (i + 1) fs'.
Proof.
  intros Hi (rc & -> & Hlen & Hrc).
  pose proof (pow2_lt n W ltac:(lia)) as HnW.
  destruct (lookup_live (Z.to_nat i)) as (t & dc & Ht & Hdc & Hz & Htd); [lia|].
  destruct (cycle_term (ref_visit W) t dc (Some rc) Htd) as (Hcyc & Hvis & Hnd).
  assert (rd ts0 i = Some t) as Hrt by (apply rd_Some; split; [lia|done]).
  assert (rd ds0 i = Some dc) as Hrd by (apply rd_Some; split; [lia|done]).
  unfold count_term, rdp, wrp. simpl. rewrite Hrt, Hrd. simpl. rewrite Hcyc.
  destruct (run_ref W t (visited (Z.to_nat n) dc t) rc Hnd) as (rc' & -> & Hlen' & Hset & Hkeep).
  { intros m Hm%Hvis. exists (cover_count n (take (Z.to_nat i) (zip ts0 ds0)) m).
    split; [apply Hrc; by destruct Hm|].
    pose proof (cover_count_nonneg n (take (Z.to_nat i) (zip ts0 ds0)) m).
    pose proof (cover_count_le_length n (take (Z.to_nat i) (zip ts0 ds0)) m) as Hle.
    rewrite length_take in Hle. lia. }
  simpl. rewrite wr_Some by lia. simpl. rewrite list_insert_id by done.
  eexists. split; [done|]. exists rc'. split_and!; [done|lia|].
  intros m Hm.
  replace (Z.to_nat (i + 1)) with (Datatypes.S (Z.to_nat i)) by lia.
  rewrite (take_S_r _ _ (t, dc)) by done.
  rewrite cover_count_app, cover_count_singleton.
  destruct (decide (covers n t dc m)) as [Hc|Hc].
  - apply Hset; [by apply Hvis|by apply Hrc].
  - rewrite Hkeep by (by rewrite Hvis). rewrite Hrc by done. f_equal. lia.
Qed.

Lemma count_loop_spec :
  ∃ fs,
    for_range k 0 (count_term W fuel n)
      (mk_fs 0 (Z.of_nat k) (Some ts0) (Some ds0) (Some (replicate (Z.to_nat (2 ^ n)) 0)))
    = Some fs ∧ count_inv n ts0 ds0 k (Z.of_nat k) fs.
Proof.
  assert (0 < 2 ^ n) as Hpos by (apply Z.pow_pos_nonneg; lia).
  destruct (for_range_inv (count_inv n ts0 ds0 k) (count_term W fuel n) k 0
              (mk_fs 0 (Z.of_nat k) (Some ts0) (Some ds0)
                 (Some (replicate (Z.to_nat (2 ^ n)) 0)))) as (fs & Hrun & Hinv).
  - eexists. split_and!; [done| |].
    + rewrite length_replicate. lia.
    + intros m Hm. by rewrite rd_replicate.
  - intros j fs Hj Hinv. apply count_term_spec; [lia|done].
  - exists fs. by rewrite Z.add_0_l in Hinv.
Qed.

Lemma drop_S_eq {A} (l l' : list A) i :
  drop i l = drop i l' → drop (Datatypes.S i) l = drop (Datatypes.S i) l'.
Proof.
  intros Heq. replace (Datatypes.S i) with (i + 1)%nat by lia.
  by rewrite <- !drop_drop, Heq.
Qed.

Lemma lookup_drop_eq {A} (l l' : list A) i : drop i l = drop i l' → l !! i = l' !! i.
Proof.
  intros Heq. pose proof (f_equal (λ x, x !! 0%nat) Heq) as H0. simpl in H0.
  by rewrite !lookup_drop, Nat.add_0_r in H0.
Qed.

Lemma filter_term_spec i fs :
  0 <= i < Z.of_nat k → filter_inv n ts0 ds0 k i fs →
  ∃ fs', filter_term W fuel n i fs = Some fs' ∧ filter_inv n ts0 ds0 k (i + 1) fs'.
Proof.
  intros Hi (j & ts & ds & rc & -> & Hji & Hlts & Hlds & Hdt & Hdd & Hlen & Hrc & Hlive).
  pose proof (pow2_lt n W ltac:(lia)) as HnW.
  destruct (lookup_live (Z.to_nat i)) as (t & dc & Ht0 & Hdc0 & Hz & Htd); [lia|].
  assert (ts !! Z.to_nat i = Some t) as Ht by (by rewrite (lookup_drop_eq ts ts0)).
  assert (ds !! Z.to_nat i = Some dc) as Hdc by (by rewrite (lookup_drop_eq ds ds0)).
  assert (rd ts i = Some t) as Hrt by (apply rd_Some; split; [lia|done]).
  assert (rd ds i = Some dc) as Hrd by (apply rd_Some; split; [lia|done]).
  rewrite (drop_S _ _ _ Hz) in Hrc, Hlive.
  set (K := term_list (Z.of_nat j) ts ds) in *.
  set (rest := drop (Datatypes.S (Z.to_nat i)) (zip ts0 ds0)) in *.
  assert (length K = j) as HlK by (apply length_term_list; lia).
  assert (Z.of_nat (length rest) = Z.of_nat k - i - 1) as Hlrest.
  { unfold rest. rewrite length_drop, length_zip_with. lia. }
  destruct (cycle_term prime_visit t dc (Some rc) Htd) as (Hcyc & Hvis & Hnd).
  unfold filter_term, rdp, wrp. simpl. rewrite Hrt, !Hrd. simpl. rewrite Hcyc.
  destruct (run_prime t rc (visited (Z.to_nat n) dc t)) as [(m & -> & Hm & Hone)|[-> Hmany]].
  { intros m Hm%Hvis. rewrite Hlen. by destruct Hm. }
  - (* the term is kept *)
    apply Hvis in Hm. pose proof (covers_range _ _ _ _ Hm) as Hmr.
    rewrite Hrc in Hone by done. injection Hone as Hone.
    assert (∀ ts2, ts2 !! j = Some m → length ts2 = k → take j ts2 = take j ts →
              drop (Datatypes.S (Z.to_nat i)) ts2 = drop (Datatypes.S (Z.to_nat i)) ts0 →
              filter_inv n ts0 ds0 k (i + 1)
                (mk_fs (wrap W (Z.of_nat j + 1)) (Z.of_nat k - (i - Z.of_nat j))
                   (Some ts2) (Some (<[j := dc]> ds)) (Some rc))) as Hfinal.
    { intros ts2 Hts2 Hlts2 Htake Hdrop.
      assert (term_list (Z.of_nat (Datatypes.S j)) ts2 (<[j := dc]> ds) = K ++ [(m, dc)]) as HK.
      { rewrite <- (list_insert_id ts2 j m) by done.
        replace (Z.of_nat (Datatypes.S j)) with (Z.of_nat j + 1) by lia.
        rewrite term_list_snoc by lia. f_equal.
        unfold K, term_list. by rewrite Nat2Z.id, Htake. }
      exists (Datatypes.S j), ts2, (<[j := dc]> ds), rc.
      replace (Z.to_nat (i + 1)) with (Datatypes.S (Z.to_nat i)) by lia.
      rewrite HK. split_and!.
      + f_equal; [|lia]. rewrite wrap_small by lia. lia.
      + lia.
      + done.
      + by rewrite length_insert.
      + done.
      + rewrite drop_insert_lt by lia. by apply drop_S_eq.
      + done.
      + intros x Hx. rewrite Hrc by done. f_equal. symmetry. by apply cover_count_keep.
      + eapply live_inv_keep; [done| |done..]. by eapply list_elem_of_lookup_2. }
    simpl. rewrite (wr_Some ts i m) by lia. simpl.
    destruct (decide (i ≠ Z.of_nat j)) as [Hne|Heq].
    + rewrite rd_insert, decide_True by (done || lia). simpl.
      rewrite (wr_Some (<[Z.to_nat i := m]> ts)) by (rewrite length_insert; lia). simpl.
      rewrite (wr_Some ds) by lia. simpl. rewrite Nat2Z.id.
      eexists. split; [done|]. apply Hfinal.
      * apply list_lookup_insert_eq. rewrite length_insert. lia.
      * by rewrite !length_insert.
      * by rewrite !take_insert_ge by lia.
      * rewrite !drop_insert_lt by lia. by apply drop_S_eq.
    + apply dec_stable in Heq. assert (Z.to_nat i = j) as Hij by lia. simpl.
      eexists. split; [done|]. rewrite <- (list_insert_id ds j dc) at 1 by (by rewrite <- Hij).
      rewrite Hij. apply Hfinal.
      * apply list_lookup_insert_eq. lia.
      * by rewrite length_insert.
      * by rewrite take_insert_ge by lia.
      * rewrite <- Hij at 1. rewrite drop_insert_lt by lia. by apply drop_S_eq.
  - (* the term is dropped *)
    simpl. rewrite wr_Some by lia. simpl. rewrite list_insert_id by done.
    destruct (cycle_term (deref_visit W) t dc (Some rc) Htd) as (Hcyc' & _ & _).
    rewrite Hcyc'.
    destruct (run_deref W t (visited (Z.to_nat n) dc t) rc Hnd)
      as (rc' & -> & Hlen' & Hset & Hkeep).
    { intros m Hm. pose proof Hm as Hc%Hvis. pose proof (covers_range _ _ _ _ Hc) as Hmr.
      eexists. split; [by apply Hrc|].
      pose proof (cover_count_le_length n (K ++ (t, dc) :: rest) m) as Hle.
      rewrite length_app in Hle. simpl in Hle.
      assert (0 < cover_count n (K ++ (t, dc) :: rest) m).
      { apply covered_count, covered_app. right. apply covered_cons. by left. }
      lia. }
    simpl. rewrite wr_Some by lia. simpl. rewrite list_insert_id by done.
    eexists. split; [done|].
    exists j, ts, ds, rc'.
    replace (Z.to_nat (i + 1)) with (Datatypes.S (Z.to_nat i)) by lia.
    split_and!.
    + f_equal. rewrite wrap_small by lia. lia.
    + lia.
    + done.
    + done.
    + by apply drop_S_eq.
    + by apply drop_S_eq.
    + lia.
    + intros x Hx. rewrite (cover_count_drop _ _ _ t dc).
      destruct (decide (covers n t dc x)) as [Hc|Hc].
      * apply Hset; [by apply Hvis|by apply Hrc].
      * rewrite Hkeep by (by rewrite Hvis). rewrite Hrc by done. f_equal. cbv iota.
        by rewrite Z.sub_0_r.
    + eapply live_inv_drop; [done|]. intros x Hc Hx1.
      apply (Hmany x); [by apply Hvis|]. rewrite Hrc by (by destruct Hc). f_equal. exact Hx1.
Qed.

Lemma filter_loop_spec fs1 :
  count_inv n ts0 ds0 k (Z.of_nat k) fs1 →
  ∃ fs2, for_range k 0 (filter_term W fuel n) fs1 = Some fs2 ∧ filter_inv n ts0 ds0 k (Z.of_nat k) fs2.
Proof.
  intros (rc & -> & Hlen & Hrc).
  destruct (for_range_inv (filter_inv n ts0 ds0 k) (filter_term W fuel n) k 0
              (mk_fs 0 (Z.of_nat k) (Some ts0) (Some ds0) (Some rc))) as (fs & Hrun & Hinv).
  - exists 0%nat, ts0, ds0, rc. split_and!; try done.
    + f_equal. lia.
    + intros m Hm. rewrite Hrc by done. f_equal. f_equal.
      rewrite Nat2Z.id, take_ge by (rewrite length_zip_with; lia). done.
  - intros j fs Hj Hinv. apply filter_term_spec; [lia|done].
  - exists fs. by rewrite Z.add_0_l in Hinv.
Qed.

Lemma RemoveNonprimeImplicants_spec mem eqn :
  calloc_refCntTable mem = true →
  ∃ sop',
    RemoveNonprimeImplicants W fuel mem
      (mkSumOfProducts n (Z.of_nat k) (Some ts0) (Some ds0) eqn) = Some sop' ∧
    numVars sop' = n ∧ equation sop' = eqn ∧
    numTerms sop' = Z.of_nat (length (terms_of sop')) ∧
    live_inv n (zip ts0 ds0) (terms_of sop') [].
Proof.
  intros Hmem. unfold RemoveNonprimeImplicants. simpl.
  rewrite Hmem, shl1_small by lia. unfold alloc. rewrite Nat2Z.id.
  destruct count_loop_spec as (fs1 & -> & Hfs1). simpl.
  destruct (filter_loop_spec fs1 Hfs1) as (fs2 & -> & Hfs2). simpl.
  destruct Hfs2 as (j & ts & ds & rc & -> & Hji & Hlts & Hlds & _ & _ & _ & _ & Hlive).
  rewrite Nat2Z.id, drop_ge in Hlive by (rewrite length_zip_with; lia). simpl.
  assert (length (term_list (Z.of_nat j) ts ds) = j) as HlK by (apply length_term_list; lia).
  destruct (decide (Z.of_nat k - (Z.of_nat k - Z.of_nat j) ≠ Z.of_nat k)) as [Hne|Heq].
  - eexists. split; [done|]. unfold terms_of, realloc_shrink. simpl.
    replace (Z.of_nat k - (Z.of_nat k - Z.of_nat j)) with (Z.of_nat j) by lia.
    destruct (Z.eqb_spec (Z.of_nat j) 0) as [Hj0|Hj0]; simpl.
    + assert (j = 0)%nat as -> by lia. split_and!; try done.
    + rewrite Nat2Z.id, term_list_take. split_and!; try done. lia.
  - apply dec_stable in Heq. eexists. split; [done|]. unfold terms_of. simpl.
    replace (Z.of_nat k - (Z.of_nat k - Z.of_nat j)) with (Z.of_nat j) by lia.
    split_and!; try done. lia.
Qed.

End Filter.

Lemma RemoveNonprimeImplicants_zero W fuel mem n tsp dsp eqn :
  RemoveNonprimeImplicants W fuel mem (mkSumOfProducts n 0 tsp dsp eqn) =
  Some (mkSumOfProducts n 0 tsp dsp eqn).
Proof. done. Qed.

(** ** ReduceLogic on accepted input *)

Lemma term_ok_wf n truthTable td : term_ok n truthTable td → term_wf n td.
Proof. intros (? & ? & ? & _). by split. Qed.

Section Reduction.
Context (W : Z) (HW : 0 < W).
Context (n : Z) (Hn : 1 <= n < W).
Context (truthTable : list triLogic) (Htt : Z.of_nat (length truthTable) = 2 ^ n).
Context (fuel : nat) (Hfuel : 2 ^ n <= Z.of_nat fuel).

Lemma ReduceLogic_spec sop0 :
  numVars sop0 = n →
  ∃ sop,
    ReduceLogic W fuel all_ok (Some truthTable) (Some sop0) = Some (STATUS_OKAY, sop) ∧
    equation sop = equation sop0 ∧ reduced n truthTable sop.
Proof.
  intros Hnv. unfold ReduceLogic, MAX_NUM_VARIABLES. simpl. rewrite Hnv.
  destruct (Z.ltb_spec n 1) as [|_]; [lia|].
  destruct (Z.ltb_spec W n) as [|_]; [lia|].
  rewrite (EstimateMaxNumOfMinterms_spec W HW n Hn truthTable Htt). simpl.
  rewrite shl1_small by lia.
  destruct (reduce_loop_spec W HW n Hn truthTable Htt fuel Hfuel) as (rs & Hrun & Hinv).
  unfold capacity in Hrun. rewrite Hrun. simpl.
  destruct Hinv
    as (k & Hnum & Hlt & Hld & Hlr & Hcap & Hok & Hmark & Hcov & Htrue & Hcnt & Hhalf & _ & Hfull).
  unfold live_terms in *. rewrite Hnum. unfold realloc_shrink.
  assert (0 < 2 ^ n) as Hpos by (apply Z.pow_pos_nonneg; lia).
  assert (length (term_list (Z.of_nat k) (rs_terms rs) (rs_dontCares rs)) = k) as Hlen.
  { apply length_term_list; lia. }
  assert (∀ m, rd truthTable m = Some LOGIC_TRUE →
               covered n (term_list (Z.of_nat k) (rs_terms rs) (rs_dontCares rs)) m) as Htrue'.
  { intros m Hm. apply Htrue; [|done]. apply rd_lt in Hm. lia. }
  destruct (Z.eqb_spec (Z.of_nat k) 0) as [Hk0|Hk0].
  - assert (k = 0)%nat as -> by lia. change (Z.of_nat 0) with 0 in *.
    rewrite RemoveNonprimeImplicants_zero. simpl. eexists. split; [done|].
    split; [done|]. split_and!; [done..|].
    exists (term_list 0 (rs_terms rs) (rs_dontCares rs)).
    split_and!; [done..| |].
    + apply live_inv_init.
    + intros Hnone. destruct (Hfull Hnone) as [_ Hall]. split; [lia|done].
  - simpl. rewrite Nat2Z.id.
    destruct (RemoveNonprimeImplicants_spec W HW n Hn fuel Hfuel
                (take k (rs_terms rs)) (take k (rs_dontCares rs)) k) with (mem := all_ok)
                (eqn := equation sop0)
      as (sop & -> & Hnv' & Heqn & Hwf & Hlive).
    + rewrite length_take. lia.
    + rewrite length_take. lia.
    + eapply Forall_impl; [|apply term_ok_wf].
      unfold term_list in Hok. by rewrite Nat2Z.id in Hok.
    + lia.
    + done.
    + simpl. eexists. split; [done|]. split; [done|]. split_and!; [done..|].
      exists (term_list (Z.of_nat k) (rs_terms rs) (rs_dontCares rs)).
      split_and!; [done..| |].
      * unfold term_list. by rewrite Nat2Z.id.
      * intros Hnone. destruct (Hfull Hnone) as [Hk1 Hall]. split; [lia|done].
Qed.

End Reduction.

(** ** Evaluation *)

Lemma terms_of_lookup sop (p : nat) t dc :
  terms_of sop !! p = Some (t, dc) ↔
  Z.of_nat p < numTerms sop ∧
  rdp (terms sop) (Z.of_nat p) = Some t ∧ rdp (dontCares sop) (Z.of_nat p) = Some dc.
Proof.
  unfold terms_of, term_list. rewrite lookup_zip_with_Some.
  setoid_rewrite lookup_take_Some.
  assert (∀ (l : list Z) x, rd l (Z.of_nat p) = Some x ↔ l !! p = Some x) as Hrd.
  { intros l x. rewrite rd_Some, Nat2Z.id. split; [by intros [_ ?]|]. split; [lia|done]. }
  destruct (terms sop) as [ts|], (dontCares sop) as [ds|]; simpl; rewrite ?Hrd; split.
  all: try (intros (x & y & [= -> ->] & [Hx ?] & [Hy ?]); split_and!; (done || lia)).
  all: try (intros (? & ? & ?); done).
  intros (Hp & Ht & Hdc). exists t, dc. split_and!; (done || lia).
Qed.

Lemma eval_terms_spec sop ci :
  numTerms sop = Z.of_nat (length (terms_of sop)) →
  ∀ count (i : nat),
    (i + count)%nat = length (terms_of sop) →
    ∃ r,
      eval_terms count (Z.of_nat i) (terms sop) (dontCares sop) ci = Some r ∧
      (r = LOGIC_TRUE ↔
       ∃ td, td ∈ drop i (terms_of sop) ∧ Z.lor ci td.2 = Z.lor td.1 td.2) ∧
      (r = LOGIC_TRUE ∨ r = LOGIC_FALSE).
Proof.
  intros Hwf. induction count as [|count IH]; intros i Hi.
  - exists LOGIC_FALSE. simpl. split_and!; [done| |by right].
    rewrite drop_ge by lia. split; [done|]. intros (td & Htd & _). by apply elem_of_nil in Htd.
  - destruct (lookup_lt_is_Some_2 (terms_of sop) i) as [[t dc] Htd]; [lia|].
    pose proof Htd as (_ & Ht & Hdc)%terms_of_lookup.
    rewrite (drop_S _ _ _ Htd). simpl. rewrite Hdc, Ht. simpl.
    destruct (Z.eqb_spec (Z.lor ci dc) (Z.lor t dc)) as [Heq|Hne].
    + exists LOGIC_TRUE. split_and!; [done| |by left].
      split; [|done]. intros _. exists (t, dc). split; [left|done].
    + destruct (IH (Datatypes.S i)) as (r & Hr & Hiff & Hcase); [lia|].
      exists r. replace (Z.of_nat i + 1) with (Z.of_nat (Datatypes.S i)) by lia.
      split_and!; [done| |done]. rewrite Hiff. split.
      * intros (td & Hin & Hm). exists td. split; [by right|done].
      * intros (td & [->|Hin]%elem_of_cons & Hm); [done|]. by exists td.
Qed.

Section Evaluate.
Context (W : Z) (HW : 0 < W).

Lemma input_mask n : 0 <= n < W → wrap W (shl1 W n - 1) = Z.ones n.
Proof.
  intros Hn. rewrite shl1_small by done. pose proof (pow2_lt_word W HW n Hn).
  rewrite wrap_small by lia. by rewrite Z.ones_equiv, Z.sub_1_r.
Qed.

(** On a well-formed sum of products the evaluator decides coverage. *)
Lemma EvaluateSumOfProducts_spec sop m :
  0 <= numVars sop < W →
  numTerms sop = Z.of_nat (length (terms_of sop)) →
  0 <= m < 2 ^ numVars sop →
  ∃ r,
    EvaluateSumOfProducts W sop m = Some r ∧
    (r = LOGIC_TRUE ↔ covered (numVars sop) (terms_of sop) m) ∧
    (r = LOGIC_TRUE ∨ r = LOGIC_FALSE).
Proof.
  intros Hn Hwf Hm. unfold EvaluateSumOfProducts.
  rewrite input_mask, Z.land_ones, Z.mod_small by lia.
  destruct (eval_terms_spec sop m Hwf (length (terms_of sop)) 0) as (r & Hr & Hiff & Hcase);
    [lia|].
  exists r. rewrite Hwf, Nat2Z.id. split_and!; [done| |done].
  rewrite Hiff. unfold covered, covers. simpl. split.
  - intros (td & Hin & Heq). by exists td.
  - intros (td & Hin & _ & Heq). by exists td.
Qed.

End Evaluate.

(** ** The boundary [numVars = W] *)

(** At [numVars = W] the table size [1 << numVars] wraps to 0: no
    entry of the table is looked at and no term is produced. *)
Lemma ReduceLogic_at_width W fuel truthTable sop0 :
  0 < W → numVars sop0 = W →
  ReduceLogic W fuel all_ok (Some truthTable) (Some sop0) =
  Some (STATUS_OKAY, mkSumOfProducts W 0 None None (equation sop0)).
Proof.
  intros HW Hnv. unfold ReduceLogic, MAX_NUM_VARIABLES. simpl. rewrite Hnv.
  destruct (Z.ltb_spec W 1) as [|_]; [lia|].
  rewrite Z.ltb_irrefl.
  unfold EstimateMaxNumOfMinterms. rewrite shl1_width by done. simpl.
  done.
Qed.

(** ** Soundness below the word width *)

Lemma reduced_sound W n truthTable sop m v :
  0 <= n < W → reduced n truthTable sop →
  rd truthTable m = Some v → v ≠ LOGIC_DONT_CARE → Z.of_nat (length truthTable) = 2 ^ n →
  EvaluateSumOfProducts W sop m = Some v.
Proof.
  intros Hn (Hnv & Hwf & live & Hok & Htrue & (Hst & Hcov & _) & _) Hv Hdc Htt.
  rewrite app_nil_r in Hcov.
  pose proof (rd_lt _ _ _ Hv) as Hm. rewrite Htt in Hm.
  assert (0 < W) as HW by lia.
  destruct (EvaluateSumOfProducts_spec W HW sop m) as (r & -> & Hiff & Hcase);
    [lia|done|by rewrite Hnv|]. rewrite Hnv in Hiff. f_equal.
  destruct v; [|by apply Hiff, Hcov, Htrue|done].
  destruct Hcase as [Hr|Hr]; [|done]. exfalso.
  apply Hiff in Hr as (td & Hin & Hc).
  pose proof (proj1 (Forall_forall _ _) Hst td Hin) as (_ & td0 & Hin0 & Hdc0 & Heq).
  pose proof (proj1 (Forall_forall _ _) Hok td0 Hin0) as (_ & _ & _ & Himp).
  apply (Himp m); [|done]. rewrite Hdc0 in *. by apply (covers_equiv n td.1 td0.1 td.2 m).
Qed.

Lemma ReduceLogic_sound_below (W n : Z) (truthTable : list triLogic) (fuel : nat)
    (sumOfProducts : SumOfProducts) :
  1 <= n < W → numVars sumOfProducts = n →
  Z.of_nat (length truthTable) = 2 ^ n → 2 ^ n <= Z.of_nat fuel →
  ∃ result,
    ReduceLogic W fuel all_ok (Some truthTable) (Some sumOfProducts) =
      Some (STATUS_OKAY, result) ∧
    ∀ m v, rd truthTable m = Some v → v ≠ LOGIC_DONT_CARE →
           EvaluateSumOfProducts W result m = Some v.
Proof.
  intros Hn Hnv Htt Hfuel. assert (0 < W) as HW by lia.
  destruct (ReduceLogic_spec W HW n Hn truthTable Htt fuel Hfuel sumOfProducts Hnv)
    as (sop & Hrun & _ & Hred).
  exists sop. split; [done|]. intros m v Hv Hdc.
  eapply reduced_sound; [|done..]. lia.
Qed.

(** C1 (soundness of the reduction).  For [1 <= numVars <= W] and a
    truth table of [2 ^ numVars] entries [ReduceLogic] returns
    [STATUS_OKAY].  Below the word width [EvaluateSumOfProducts] of the
    result gives back the table's value on every minterm that is not a
    don't-care.  At [numVars = W] it does not: the result evaluates to
    [LOGIC_FALSE] on every input, whatever the table holds. *)
Theorem ReduceLogic_sound_up_to_width (W n : Z) (truthTable : list triLogic) (fuel : nat)
    (sumOfProducts : SumOfProducts) :
  1 <= n <= W → numVars sumOfProducts = n →
  Z.of_nat (length truthTable) = 2 ^ n → 2 ^ n <= Z.of_nat fuel →
  ∃ result,
    ReduceLogic W fuel all_ok (Some truthTable) (Some sumOfProducts) =
      Some (STATUS_OKAY, result) ∧
    (n < W → ∀ m v, rd truthTable m = Some v → v ≠ LOGIC_DONT_CARE →
                    EvaluateSumOfProducts W result m = Some v) ∧
    (n = W → ∀ m, EvaluateSumOfProducts W result m = Some LOGIC_FALSE).
Proof.
  intros Hn Hnv Htt Hfuel. destruct (decide (n = W)) as [->|Hne].
  - eexists. split; [apply ReduceLogic_at_width; (done || lia)|]. split; [lia|done].
  - destruct (ReduceLogic_sound_below W n truthTable fuel sumOfProducts)
      as (result & Hrun & Hsound); [lia|done..|].
    exists result. split_and!; [done| |lia]. intros _. done.
Qed.

(** ** Primality and coverage of the result *)

Lemma terms_of_rdp sop p t dc :
  0 <= p < numTerms sop →
  rdp (terms sop) p = Some t → rdp (dontCares sop) p = Some dc →
  terms_of sop !! Z.to_nat p = Some (t, dc).
Proof.
  intros Hp Ht Hdc. apply terms_of_lookup. rewrite Z2Nat.id by lia. split_and!; (done || lia).
Qed.

Lemma reduced_prime n truthTable sop p :
  reduced n truthTable sop →
  0 <= p < numTerms sop →
  ∃ m, term_covers n sop p m ∧ ∀ q, term_covers n sop q m → q = p.
Proof.
  intros (_ & Hwf & live & _ & _ & (_ & _ & Hsole) & _) Hp.
  rewrite app_nil_r in Hsole.
  destruct (lookup_lt_is_Some_2 (terms_of sop) (Z.to_nat p)) as [[t dc] Hlook]; [lia|].
  pose proof Hlook as (_ & Ht & Hdc)%terms_of_lookup. rewrite Z2Nat.id in Ht, Hdc by lia.
  destruct (Forall_lookup_1 _ _ _ _ Hsole Hlook) as (m & Hm & Hone).
  exists m. split; [split; [done|]; by exists t, dc|].
  intros q (Hq & t' & dc' & Ht' & Hdc' & Hc).
  pose proof (terms_of_rdp sop q t' dc' Hq Ht' Hdc') as Hlook'.
  pose proof (cover_count_unique n (terms_of sop) m _ _ _ _ Hone Hlook Hm Hlook' Hc). lia.
Qed.

Lemma reduced_covers_true n truthTable sop m :
  reduced n truthTable sop → rd truthTable m = Some LOGIC_TRUE →
  ∃ p, term_covers n sop p m.
Proof.
  intros (_ & _ & live & _ & Htrue & (_ & Hcov & _) & _) Hm.
  rewrite app_nil_r in Hcov.
  destruct (Hcov m (Htrue m Hm)) as ([t dc] & Hin & Hc).
  apply list_elem_of_lookup in Hin as [p Hp].
  pose proof Hp as (Hlt & Ht & Hdc)%terms_of_lookup.
  exists (Z.of_nat p). split; [lia|]. by exists t, dc.
Qed.

(** C2 (primality).  For [1 <= numVars < W], every term of the term
    set that [ReduceLogic] returns, after [RemoveNonprimeImplicants],
    covers some minterm that no other term of the set covers. *)
Theorem ReduceLogic_prime (W n : Z) (truthTable : list triLogic) (fuel : nat)
    (sumOfProducts : SumOfProducts) :
  1 <= n < W → numVars sumOfProducts = n →
  Z.of_nat (length truthTable) = 2 ^ n → 2 ^ n <= Z.of_nat fuel →
  ∃ result,
    ReduceLogic W fuel all_ok (Some truthTable) (Some sumOfProducts) =
      Some (STATUS_OKAY, result) ∧
    ∀ p, 0 <= p < numTerms result →
         ∃ m, term_covers n result p m ∧ ∀ q, term_covers n result q m → q = p.
Proof.
  intros Hn Hnv Htt Hfuel. assert (0 < W) as HW by lia.
  destruct (ReduceLogic_spec W HW n Hn truthTable Htt fuel Hfuel sumOfProducts Hnv)
    as (sop & Hrun & _ & Hred).
  exists sop. split; [done|]. intros p. by apply (reduced_prime n truthTable).
Qed.

(** C3, as amended (at least one cover).  For [1 <= numVars < W],
    every minterm whose table value is [LOGIC_TRUE] is covered by some
    term of the set that [ReduceLogic] returns; it may be covered by
    several. *)
Theorem ReduceLogic_covers_true (W n : Z) (truthTable : list triLogic) (fuel : nat)
    (sumOfProducts : SumOfProducts) :
  1 <= n < W → numVars sumOfProducts = n →
  Z.of_nat (length truthTable) = 2 ^ n → 2 ^ n <= Z.of_nat fuel →
  ∃ result,
    ReduceLogic W fuel all_ok (Some truthTable) (Some sumOfProducts) =
      Some (STATUS_OKAY, result) ∧
    ∀ m, rd truthTable m = Some LOGIC_TRUE → ∃ p, term_covers n result p m.
Proof.
  intros Hn Hnv Htt Hfuel. assert (0 < W) as HW by lia.
  destruct (ReduceLogic_spec W HW n Hn truthTable Htt fuel Hfuel sumOfProducts Hnv)
    as (sop & Hrun & _ & Hred).
  exists sop. split; [done|]. intros m. by apply (reduced_covers_true n truthTable).
Qed.

(** ** The constant-true function *)

Lemma covers_full n t m : 0 <= n → 0 <= t < 2 ^ n → 0 <= m < 2 ^ n → covers n t (2 ^ n - 1) m.
Proof. intros Hn Ht Hm. split; [done|]. by rewrite !lor_ones_full. Qed.

Lemma reduced_constant_true n truthTable sop :
  1 <= n → reduced n truthTable sop →
  (∀ m, 0 <= m < 2 ^ n → rd truthTable m ≠ Some LOGIC_FALSE) →
  (∃ m, rd truthTable m = Some LOGIC_TRUE) →
  ∃ t, terms_of sop = [(t, 2 ^ n - 1)].
Proof.
  intros Hn (_ & _ & live & Hok & Htrue & (Hst & Hcov & Hsole) & Hfull) Hnone (m0 & Hm0).
  rewrite app_nil_r in Hcov, Hsole. destruct (Hfull Hnone) as [_ Hall].
  assert (Forall (λ td, 0 <= td.1 < 2 ^ n ∧ td.2 = 2 ^ n - 1) (terms_of sop)) as Hshape.
  { eapply Forall_impl; [exact Hst|]. intros td (Ht & td0 & Hin & Hdc & _).
    split; [done|]. rewrite <- Hdc. by apply (proj1 (Forall_forall _ _) Hall). }
  destruct (terms_of sop) as [|[t1 dc1] [|[t2 dc2] K]] eqn:EK.
  - destruct (Hcov m0 (Htrue m0 Hm0)) as (td & Hin & _). by apply elem_of_nil in Hin.
  - apply Forall_cons in Hshape as [[_ Hdc] _]. simpl in Hdc. subst dc1. by exists t1.
  - exfalso. apply Forall_cons in Hsole as [(m & Hm & Hone) _].
    apply Forall_cons in Hshape as [[Ht1 Hdc1] Hshape].
    apply Forall_cons in Hshape as [[Ht2 Hdc2] _]. simpl in *. subst dc1 dc2.
    pose proof (covers_range _ _ _ _ Hm) as Hmr.
    assert (0%nat = 1%nat) as Habs; [|done].
    eapply (cover_count_unique n _ m 0 1 (t1, 2 ^ n - 1) (t2, 2 ^ n - 1)); [done..|].
    apply covers_full; (done || lia).
Qed.

Section Render.
Context (W : Z) (HW : 0 < W).

Lemma all_dc_loop_full n dontCares :
  0 <= n <= W → rdp dontCares 0 = Some (2 ^ n - 1) →
  ∀ count i, 0 <= i → i + Z.of_nat count = n →
             all_dc_loop W count i dontCares = Some n.
Proof.
  intros Hn Hdc. induction count as [|count IH]; intros i Hi Hsum; simpl.
  - f_equal. lia.
  - rewrite Hdc. simpl. rewrite shl1_small, land_pow2_eqb by lia.
    rewrite Z.sub_1_r, <- Z.ones_equiv, Z.testbit_ones_nonneg by lia.
    destruct (Z.ltb_spec i n); [|lia]. simpl. apply IH; lia.
Qed.

Lemma GenerateEquationString_one sop varNames :
  0 <= numVars sop <= W → numTerms sop = 1 →
  rdp (dontCares sop) 0 = Some (2 ^ numVars sop - 1) →
  ∃ rendered,
    GenerateEquationString W sop varNames = Some (STATUS_OKAY, rendered) ∧
    equation rendered = Some "1".
Proof.
  intros Hn Hnum Hdc. unfold GenerateEquationString. rewrite Hnum. simpl.
  rewrite (all_dc_loop_full (numVars sop)) by (done || lia). simpl.
  rewrite Z.eqb_refl. eexists. split; done.
Qed.

End Render.

Lemma constant_true_below_width (W n : Z) (truthTable : list triLogic) (fuel : nat)
    (sumOfProducts : SumOfProducts) (varNames : option (list string)) :
  1 <= n < W → numVars sumOfProducts = n →
  Z.of_nat (length truthTable) = 2 ^ n → 2 ^ n <= Z.of_nat fuel →
  Forall (λ v, v = LOGIC_TRUE ∨ v = LOGIC_DONT_CARE) truthTable →
  LOGIC_TRUE ∈ truthTable →
  ∃ result t rendered,
    ReduceLogic W fuel all_ok (Some truthTable) (Some sumOfProducts) =
      Some (STATUS_OKAY, result) ∧
    numTerms result = 1 ∧
    rdp (terms result) 0 = Some t ∧ rdp (dontCares result) 0 = Some (2 ^ n - 1) ∧
    GenerateEquationString W result varNames = Some (STATUS_OKAY, rendered) ∧
    equation rendered = Some "1".
Proof.
  intros Hn Hnv Htt Hfuel Hall Hsome. assert (0 < W) as HW by lia.
  destruct (ReduceLogic_spec W HW n Hn truthTable Htt fuel Hfuel sumOfProducts Hnv)
    as (sop & Hrun & _ & Hred).
  destruct (reduced_constant_true n truthTable sop) as (t & Hterms); [lia|done| | |].
  { intros m _ Hm. apply rd_Some in Hm as [_ Hm%list_elem_of_lookup_2].
    by destruct (proj1 (Forall_forall _ _) Hall _ Hm). }
  { apply list_elem_of_lookup in Hsome as [i Hi]. exists (Z.of_nat i).
    apply rd_Some. rewrite Nat2Z.id. split; [lia|done]. }
  destruct Hred as (Hnv' & Hwf & _). rewrite Hterms in Hwf. simpl in Hwf.
  assert (terms_of sop !! 0%nat = Some (t, 2 ^ n - 1)) as Hlook by (by rewrite Hterms).
  apply terms_of_lookup in Hlook as (_ & Hts & Hds). change (Z.of_nat 0) with 0 in *.
  destruct (GenerateEquationString_one W HW sop varNames) as (rendered & Hgen & Heq).
  { lia. } { done. } { by rewrite Hnv'. }
  exists sop, t, rendered. split_and!; done.
Qed.

Lemma GenerateEquationString_zero W n tsp dsp eqn varNames :
  GenerateEquationString W (mkSumOfProducts n 0 tsp dsp eqn) varNames =
  Some (STATUS_OKAY, mkSumOfProducts n 0 tsp dsp (Some "0")).
Proof. done. Qed.

(** C8 (constant-true boundary).  When every entry of the table is
    [LOGIC_TRUE] or [LOGIC_DONT_CARE] and one at least is [LOGIC_TRUE]:
    below the word width [ReduceLogic] returns exactly one term, whose
    don't-care mask has all [numVars] bits set, and
    [GenerateEquationString] renders it as ["1"]; at [numVars = W] it
    returns no term at all, rendered as ["0"]. *)
Theorem ReduceLogic_constant_true (W n : Z) (truthTable : list triLogic) (fuel : nat)
    (sumOfProducts : SumOfProducts) (varNames : option (list string)) :
  1 <= n <= W → numVars sumOfProducts = n →
  Z.of_nat (length truthTable) = 2 ^ n → 2 ^ n <= Z.of_nat fuel →
  Forall (λ v, v = LOGIC_TRUE ∨ v = LOGIC_DONT_CARE) truthTable →
  LOGIC_TRUE ∈ truthTable →
  ∃ result rendered,
    ReduceLogic W fuel all_ok (Some truthTable) (Some sumOfProducts) =
      Some (STATUS_OKAY, result) ∧
    GenerateEquationString W result varNames = Some (STATUS_OKAY, rendered) ∧
    (n < W → numTerms result = 1 ∧ rdp (dontCares result) 0 = Some (2 ^ n - 1) ∧
             equation rendered = Some "1") ∧
    (n = W → numTerms result = 0 ∧ equation rendered = Some "0").
Proof.
  intros Hn Hnv Htt Hfuel Hall Hsome. destruct (decide (n = W)) as [->|Hne].
  - eexists _, _. split; [apply ReduceLogic_at_width; (done || lia)|].
    split; [apply GenerateEquationString_zero|]. split; [lia|done].
  - destruct (constant_true_below_width W n truthTable fuel sumOfProducts varNames)
      as (result & t & rendered & Hrun & Hnum & _ & Hdc & Hgen & Heq); [lia|done..|].
    exists result, rendered. split_and!; [done..| |lia]. intros _. done.
Qed.

(** ** The free-bit enumerator *)

Lemma run_record base : ∀ L seen,
  run_visits record_visit base L seen = Some (Wrapped base (seen ++ L)).
Proof.
  induction L as [|m L IH]; intros seen; simpl.
  - by rewrite app_nil_r.
  - rewrite IH. by rewrite <- app_assoc.
Qed.

(** C5 (free-bit enumerator).  For a don't-care mask within the low
    [numVars] bits the cycling loop terminates (fuel for one pass per
    combination is enough), is left with the term back at its starting
    pattern, and visits [2 ^ popcount dc] pairwise distinct minterms:
    first the term with its don't-care bits cleared, then the
    combinations of the don't-care bits in the order of a binary
    counter laid over the mask's positions, least significant first;
    these are exactly the minterms that agree with the term outside
    the mask.  Every cycling loop of the source, whatever its body,
    runs that body over this sequence. *)
Theorem cycle_trace_contract (W numVars dc t : Z) (fuel : nat) :
  0 < W → 0 <= numVars <= W → 0 <= dc < 2 ^ numVars → 0 <= t < 2 ^ W →
  2 ^ Z.of_nat (popcount (Z.to_nat numVars) 0 dc) <= Z.of_nat fuel →
  ∃ trace,
    cycle_trace W fuel numVars dc t = Some (Wrapped (Z.ldiff t dc) trace) ∧
    trace = (λ k, Z.lor (Z.ldiff t dc) (scatter (Z.to_nat numVars) 0 dc k)) <$>
              seqZ 0 (2 ^ Z.of_nat (popcount (Z.to_nat numVars) 0 dc)) ∧
    Z.of_nat (length trace) = 2 ^ Z.of_nat (popcount (Z.to_nat numVars) 0 dc) ∧
    NoDup trace ∧
    head trace = Some (Z.ldiff t dc) ∧
    (∀ m, m ∈ trace ↔ 0 <= m ∧ Z.ldiff m dc = Z.ldiff t dc) ∧
    (∀ St (visit : Z → St → option (ctl St)) s,
       while_cycle W fuel numVars dc visit (Z.land t (lnotw W dc)) s =
       run_visits visit (Z.ldiff t dc) trace s).
Proof.
  intros HW Hn Hdc Ht Hfuel.
  exists (visited (Z.to_nat numVars) dc (Z.ldiff t dc)).
  assert (∀ St (visit : Z → St → option (ctl St)) s,
            while_cycle W fuel numVars dc visit (Z.land t (lnotw W dc)) s =
            run_visits visit (Z.ldiff t dc) (visited (Z.to_nat numVars) dc (Z.ldiff t dc)) s)
    as Hcyc.
  { intros St visit s. rewrite land_lnotw by done.
    pose proof (while_cycle_visits W HW visit (Z.to_nat numVars) dc (Z.ldiff t dc) fuel s)
      as Hrun.
    rewrite Z2Nat.id in Hrun by lia. apply Hrun; [lia| |apply ldiff_disjoint|done].
    pose proof (ldiff_range t dc W ltac:(lia) Ht). lia. }
  split_and!.
  - unfold cycle_trace. rewrite Hcyc. apply run_record.
  - done.
  - apply length_visited.
  - apply NoDup_visited; [by rewrite Z2Nat.id by lia|apply ldiff_disjoint].
  - apply head_visited.
  - intros m. rewrite elem_of_visited; [|by rewrite Z2Nat.id by lia| |apply ldiff_disjoint].
    + done.
    + apply Z.ldiff_nonneg. lia.
  - done.
Qed.

(** ** Argument checks and error exits *)

Lemma status_code_inj s1 s2 : status_code s1 = status_code s2 → s1 = s2.
Proof. by destruct s1, s2. Qed.

Lemma ReduceLogic_null_table W fuel mem sop :
  ReduceLogic W fuel mem None (Some sop) = Some (cleanup_error STATUS_NULL_ARGUMENT sop).
Proof. done. Qed.

(** Every exit of [ReduceLogic] with both arguments present, by the
    value of [numVars]. *)
Lemma ReduceLogic_status W fuel mem truthTable sop st sop' :
  ReduceLogic W fuel mem (Some truthTable) (Some sop) = Some (st, sop') →
  (numVars sop < 1 ∧ st = STATUS_TOO_FEW_VARIABLES) ∨
  (1 <= numVars sop ∧ W < numVars sop ∧ st = STATUS_TOO_MANY_VARIABLES) ∨
  (1 <= numVars sop <= W ∧ (st = STATUS_OUT_OF_MEMORY ∨ st = STATUS_OKAY)).
Proof.
  unfold ReduceLogic, MAX_NUM_VARIABLES, cleanup_error. simpl.
  destruct (Z.ltb_spec (numVars sop) 1); [intros [= <- <-]; left; done|].
  destruct (Z.ltb_spec W (numVars sop)); [intros [= <- <-]; right; left; done|].
  intros Hrun. right. right. split; [lia|].
  destruct (EstimateMaxNumOfMinterms _ _ _); simpl in Hrun; [|done].
  unfold alloc in Hrun.
  destruct (calloc_resolved mem), (malloc_terms mem), (malloc_dontCares mem);
    simpl in Hrun; try (injection Hrun as <- <-; by left).
  destruct (for_range _ _ _ _); simpl in Hrun; [|done].
  destruct (RemoveNonprimeImplicants _ _ _ _); simpl in Hrun; [|done].
  injection Hrun as <- <-. by right.
Qed.

Lemma ReduceLogic_too_few W fuel mem truthTable sop :
  numVars sop < 1 ↔
  ∃ sop', ReduceLogic W fuel mem (Some truthTable) (Some sop) =
          Some (STATUS_TOO_FEW_VARIABLES, sop').
Proof.
  split.
  - intros Hn. eexists. unfold ReduceLogic. simpl.
    destruct (Z.ltb_spec (numVars sop) 1); [done|lia].
  - intros (sop' & Hrun). apply ReduceLogic_status in Hrun.
    destruct Hrun as [[? _]|[(_ & _ & ?)|(_ & [?|?])]]; done.
Qed.

Lemma ReduceLogic_too_many W fuel mem truthTable sop :
  0 < W →
  W < numVars sop ↔
  ∃ sop', ReduceLogic W fuel mem (Some truthTable) (Some sop) =
          Some (STATUS_TOO_MANY_VARIABLES, sop').
Proof.
  intros HW. split.
  - intros Hn. eexists. unfold ReduceLogic, MAX_NUM_VARIABLES. simpl.
    destruct (Z.ltb_spec (numVars sop) 1); [lia|].
    destruct (Z.ltb_spec W (numVars sop)); [done|lia].
  - intros (sop' & Hrun). apply ReduceLogic_status in Hrun.
    destruct Hrun as [[_ ?]|[(_ & ? & _)|(_ & [?|?])]]; done.
Qed.

(** A null [sumOfProducts] is dereferenced, whatever the truth table. *)
Lemma ReduceLogic_null_sumOfProducts (W : Z) (fuel : nat) (mem : Allocator)
    (truthTable : option (list triLogic)) :
  ReduceLogic W fuel mem truthTable None = None.
Proof. done. Qed.

(** C6 (argument checks).  With both arguments present the status is
    [STATUS_TOO_FEW_VARIABLES] exactly when [numVars < 1] and
    [STATUS_TOO_MANY_VARIABLES] exactly when [numVars > W]; a null
    truth table gives [STATUS_NULL_ARGUMENT]; the statuses have
    pairwise distinct values.  A null [sumOfProducts] gives no status:
    it is dereferenced before anything is checked. *)
Theorem ReduceLogic_argument_checks (W : Z) (fuel : nat) (mem : Allocator)
    (truthTable : list triLogic) (sumOfProducts : SumOfProducts) :
  0 < W →
  (numVars sumOfProducts < 1 ↔
     ∃ result, ReduceLogic W fuel mem (Some truthTable) (Some sumOfProducts) =
               Some (STATUS_TOO_FEW_VARIABLES, result)) ∧
  (W < numVars sumOfProducts ↔
     ∃ result, ReduceLogic W fuel mem (Some truthTable) (Some sumOfProducts) =
               Some (STATUS_TOO_MANY_VARIABLES, result)) ∧
  (∃ result, ReduceLogic W fuel mem None (Some sumOfProducts) =
             Some (STATUS_NULL_ARGUMENT, result)) ∧
  (∀ s1 s2, status_code s1 = status_code s2 → s1 = s2) ∧
  ReduceLogic W fuel mem (Some truthTable) None = None ∧
  ReduceLogic W fuel mem None None = None.
Proof.
  intros HW. split_and!.
  - apply ReduceLogic_too_few.
  - by apply ReduceLogic_too_many.
  - eexists. apply ReduceLogic_null_table.
  - apply status_code_inj.
  - apply ReduceLogic_null_sumOfProducts.
  - apply ReduceLogic_null_sumOfProducts.
Qed.

(** C7 (state of the sink on error).  Whenever [ReduceLogic] returns
    a status other than [STATUS_OKAY], whatever the allocator does,
    [numTerms] is 0 and [terms] and [dontCares] are null. *)
Theorem ReduceLogic_error_leaves_empty (W : Z) (fuel : nat) (mem : Allocator)
    (truthTable : option (list triLogic)) (sumOfProducts : option SumOfProducts)
    (status : shrinquemStatus) (result : SumOfProducts) :
  ReduceLogic W fuel mem truthTable sumOfProducts = Some (status, result) →
  status ≠ STATUS_OKAY →
  numTerms result = 0 ∧ terms result = None ∧ dontCares result = None.
Proof.
  unfold ReduceLogic, cleanup_error.
  destruct sumOfProducts as [sop|]; simpl; [|done].
  destruct truthTable as [truthTable|]; [|by intros [= <- <-]].
  destruct (numVars sop <? 1); [by intros [= <- <-]|].
  destruct (MAX_NUM_VARIABLES W <? numVars sop); [by intros [= <- <-]|].
  destruct (EstimateMaxNumOfMinterms _ _ _); simpl; [|done].
  unfold alloc.
  destruct (calloc_resolved mem), (malloc_terms mem), (malloc_dontCares mem);
    simpl; try by intros [= <- <-].
  destruct (for_range _ _ _ _); simpl; [|done].
  destruct (RemoveNonprimeImplicants _ _ _ _); simpl; [|done].
  by intros [= <- <-].
Qed.

(** ** The defect at [numVars = W] *)

Lemma length_all_true n : Z.of_nat (length (all_true n)) = 2 ^ n.
Proof.
  unfold all_true. rewrite length_replicate.
  destruct (decide (0 <= n)); [pose proof (Z.pow_nonneg 2 n); lia|].
  rewrite Z.pow_neg_r by lia. done.
Qed.

Lemma rd_all_true n : 0 <= n → rd (all_true n) 0 = Some LOGIC_TRUE.
Proof.
  intros Hn. apply rd_replicate. pose proof (Z.pow_pos_nonneg 2 n). lia.
Qed.

Lemma EvaluateSumOfProducts_no_terms W n tsp dsp eqn input :
  EvaluateSumOfProducts W (mkSumOfProducts n 0 tsp dsp eqn) input = Some LOGIC_FALSE.
Proof. done. Qed.

(** C9 (the boundary [numVars = W]).  [numVars = W] passes the
    argument checks, but the table size [1 << numVars] comes out as 0
    instead of [2 ^ W]: the reduction returns [STATUS_OKAY] with no
    term, whatever the table. *)
Theorem ReduceLogic_width_boundary (W : Z) (fuel : nat) (truthTable : list triLogic)
    (sumOfProducts : SumOfProducts) :
  0 < W → numVars sumOfProducts = W →
  shl1 W (numVars sumOfProducts) = 0 ∧
  shl1 W (numVars sumOfProducts) ≠ 2 ^ numVars sumOfProducts ∧
  ReduceLogic W fuel all_ok (Some truthTable) (Some sumOfProducts) =
    Some (STATUS_OKAY, mkSumOfProducts W 0 None None (equation sumOfProducts)).
Proof.
  intros HW Hnv. rewrite Hnv, shl1_width by done. split_and!.
  - done.
  - pose proof (Z.pow_pos_nonneg 2 W). lia.
  - by apply ReduceLogic_at_width.
Qed.

(** ** The two evaluators *)

Lemma land_pow2_mod (x n i : Z) :
  0 <= i < n → Z.land (x mod 2 ^ n) (2 ^ i) = Z.land x (2 ^ i).
Proof.
  intros Hi. rewrite !land_pow2 by lia. by rewrite Z.mod_pow2_bits_low by lia.
Qed.

Lemma land_pow2_eq (x y i : Z) :
  0 <= i → (Z.land x (2 ^ i) =? Z.land y (2 ^ i)) = bool_decide (Z.testbit x i = Z.testbit y i).
Proof.
  intros Hi. rewrite !land_pow2 by done. pose proof (Z.pow_pos_nonneg 2 i).
  destruct (Z.testbit x i), (Z.testbit y i); case_bool_decide; try done.
  - apply Z.eqb_refl.
  - apply Z.eqb_neq. lia.
  - apply Z.eqb_neq. lia.
Qed.

(** The mask comparison, bit by bit. *)
Lemma mask_match (input t dc n : Z) :
  0 <= n → 0 <= t < 2 ^ n →
  Z.lor (input mod 2 ^ n) dc = Z.lor t dc ↔
  ∀ j, 0 <= j < n → Z.testbit dc j = false → Z.testbit input j = Z.testbit t j.
Proof.
  intros Hn Ht. split.
  - intros Heq j Hj Hdc. pose proof (f_equal (λ x, Z.testbit x j) Heq) as Hb. simpl in Hb.
    rewrite !Z.lor_spec, Hdc, !orb_false_r, Z.mod_pow2_bits_low in Hb by lia. done.
  - intros Hbits. apply Z.bits_inj'. intros j Hj. rewrite !Z.lor_spec.
    destruct (Z.testbit dc j) eqn:Hdc; [by rewrite !orb_true_r|]. rewrite !orb_false_r.
    destruct (decide (j < n)).
    + rewrite Z.mod_pow2_bits_low by lia. apply Hbits; (done || lia).
    + rewrite Z.mod_pow2_bits_high, (bits_above t n) by lia. done.
Qed.

Section Evaluators.
Context (W : Z) (HW : 0 < W).

Lemma EvaluateSumOfProducts_mod sop input :
  0 <= numVars sop < W →
  EvaluateSumOfProducts W sop input =
  EvaluateSumOfProducts W sop (input mod 2 ^ numVars sop).
Proof.
  intros Hn. unfold EvaluateSumOfProducts.
  pose proof (Z.pow_pos_nonneg 2 (numVars sop)).
  rewrite input_mask, !Z.land_ones, Z.mod_mod by (done || lia). done.
Qed.

Lemma term_loop_mod n iTerm ts ds input : ∀ count i,
  0 <= i → i + Z.of_nat count <= n → n < W →
  term_loop W count i iTerm ts ds (input mod 2 ^ n) = term_loop W count i iTerm ts ds input.
Proof.
  induction count as [|count IH]; intros i Hi Hsum Hn; simpl; [done|].
  rewrite shl1_small, land_pow2_mod by lia.
  rewrite !IH by lia. done.
Qed.

Lemma EvaluateSumOfProducts_bitloop_mod n numTerms ts ds input :
  0 <= n < W →
  EvaluateSumOfProducts_bitloop W n numTerms ts ds input =
  EvaluateSumOfProducts_bitloop W n numTerms ts ds (input mod 2 ^ n).
Proof.
  intros Hn. unfold EvaluateSumOfProducts_bitloop. generalize 0 at 1 2 as i.
  induction (Z.to_nat numTerms) as [|count IH]; intros i; simpl; [done|].
  rewrite term_loop_mod by lia. by rewrite IH.
Qed.

(** The loop over the bits of one term runs to the end exactly when
    the input agrees with the term on every fixed position. *)
Lemma term_loop_spec iTerm ts ds input t dc :
  rdp ts iTerm = Some t → rdp ds iTerm = Some dc →
  ∀ count i, 0 <= i → i + Z.of_nat count <= W →
    ∃ r, term_loop W count i iTerm ts ds input = Some r ∧ i <= r <= i + Z.of_nat count ∧
         (r = i + Z.of_nat count ↔
          ∀ j, i <= j < i + Z.of_nat count → Z.testbit dc j = false →
               Z.testbit input j = Z.testbit t j).
Proof.
  intros Ht Hdc. induction count as [|count IH]; intros i Hi Hsum; simpl.
  - exists i. split_and!; [done|lia..|]. split; [intros _ j Hj; lia|lia].
  - rewrite Hdc, Ht. simpl. rewrite shl1_small, land_pow2_eqb, land_pow2_eq by lia.
    rewrite negb_involutive.
    destruct (IH (i + 1)) as (r & Hr & Hrange & Hiff); [lia..|].
    destruct (Z.testbit dc i) eqn:Hdci; simpl.
    + exists r. split_and!; [done|lia..|].
      replace (i + Z.of_nat (Datatypes.S count)) with (i + 1 + Z.of_nat count) by lia.
      rewrite Hiff. split; intros Hb j Hj Hdcj.
      * destruct (decide (j = i)) as [->|]; [congruence|]. apply Hb; (done || lia).
      * apply Hb; (done || lia).
    + case_bool_decide as Hbit; simpl.
      * exists r. split_and!; [done|lia..|].
        replace (i + Z.of_nat (Datatypes.S count)) with (i + 1 + Z.of_nat count) by lia.
        rewrite Hiff. split; intros Hb j Hj Hdcj.
        -- destruct (decide (j = i)) as [->|]; [done|]. apply Hb; (done || lia).
        -- apply Hb; (done || lia).
      * exists i. split_and!; [done|lia..|]. split; [lia|].
        intros Hb. exfalso. apply Hbit, Hb; (done || lia).
Qed.

Lemma eval_terms_agree n ts ds input : 
  1 <= n < W →
  ∀ count i, 0 <= i →
    (∀ p, i <= p < i + Z.of_nat count →
          ∃ t dc, rdp ts p = Some t ∧ rdp ds p = Some dc ∧ 0 <= t < 2 ^ n) →
    eval_terms count i ts ds (input mod 2 ^ n) = eval_terms_bitloop W count i n ts ds input.
Proof.
  intros Hn. induction count as [|count IH]; intros i Hi Hrd; simpl; [done|].
  destruct (Hrd i) as (t & dc & Ht & Hdc & Htr); [lia|]. rewrite Hdc, Ht. simpl.
  destruct (term_loop_spec i ts ds input t dc Ht Hdc (Z.to_nat n) 0) as (r & -> & Hr & Hiff);
    [lia..|]. simpl. rewrite Z2Nat.id, Z.add_0_l in * by lia.
  pose proof (mask_match input t dc n ltac:(lia) Htr) as Hmask.
  destruct (Z.eqb_spec (Z.lor (input mod 2 ^ n) dc) (Z.lor t dc)) as [Heq|Hne],
    (Z.eqb_spec r n) as [Hrn|Hrn]; try done.
  - exfalso. apply Hrn, Hiff. by apply Hmask.
  - exfalso. apply Hne, Hmask. by apply Hiff.
  - apply IH; [lia|]. intros p Hp. apply Hrd. lia.
Qed.

End Evaluators.

(** C10 (input bits at or above [numVars]).  For [1 <= numVars < W]
    and every input word, either evaluator returns the same result on
    the input and on the input reduced modulo [2 ^ numVars]; and on
    every term set of the data model, whose [numTerms] terms lie in
    the two buffers with their fixed bits below [2 ^ numVars], the
    mask-comparison evaluator and the per-bit-loop evaluator agree on
    every input. *)
Theorem evaluators_ignore_high_bits (W n numTerms : Z) (terms dontCares : option (list Z))
    (eqn : option string) (input : Z) :
  1 <= n < W → 0 <= input < 2 ^ W →
  EvaluateSumOfProducts W (mkSumOfProducts n numTerms terms dontCares eqn) input =
    EvaluateSumOfProducts W (mkSumOfProducts n numTerms terms dontCares eqn) (input mod 2 ^ n) ∧
  EvaluateSumOfProducts_bitloop W n numTerms terms dontCares input =
    EvaluateSumOfProducts_bitloop W n numTerms terms dontCares (input mod 2 ^ n) ∧
  ((∀ p, 0 <= p < numTerms →
      ∃ t dc, rdp terms p = Some t ∧ rdp dontCares p = Some dc ∧ 0 <= t < 2 ^ n) →
   EvaluateSumOfProducts W (mkSumOfProducts n numTerms terms dontCares eqn) input =
   EvaluateSumOfProducts_bitloop W n numTerms terms dontCares input).
Proof.
  intros Hn Hinput. assert (0 < W) as HW by lia. split_and!.
  - apply (EvaluateSumOfProducts_mod W HW). simpl. lia.
  - apply EvaluateSumOfProducts_bitloop_mod; lia.
  - intros Hrd. unfold EvaluateSumOfProducts, EvaluateSumOfProducts_bitloop. simpl.
    rewrite input_mask, Z.land_ones by lia.
    apply eval_terms_agree; [done..|]. intros p Hp. apply Hrd. lia.
Qed.

(** ** Worked examples *)

Lemma covers_3_cases t dc m :
  covers 3 t dc m ↔ ∃ k, (k < 8)%nat ∧ m = Z.of_nat k ∧ Z.lor m dc = Z.lor t dc.
Proof.
  unfold covers. split.
  - intros [Hm Heq]. exists (Z.to_nat m). split_and!; (done || lia).
  - intros (k & Hk & -> & Heq). split; [lia|done].
Qed.

(** C4 (scenario A).  For three variables and the table
    [T, T, F, T, T, F, F, F], with 32-bit and with 64-bit words:
    [ReduceLogic] yields exactly two terms, A'C (A = 0, C = 1, B free:
    minterms 1 and 3) and B'C' (B = 0, C = 0, A free: minterms 0 and
    4), and [GenerateEquationString] with the default names renders
    them as ["A'C + B'C'"]. *)
Theorem scenario_A_reduces :
  Forall (λ W,
    ReduceLogic W 8 all_ok (Some scenario_A) (Some (fresh 3)) =
      Some (STATUS_OKAY, mkSumOfProducts 3 2 (Some [1; 0]) (Some [2; 4]) None) ∧
    GenerateEquationString W (mkSumOfProducts 3 2 (Some [1; 0]) (Some [2; 4]) None) None =
      Some (STATUS_OKAY,
            mkSumOfProducts 3 2 (Some [1; 0]) (Some [2; 4]) (Some "A'C + B'C'")))
    [32; 64] ∧
  (∀ m, covers 3 1 2 m ↔ m = 1 ∨ m = 3) ∧
  (∀ m, covers 3 0 4 m ↔ m = 0 ∨ m = 4).
Proof.
  split_and!.
  - repeat constructor; vm_compute; reflexivity.
  - intros m. rewrite covers_3_cases. split.
    + intros (k & Hk & -> & Heq).
      do 8 (destruct k as [|k]; [vm_compute in Heq; (try discriminate Heq); auto|]). lia.
    + intros [-> | ->]; [exists 1%nat|exists 3%nat]; (split_and!; [lia|done..]).
  - intros m. rewrite covers_3_cases. split.
    + intros (k & Hk & -> & Heq).
      do 8 (destruct k as [|k]; [vm_compute in Heq; (try discriminate Heq); auto|]). lia.
    + intros [-> | ->]; [exists 0%nat|exists 4%nat]; (split_and!; [lia|done..]).
Qed.

(** C3 as stated fails.  On [nand_table] the result is A' + B':
    minterm 0 is true and is covered by both terms. *)
Lemma exactly_one_cover_fails :
  ∃ result,
    ReduceLogic 64 4 all_ok (Some nand_table) (Some (fresh 2)) = Some (STATUS_OKAY, result) ∧
    rd nand_table 0 = Some LOGIC_TRUE ∧
    ¬ (∃ p, term_covers 2 result p 0 ∧ ∀ q, term_covers 2 result q 0 → q = p).
Proof.
  exists (mkSumOfProducts 2 2 (Some [1; 2]) (Some [1; 2]) None).
  split; [vm_compute; reflexivity|]. split; [reflexivity|].
  intros (p & _ & Huniq).
  assert (term_covers 2 (mkSumOfProducts 2 2 (Some [1; 2]) (Some [1; 2]) None) 0 0) as H0.
  { split; [simpl; lia|]. exists 1, 1. split_and!; [reflexivity..|]. split; [lia|reflexivity]. }
  assert (term_covers 2 (mkSumOfProducts 2 2 (Some [1; 2]) (Some [1; 2]) None) 1 0) as H1.
  { split; [simpl; lia|]. exists 2, 2. split_and!; [reflexivity..|]. split; [lia|reflexivity]. }
  apply Huniq in H0, H1. lia.
Qed.

(** Outside the data model the two evaluators part: on a term with
    a fixed bit above [numVars], which [ReduceLogic] never returns,
    the mask comparison rejects every input and the bit loop does not
    see the bit. *)
Lemma evaluators_disagree :
  EvaluateSumOfProducts 64 (mkSumOfProducts 1 1 (Some [2]) (Some [0]) None) 0 =
    Some LOGIC_FALSE ∧
  EvaluateSumOfProducts_bitloop 64 1 1 (Some [2]) (Some [0]) 0 = Some LOGIC_TRUE.
Proof. split; vm_compute; reflexivity. Qed.

(** 32-bit words, 32 variables, the constant-true table: accepted,
    reduced to no term, evaluated to [LOGIC_FALSE]. *)
Lemma ReduceLogic_unsound_at_32 :
  ∃ result,
    ReduceLogic 32 0 all_ok (Some (all_true 32)) (Some (fresh 32)) =
      Some (STATUS_OKAY, result) ∧
    Z.of_nat (length (all_true 32)) = 2 ^ 32 ∧
    rd (all_true 32) 0 = Some LOGIC_TRUE ∧
    EvaluateSumOfProducts 32 result 0 = Some LOGIC_FALSE ∧
    numTerms result = 0 ∧
    GenerateEquationString 32 result None =
      Some (STATUS_OKAY, mkSumOfProducts 32 0 None None (Some "0")).
Proof.
  exists (mkSumOfProducts 32 0 None None None). split_and!.
  - apply (ReduceLogic_at_width 32 0 (all_true 32) (fresh 32)); [lia|reflexivity].
  - apply length_all_true.
  - apply rd_all_true. lia.
  - reflexivity.
  - reflexivity.
  - reflexivity.
Qed.

(** ** Instances *)

Lemma ReduceLogic_sound_up_to_width_witness :
  1 <= 3 <= 64 ∧ numVars (fresh 3) = 3 ∧
  Z.of_nat (length scenario_A) = 2 ^ 3 ∧ 2 ^ 3 <= Z.of_nat 8 ∧
  ∃ result,
    ReduceLogic 64 8 all_ok (Some scenario_A) (Some (fresh 3)) = Some (STATUS_OKAY, result) ∧
    (3 < 64 → ∀ m v, rd scenario_A m = Some v → v ≠ LOGIC_DONT_CARE →
                     EvaluateSumOfProducts 64 result m = Some v) ∧
    (3 = 64 → ∀ m, EvaluateSumOfProducts 64 result m = Some LOGIC_FALSE).
Proof.
  split; [lia|]. split; [reflexivity|]. split; [reflexivity|]. split; [lia|].
  apply (ReduceLogic_sound_up_to_width 64 3 scenario_A 8 (fresh 3));
    [lia|reflexivity|reflexivity|lia].
Defined.

Lemma ReduceLogic_prime_witness :
  1 <= 3 < 64 ∧ numVars (fresh 3) = 3 ∧
  Z.of_nat (length scenario_A) = 2 ^ 3 ∧ 2 ^ 3 <= Z.of_nat 8 ∧
  ∃ result,
    ReduceLogic 64 8 all_ok (Some scenario_A) (Some (fresh 3)) = Some (STATUS_OKAY, result) ∧
    ∀ p, 0 <= p < numTerms result →
         ∃ m, term_covers 3 result p m ∧ ∀ q, term_covers 3 result q m → q = p.
Proof.
  split; [lia|]. split; [reflexivity|]. split; [reflexivity|]. split; [lia|].
  apply (ReduceLogic_prime 64 3 scenario_A 8 (fresh 3)); [lia|reflexivity|reflexivity|lia].
Defined.

Lemma ReduceLogic_covers_true_witness :
  1 <= 2 < 64 ∧ numVars (fresh 2) = 2 ∧
  Z.of_nat (length nand_table) = 2 ^ 2 ∧ 2 ^ 2 <= Z.of_nat 4 ∧
  ∃ result,
    ReduceLogic 64 4 all_ok (Some nand_table) (Some (fresh 2)) = Some (STATUS_OKAY, result) ∧
    ∀ m, rd nand_table m = Some LOGIC_TRUE → ∃ p, term_covers 2 result p m.
Proof.
  split; [lia|]. split; [reflexivity|]. split; [reflexivity|]. split; [lia|].
  apply (ReduceLogic_covers_true 64 2 nand_table 4 (fresh 2)); [lia|reflexivity|reflexivity|lia].
Defined.

Lemma cycle_trace_contract_witness :
  0 < 64 ∧ 0 <= 3 <= 64 ∧ 0 <= 5 < 2 ^ 3 ∧ 0 <= 2 < 2 ^ 64 ∧
  2 ^ Z.of_nat (popcount (Z.to_nat 3) 0 5) <= Z.of_nat 4 ∧
  ∃ trace,
    cycle_trace 64 4 3 5 2 = Some (Wrapped (Z.ldiff 2 5) trace) ∧
    trace = (λ k, Z.lor (Z.ldiff 2 5) (scatter (Z.to_nat 3) 0 5 k)) <$>
              seqZ 0 (2 ^ Z.of_nat (popcount (Z.to_nat 3) 0 5)) ∧
    Z.of_nat (length trace) = 2 ^ Z.of_nat (popcount (Z.to_nat 3) 0 5) ∧
    NoDup trace ∧
    head trace = Some (Z.ldiff 2 5) ∧
    (∀ m, m ∈ trace ↔ 0 <= m ∧ Z.ldiff m 5 = Z.ldiff 2 5) ∧
    (∀ St (visit : Z → St → option (ctl St)) s,
       while_cycle 64 4 3 5 visit (Z.land 2 (lnotw 64 5)) s =
       run_visits visit (Z.ldiff 2 5) trace s).
Proof.
  split; [lia|]. split; [lia|]. split; [lia|]. split; [lia|].
  split; [vm_compute; discriminate|].
  apply (cycle_trace_contract 64 3 5 2 4); [lia|lia|lia|lia|vm_compute; discriminate].
Defined.

Lemma ReduceLogic_argument_checks_witness :
  0 < 64 ∧
  (numVars (fresh 3) < 1 ↔
     ∃ result, ReduceLogic 64 8 all_ok (Some scenario_A) (Some (fresh 3)) =
               Some (STATUS_TOO_FEW_VARIABLES, result)) ∧
  (64 < numVars (fresh 3) ↔
     ∃ result, ReduceLogic 64 8 all_ok (Some scenario_A) (Some (fresh 3)) =
               Some (STATUS_TOO_MANY_VARIABLES, result)) ∧
  (∃ result, ReduceLogic 64 8 all_ok None (Some (fresh 3)) =
             Some (STATUS_NULL_ARGUMENT, result)) ∧
  (∀ s1 s2, status_code s1 = status_code s2 → s1 = s2) ∧
  ReduceLogic 64 8 all_ok (Some scenario_A) None = None ∧
  ReduceLogic 64 8 all_ok None None = None.
Proof.
  split; [lia|].
  apply (ReduceLogic_argument_checks 64 8 all_ok scenario_A (fresh 3)); lia.
Defined.

Lemma ReduceLogic_error_leaves_empty_witness :
  ReduceLogic 64 0 all_ok None (Some (mkSumOfProducts 3 7 (Some [1; 2]) (Some [3]) None)) =
    Some (STATUS_NULL_ARGUMENT, mkSumOfProducts 3 0 None None None) ∧
  STATUS_NULL_ARGUMENT ≠ STATUS_OKAY ∧
  numTerms (mkSumOfProducts 3 0 None None None) = 0 ∧
  terms (mkSumOfProducts 3 0 None None None) = None ∧
  dontCares (mkSumOfProducts 3 0 None None None) = None.
Proof.
  split; [reflexivity|]. split; [discriminate|].
  apply (ReduceLogic_error_leaves_empty 64 0 all_ok None
           (Some (mkSumOfProducts 3 7 (Some [1; 2]) (Some [3]) None))
           STATUS_NULL_ARGUMENT (mkSumOfProducts 3 0 None None None));
    [reflexivity|discriminate].
Defined.

Lemma ReduceLogic_constant_true_witness :
  1 <= 2 <= 64 ∧ numVars (fresh 2) = 2 ∧
  Z.of_nat (length never_false_table) = 2 ^ 2 ∧ 2 ^ 2 <= Z.of_nat 4 ∧
  Forall (λ v, v = LOGIC_TRUE ∨ v = LOGIC_DONT_CARE) never_false_table ∧
  LOGIC_TRUE ∈ never_false_table ∧
  ∃ result rendered,
    ReduceLogic 64 4 all_ok (Some never_false_table) (Some (fresh 2)) =
      Some (STATUS_OKAY, result) ∧
    GenerateEquationString 64 result None = Some (STATUS_OKAY, rendered) ∧
    (2 < 64 → numTerms result = 1 ∧ rdp (dontCares result) 0 = Some (2 ^ 2 - 1) ∧
              equation rendered = Some "1") ∧
    (2 = 64 → numTerms result = 0 ∧ equation rendered = Some "0").
Proof.
  assert (Forall (λ v, v = LOGIC_TRUE ∨ v = LOGIC_DONT_CARE) never_false_table) as Hall.
  { repeat (apply Forall_cons; split; [(by left) || (by right)|]). constructor. }
  assert (LOGIC_TRUE ∈ never_false_table) as Hsome.
  { apply list_elem_of_further, list_elem_of_here. }
  split; [lia|]. split; [reflexivity|]. split; [reflexivity|]. split; [lia|].
  split; [exact Hall|]. split; [exact Hsome|].
  apply (ReduceLogic_constant_true 64 2 never_false_table 4 (fresh 2) None);
    [lia|reflexivity|reflexivity|lia|exact Hall|exact Hsome].
Defined.

Lemma ReduceLogic_width_boundary_witness :
  0 < 32 ∧ numVars (fresh 32) = 32 ∧
  shl1 32 (numVars (fresh 32)) = 0 ∧
  shl1 32 (numVars (fresh 32)) ≠ 2 ^ numVars (fresh 32) ∧
  ReduceLogic 32 0 all_ok (Some (all_true 32)) (Some (fresh 32)) =
    Some (STATUS_OKAY, mkSumOfProducts 32 0 None None (equation (fresh 32))).
Proof.
  split; [lia|]. split; [reflexivity|].
  apply (ReduceLogic_width_boundary 32 0 (all_true 32) (fresh 32)); [lia|reflexivity].
Defined.

Lemma evaluators_ignore_high_bits_witness :
  1 <= 3 < 64 ∧ 0 <= 2 ^ 40 + 5 < 2 ^ 64 ∧
  EvaluateSumOfProducts 64 (mkSumOfProducts 3 2 (Some [1; 0]) (Some [2; 4]) None) (2 ^ 40 + 5) =
    EvaluateSumOfProducts 64 (mkSumOfProducts 3 2 (Some [1; 0]) (Some [2; 4]) None)
      ((2 ^ 40 + 5) mod 2 ^ 3) ∧
  EvaluateSumOfProducts_bitloop 64 3 2 (Some [1; 0]) (Some [2; 4]) (2 ^ 40 + 5) =
    EvaluateSumOfProducts_bitloop 64 3 2 (Some [1; 0]) (Some [2; 4]) ((2 ^ 40 + 5) mod 2 ^ 3) ∧
  (∀ p, 0 <= p < 2 →
      ∃ t dc, rdp (Some [1; 0]) p = Some t ∧ rdp (Some [2; 4]) p = Some dc ∧ 0 <= t < 2 ^ 3) ∧
  EvaluateSumOfProducts 64 (mkSumOfProducts 3 2 (Some [1; 0]) (Some [2; 4]) None) (2 ^ 40 + 5) =
  EvaluateSumOfProducts_bitloop 64 3 2 (Some [1; 0]) (Some [2; 4]) (2 ^ 40 + 5).
Proof.
  assert (∀ p, 0 <= p < 2 →
            ∃ t dc, rdp (Some [1; 0]) p = Some t ∧ rdp (Some [2; 4]) p = Some dc ∧
                    0 <= t < 2 ^ 3) as Hterms.
  { intros p Hp. assert (p = 0 ∨ p = 1) as [-> | ->] by lia.
    - exists 1, 2. split; [reflexivity|]. split; [reflexivity|]. lia.
    - exists 0, 4. split; [reflexivity|]. split; [reflexivity|]. lia. }
  split; [lia|]. split; [lia|].
  destruct (evaluators_ignore_high_bits 64 3 2 (Some [1; 0]) (Some [2; 4]) None (2 ^ 40 + 5))
    as (Hmask & Hloop & Hagree); [lia|lia|].
  split; [exact Hmask|]. split; [exact Hloop|]. split; [exact Hterms|].
  apply Hagree, Hterms.
Defined.

(** * Further properties of the code *)

(** ** The two stages of [ReduceLogic], for any allocator *)

Section Pipeline.
Context (W : Z) (HW : 0 < W).
Context (n : Z) (Hn : 1 <= n < W).
Context (truthTable : list triLogic) (Htt : Z.of_nat (length truthTable) = 2 ^ n).
Context (fuel : nat) (Hfuel : 2 ^ n <= Z.of_nat fuel).

(** With the three buffers of [ReduceLogic] allocated, the call is the
    expansion loop followed by the filter. *)
Lemma ReduceLogic_stages mem sop0 :
  numVars sop0 = n →
  calloc_resolved mem = true → malloc_terms mem = true → malloc_dontCares mem = true →
  ∃ rs (k : nat),
    for_range (Z.to_nat (2 ^ n)) 0 (reduce_step W fuel n truthTable)
      (mk_rs 0 (replicate (Z.to_nat (capacity n truthTable)) 0)
         (replicate (Z.to_nat (capacity n truthTable)) 0)
         (replicate (Z.to_nat (2 ^ n)) LOGIC_FALSE)) = Some rs ∧
    reduce_inv n truthTable (2 ^ n) rs ∧ rs_numTerms rs = Z.of_nat k ∧
    Z.of_nat k <= capacity n truthTable ∧
    length (rs_terms rs) = Z.to_nat (capacity n truthTable) ∧
    length (rs_dontCares rs) = Z.to_nat (capacity n truthTable) ∧
    ReduceLogic W fuel mem (Some truthTable) (Some sop0) =
      (sop' ← RemoveNonprimeImplicants W fuel mem
                (mkSumOfProducts n (Z.of_nat k)
                   (realloc_shrink (Some (rs_terms rs)) (Z.of_nat k))
                   (realloc_shrink (Some (rs_dontCares rs)) (Z.of_nat k))
                   (equation sop0));
       Some (STATUS_OKAY, sop')).
Proof.
  intros Hnv Hm1 Hm2 Hm3. unfold ReduceLogic, MAX_NUM_VARIABLES. simpl. rewrite Hnv.
  destruct (Z.ltb_spec n 1) as [|_]; [lia|].
  destruct (Z.ltb_spec W n) as [|_]; [lia|].
  rewrite (EstimateMaxNumOfMinterms_spec W HW n Hn truthTable Htt). simpl.
  rewrite shl1_small by lia. unfold alloc. rewrite Hm1, Hm2, Hm3.
  destruct (reduce_loop_spec W HW n Hn truthTable Htt fuel Hfuel) as (rs & Hrun & Hinv).
  pose proof Hrun as Hrun'. unfold capacity in Hrun'. rewrite Hrun'. simpl.
  pose proof Hinv as (k & Hnum & Hlt & Hld & _ & Hcap & _).
  exists rs, k. rewrite Hnum. split_and!; [done..|lia|lia|done].
Qed.

End Pipeline.

(** The filter never adds a term. *)
Lemma RemoveNonprimeImplicants_le W n fuel ts0 ds0 (k : nat) mem eqn :
  0 < W → 1 <= n < W → 2 ^ n <= Z.of_nat fuel →
  length ts0 = k → length ds0 = k →
  Forall (term_wf n) (zip ts0 ds0) → Z.of_nat k <= 2 ^ n →
  calloc_refCntTable mem = true →
  ∃ sop',
    RemoveNonprimeImplicants W fuel mem
      (mkSumOfProducts n (Z.of_nat k) (Some ts0) (Some ds0) eqn) = Some sop' ∧
    0 <= numTerms sop' <= Z.of_nat k.
Proof.
  intros HW Hn Hfuel Hlt Hld Hwf Hk Hmem. unfold RemoveNonprimeImplicants. simpl.
  rewrite Hmem, shl1_small by lia. unfold alloc. rewrite Nat2Z.id.
  destruct (count_loop_spec W HW n Hn fuel Hfuel ts0 ds0 k Hlt Hld Hwf Hk) as (fs1 & -> & Hfs1).
  simpl.
  destruct (filter_loop_spec W HW n Hn fuel Hfuel ts0 ds0 k Hlt Hld Hwf Hk fs1 Hfs1)
    as (fs2 & -> & Hfs2). simpl.
  destruct Hfs2 as (j & ts & ds & rc & -> & Hji & _). simpl.
  destruct (decide (Z.of_nat k - (Z.of_nat k - Z.of_nat j) ≠ Z.of_nat k)) as [Hne|Heq];
    (eexists; split; [done|]; simpl; lia).
Qed.

Lemma true_count_zero truthTable :
  true_count truthTable = 0 ↔ ∀ m, rd truthTable m ≠ Some LOGIC_TRUE.
Proof.
  unfold true_count. split.
  - intros H0 m Hm. apply rd_Some in Hm as [_ Hm].
    assert (LOGIC_TRUE ∈ filter (λ v, v = LOGIC_TRUE) truthTable) as Hin.
    { apply list_elem_of_filter. split; [done|]. by eapply list_elem_of_lookup_2. }
    destruct (filter _ truthTable); [by apply not_elem_of_nil in Hin|simpl in H0; lia].
  - intros Hnone.
    destruct (filter (λ v, v = LOGIC_TRUE) truthTable) as [|v l] eqn:Hf; [done|exfalso].
    assert (v ∈ filter (λ v, v = LOGIC_TRUE) truthTable) as Hin by (rewrite Hf; left).
    apply list_elem_of_filter in Hin as [-> Hin].
    apply list_elem_of_lookup in Hin as [i Hi].
    apply (Hnone (Z.of_nat i)). apply rd_Some. rewrite Nat2Z.id. split; [lia|done].
Qed.

(** X1 (size of the result).  For [1 <= numVars < W] the reduction
    returns at most as many terms as [EstimateMaxNumOfMinterms]
    allows for: the smaller of [2 ^ (numVars - 1)] and the number of
    [LOGIC_TRUE] entries of the table. *)
Theorem ReduceLogic_term_bound (W n : Z) (truthTable : list triLogic) (fuel : nat)
    (sumOfProducts : SumOfProducts) :
  1 <= n < W → numVars sumOfProducts = n →
  Z.of_nat (length truthTable) = 2 ^ n → 2 ^ n <= Z.of_nat fuel →
  ∃ result,
    ReduceLogic W fuel all_ok (Some truthTable) (Some sumOfProducts) =
      Some (STATUS_OKAY, result) ∧
    EstimateMaxNumOfMinterms W n truthTable =
      Some (Z.min (2 ^ (n - 1)) (true_count truthTable)) ∧
    0 <= numTerms result <= Z.min (2 ^ (n - 1)) (true_count truthTable).
Proof.
  intros Hn Hnv Htt Hfuel. assert (0 < W) as HW by lia.
  destruct (ReduceLogic_stages W HW n Hn truthTable Htt fuel Hfuel all_ok sumOfProducts)
    as (rs & k & _ & Hinv & Hnum & Hcap & Hlt & Hld & ->); [done..|].
  destruct Hinv as (k' & Hnum' & _ & _ & _ & _ & Hok & _).
  assert (k' = k) as -> by lia.
  rewrite (EstimateMaxNumOfMinterms_spec W HW n Hn truthTable Htt).
  assert (0 < 2 ^ n) as Hpos by (apply Z.pow_pos_nonneg; lia).
  assert (2 ^ (n - 1) <= 2 ^ n) as Hhalf by (apply Z.pow_le_mono_r; lia).
  unfold capacity in *. unfold realloc_shrink.
  destruct (Z.eqb_spec (Z.of_nat k) 0) as [Hk0|Hk0].
  - assert (k = 0)%nat as -> by lia. change (Z.of_nat 0) with 0 in *.
    rewrite RemoveNonprimeImplicants_zero. simpl. eexists. split; [done|]. split; [done|].
    simpl. lia.
  - simpl. rewrite Nat2Z.id.
    destruct (RemoveNonprimeImplicants_le W n fuel (take k (rs_terms rs))
                (take k (rs_dontCares rs)) k all_ok (equation sumOfProducts))
      as (sop & -> & Hle); try done.
    + rewrite length_take. lia.
    + rewrite length_take. lia.
    + eapply Forall_impl; [|apply term_ok_wf].
      unfold live_terms, term_list in Hok. by rewrite Nat2Z.id in Hok.
    + lia.
    + simpl. eexists. split; [done|]. split; [done|]. lia.
Qed.

(** X2 (no true minterm).  For [1 <= numVars < W] the result has no
    term exactly when the table has no [LOGIC_TRUE] entry; both buffers
    are then null, [GenerateEquationString] renders ["0"] whatever the
    names, and [EvaluateSumOfProducts] is [LOGIC_FALSE] on every
    input. *)
Theorem ReduceLogic_no_terms (W n : Z) (truthTable : list triLogic) (fuel : nat)
    (sumOfProducts : SumOfProducts) :
  1 <= n < W → numVars sumOfProducts = n →
  Z.of_nat (length truthTable) = 2 ^ n → 2 ^ n <= Z.of_nat fuel →
  ∃ result,
    ReduceLogic W fuel all_ok (Some truthTable) (Some sumOfProducts) =
      Some (STATUS_OKAY, result) ∧
    (numTerms result = 0 ↔ ∀ m, rd truthTable m ≠ Some LOGIC_TRUE) ∧
    (numTerms result = 0 →
     result = mkSumOfProducts n 0 None None (equation sumOfProducts) ∧
     (∀ varNames, GenerateEquationString W result varNames =
                  Some (STATUS_OKAY, mkSumOfProducts n 0 None None (Some "0"))) ∧
     (∀ input, EvaluateSumOfProducts W result input = Some LOGIC_FALSE)).
Proof.
  intros Hn Hnv Htt Hfuel. assert (0 < W) as HW by lia.
  destruct (ReduceLogic_spec W HW n Hn truthTable Htt fuel Hfuel sumOfProducts Hnv)
    as (sop & Hrun & _ & Hred).
  exists sop. split; [done|].
  assert (numTerms sop = 0 → ∀ m, rd truthTable m ≠ Some LOGIC_TRUE) as Hfwd.
  { intros H0 m Hm. destruct (reduced_covers_true n truthTable sop m Hred Hm) as (p & Hp & _). lia. }
  assert ((∀ m, rd truthTable m ≠ Some LOGIC_TRUE) →
          sop = mkSumOfProducts n 0 None None (equation sumOfProducts)) as Hbwd.
  { intros Hnone.
    destruct (ReduceLogic_stages W HW n Hn truthTable Htt fuel Hfuel all_ok sumOfProducts)
      as (rs & k & _ & _ & _ & Hcap & _ & _ & Hrun'); [done..|].
    apply true_count_zero in Hnone. unfold capacity in Hcap.
    assert (k = 0)%nat as -> by lia. change (Z.of_nat 0) with 0 in *.
    rewrite Hrun, RemoveNonprimeImplicants_zero in Hrun'. unfold realloc_shrink in Hrun'.
    simpl in Hrun'. congruence. }
  split; [split; [done|]; intros Hnone; by rewrite (Hbwd Hnone)|].
  intros H0. rewrite (Hbwd (Hfwd H0)). done.
Qed.

(** X3 (out of memory).  With valid arguments, [ReduceLogic] returns
    [STATUS_OUT_OF_MEMORY] exactly when the allocation of [resolved],
    of [terms] or of [dontCares] fails; the term set is then empty,
    with null buffers. *)
Theorem ReduceLogic_out_of_memory (W n : Z) (truthTable : list triLogic) (fuel : nat)
    (mem : Allocator) (sumOfProducts : SumOfProducts) :
  1 <= n <= W → numVars sumOfProducts = n → Z.of_nat (length truthTable) = 2 ^ n →
  (calloc_resolved mem && malloc_terms mem && malloc_dontCares mem = false ↔
   ∃ result, ReduceLogic W fuel mem (Some truthTable) (Some sumOfProducts) =
             Some (STATUS_OUT_OF_MEMORY, result)) ∧
  (calloc_resolved mem && malloc_terms mem && malloc_dontCares mem = false →
   ReduceLogic W fuel mem (Some truthTable) (Some sumOfProducts) =
   Some (STATUS_OUT_OF_MEMORY, mkSumOfProducts n 0 None None (equation sumOfProducts))).
Proof.
  intros Hn Hnv Htt. assert (0 < W) as HW by lia.
  assert (∃ est, EstimateMaxNumOfMinterms W n truthTable = Some est) as [est Hest].
  { destruct (decide (n = W)) as [->|Hne].
    - unfold EstimateMaxNumOfMinterms. rewrite shl1_width by done. simpl. by eexists.
    - eexists. apply EstimateMaxNumOfMinterms_spec; (done || lia). }
  assert (calloc_resolved mem && malloc_terms mem && malloc_dontCares mem = false →
          ReduceLogic W fuel mem (Some truthTable) (Some sumOfProducts) =
          Some (STATUS_OUT_OF_MEMORY, mkSumOfProducts n 0 None None (equation sumOfProducts)))
    as Hfail.
  { intros Hmem. unfold ReduceLogic, MAX_NUM_VARIABLES, cleanup_error. simpl. rewrite Hnv, Hest.
    destruct (Z.ltb_spec n 1) as [|_]; [lia|].
    destruct (Z.ltb_spec W n) as [|_]; [lia|]. simpl. unfold alloc.
    destruct (calloc_resolved mem), (malloc_terms mem), (malloc_dontCares mem); done. }
  split; [|done]. split.
  - intros Hmem. eexists. by apply Hfail.
  - intros (result & Hrun). apply not_true_is_false. intros Hmem.
    apply andb_true_iff in Hmem as [[Hm1 Hm2]%andb_true_iff Hm3].
    revert Hrun. unfold ReduceLogic, MAX_NUM_VARIABLES. simpl. rewrite Hnv, Hest.
    destruct (Z.ltb_spec n 1) as [|_]; [lia|].
    destruct (Z.ltb_spec W n) as [|_]; [lia|]. simpl. unfold alloc.
    rewrite Hm1, Hm2, Hm3.
    destruct (for_range _ _ _ _); simpl; [|done].
    destruct (RemoveNonprimeImplicants _ _ _ _); simpl; done.
Qed.

Lemma for_range_first {St} (count : nat) i (body : Z → St → option St) s :
  (0 < count)%nat → body i s = None → for_range count i body s = None.
Proof. intros Hc Hb. destruct count; [lia|]. simpl. by rewrite Hb. Qed.

(** X4 (the reference-count table).  [RemoveNonprimeImplicants] does
    not check its [calloc]: when that allocation alone fails, a table
    with a [LOGIC_TRUE] entry makes [ReduceLogic] write through the
    null pointer and return nothing, and a table without one still
    gives [STATUS_OKAY] with no term. *)
Theorem ReduceLogic_refCntTable_unchecked (W n : Z) (truthTable : list triLogic) (fuel : nat)
    (mem : Allocator) (sumOfProducts : SumOfProducts) :
  1 <= n < W → numVars sumOfProducts = n →
  Z.of_nat (length truthTable) = 2 ^ n → 2 ^ n <= Z.of_nat fuel →
  calloc_resolved mem = true → malloc_terms mem = true → malloc_dontCares mem = true →
  calloc_refCntTable mem = false →
  ((∃ m, rd truthTable m = Some LOGIC_TRUE) →
   ReduceLogic W fuel mem (Some truthTable) (Some sumOfProducts) = None) ∧
  ((∀ m, rd truthTable m ≠ Some LOGIC_TRUE) →
   ReduceLogic W fuel mem (Some truthTable) (Some sumOfProducts) =
   Some (STATUS_OKAY, mkSumOfProducts n 0 None None (equation sumOfProducts))).
Proof.
  intros Hn Hnv Htt Hfuel Hm1 Hm2 Hm3 Hm4. assert (0 < W) as HW by lia.
  destruct (ReduceLogic_stages W HW n Hn truthTable Htt fuel Hfuel mem sumOfProducts)
    as (rs & k & _ & Hinv & Hnum & Hcap & Hlt & Hld & ->); [done..|].
  split.
  - intros (m & Hm).
    destruct Hinv as (k' & Hnum' & _ & _ & _ & _ & _ & _ & _ & Htrue & _).
    assert (k' = k) as -> by lia.
    assert (0 < k)%nat as Hk.
    { pose proof (rd_lt _ _ _ Hm) as Hlt'.
      destruct (Htrue m) as (td & Hin & _); [lia|done|].
      assert (length (live_terms k rs) = k) as Hlen by (apply length_term_list; lia).
      destruct (live_terms k rs); [by apply not_elem_of_nil in Hin|simpl in Hlen; lia]. }
    unfold realloc_shrink. destruct (Z.eqb_spec (Z.of_nat k) 0) as [|_]; [lia|]. simpl.
    unfold RemoveNonprimeImplicants. simpl. unfold alloc. rewrite Hm4, !Nat2Z.id.
    rewrite for_range_first; [done..|].
    unfold count_term. simpl.
    destruct (lookup_lt_is_Some_2 (take k (rs_terms rs)) 0) as [t Ht];
      [rewrite length_take; lia|].
    destruct (lookup_lt_is_Some_2 (take k (rs_dontCares rs)) 0) as [dc Hdc];
      [rewrite length_take; lia|].
    unfold rd. simpl. change (Z.to_nat 0) with 0%nat. rewrite Ht, Hdc. simpl.
    by destruct fuel.
  - intros Hnone. apply true_count_zero in Hnone. unfold capacity in Hcap.
    assert (k = 0)%nat as -> by lia. change (Z.of_nat 0) with 0 in *.
    by rewrite RemoveNonprimeImplicants_zero.
Qed.

(** Body of the loop of [TestAllInputs]; the state is the pair
    [( *numRight, *numWrong )]. *)
Lemma stands_for_covers n live td m :
  stands_for n live td → covers n td.1 td.2 m → covered n live m.
Proof.
  intros (_ & td0 & Hin & Hdc & Heq) Hc. exists td0. split; [done|].
  rewrite Hdc in Heq |- *. by apply (covers_equiv n td.1 td0.1 td.2 m Heq).
Qed.

(** X12 (the evaluator).  On a term set whose buffers hold [numTerms]
    terms, for [0 <= numVars < W] and every input word,
    [EvaluateSumOfProducts] returns [LOGIC_TRUE] when some term covers
    the input reduced modulo [2 ^ numVars] and [LOGIC_FALSE]
    otherwise. *)
Theorem EvaluateSumOfProducts_covered (W : Z) (sumOfProducts : SumOfProducts) (input : Z) :
  0 <= numVars sumOfProducts < W →
  numTerms sumOfProducts = Z.of_nat (length (terms_of sumOfProducts)) →
  0 <= input < 2 ^ W →
  ∃ r,
    EvaluateSumOfProducts W sumOfProducts input = Some r ∧
    (r = LOGIC_TRUE ↔
     covered (numVars sumOfProducts) (terms_of sumOfProducts)
       (input mod 2 ^ numVars sumOfProducts)) ∧
    (r = LOGIC_FALSE ↔
     ¬ covered (numVars sumOfProducts) (terms_of sumOfProducts)
         (input mod 2 ^ numVars sumOfProducts)).
Proof.
  intros Hn Hwf Hinput. assert (0 < W) as HW by lia.
  pose proof (Z.pow_pos_nonneg 2 (numVars sumOfProducts) ltac:(lia) ltac:(lia)) as Hpos.
  pose proof (Z.mod_pos_bound input _ Hpos) as Hmod.
  assert (∃ r, EvaluateSumOfProducts W sumOfProducts input = Some r ∧
               (r = LOGIC_TRUE ↔ covered (numVars sumOfProducts) (terms_of sumOfProducts)
                                   (input mod 2 ^ numVars sumOfProducts)) ∧
               (r = LOGIC_TRUE ∨ r = LOGIC_FALSE)) as (r & Hr & Hiff & Hcase).
  { rewrite (EvaluateSumOfProducts_mod W HW) by lia.
    apply (EvaluateSumOfProducts_spec W HW); (done || lia). }
  exists r. split_and!; [done..|]. rewrite <- Hiff.
  destruct Hcase as [-> | ->]; split; done.
Qed.

Lemma wrap_succ W x : wrap W (wrap W x + 1) = wrap W (x + 1).
Proof. unfold wrap. apply Zplus_mod_idemp_l. Qed.

(** X15 (the test driver).  For [1 <= numVars < W], [TestAllInputs]
    run on the result of [ReduceLogic] and its table counts every one
    of the [2 ^ numVars] inputs as right and none as wrong. *)
Theorem TestAllInputs_all_right (W n : Z) (truthTable : list triLogic) (fuel : nat)
    (sumOfProducts : SumOfProducts) (numRight numWrong : Z) :
  1 <= n < W → numVars sumOfProducts = n →
  Z.of_nat (length truthTable) = 2 ^ n → 2 ^ n <= Z.of_nat fuel →
  0 <= numRight < 2 ^ W →
  ∃ result,
    ReduceLogic W fuel all_ok (Some truthTable) (Some sumOfProducts) =
      Some (STATUS_OKAY, result) ∧
    TestAllInputs W result truthTable numRight numWrong =
      Some (wrap W (numRight + 2 ^ n), numWrong).
Proof.
  intros Hn Hnv Htt Hfuel Hright. assert (0 < W) as HW by lia.
  destruct (ReduceLogic_spec W HW n Hn truthTable Htt fuel Hfuel sumOfProducts Hnv)
    as (sop & Hrun & _ & Hred).
  exists sop. split; [done|]. unfold TestAllInputs.
  pose proof Hred as (Hnv' & _). rewrite Hnv', shl1_small by lia.
  assert (0 < 2 ^ n) as Hpos by (apply Z.pow_pos_nonneg; lia).
  destruct (for_range_inv
              (λ i (c : Z * Z), c = (wrap W (numRight + i), numWrong))
              (test_input W sop truthTable) (Z.to_nat (2 ^ n)) 0 (numRight, numWrong))
    as (c & -> & ->).
  - by rewrite Z.add_0_r, wrap_small.
  - intros i c Hi ->. rewrite Z2Nat.id in Hi by lia. unfold test_input.
    destruct (rd_is_Some truthTable i) as [v Hv]; [lia|]. rewrite Hv. simpl.
    rewrite wrap_succ, Z.add_assoc.
    destruct (decide (v = LOGIC_DONT_CARE)) as [|Hdc]; [by eexists|].
    rewrite (reduced_sound W n truthTable sop i v) by (done || lia). simpl.
    rewrite decide_True by done. by eexists.
  - by rewrite Z2Nat.id, Z.add_0_l by lia.
Qed.

(** Freeing variable [b] of the term [(t, dc)] would cover a minterm
    on which the function is false. *)
Lemma blocked_equiv n truthTable t t' dc b :
  Z.lor t dc = Z.lor t' dc → blocked n truthTable t dc b → blocked n truthTable t' dc b.
Proof.
  intros Heq (m & Hm & Hf). exists m. split; [|done].
  revert Hm. apply covers_equiv. by apply lor_widen.
Qed.

Lemma lor_swap (dc p q : Z) : Z.lor (Z.lor dc p) q = Z.lor (Z.lor dc q) p.
Proof. rewrite <- !Z.lor_assoc. f_equal. apply Z.lor_comm. Qed.

Lemma blocked_widen n truthTable t dc b p :
  blocked n truthTable t dc b → blocked n truthTable t (Z.lor dc p) b.
Proof.
  intros (m & Hm & Hf). exists m. split; [|done]. rewrite lor_swap. by apply covers_narrow.
Qed.

Section Maximal.
Context (W : Z) (HW : 0 < W).
Context (n : Z) (Hn : 1 <= n < W).
Context (truthTable : list triLogic) (Htt : Z.of_nat (length truthTable) = 2 ^ n).
Context (fuel : nat) (Hfuel : 2 ^ n <= Z.of_nat fuel).

(** Every bit the test loop has passed and left fixed is blocked. *)
Lemma expand_blocked_step seed b tdc tdc' :
  0 <= b < n → expand_inv n truthTable seed b tdc →
  (∀ j, 0 <= j < b → Z.testbit tdc.2 j = false → blocked n truthTable seed tdc.2 j) →
  test_bit W fuel truthTable b tdc = Some tdc' →
  ∀ j, 0 <= j < b + 1 → Z.testbit tdc'.2 j = false → blocked n truthTable seed tdc'.2 j.
Proof.
  intros Hb Hinv Hblk Hrun. destruct tdc as [t dc].
  pose proof Hinv as (Hdc & Ht & Heq & _). cbn [fst snd] in *.
  destruct (test_bit_spec W HW n Hn truthTable Htt fuel Hfuel b t dc)
    as (t' & dc' & Hrun' & _ & _ & Hcase); [done..|].
  rewrite Hrun in Hrun'. injection Hrun' as ->. cbn [snd].
  intros j Hj Hbit. destruct Hcase as [[-> _]|[-> (m & Hm & Hfalse)]].
  - rewrite Z.lor_spec, testbit_pow2 in Hbit by lia.
    apply orb_false_iff in Hbit as [Hbit Hjb]. case_bool_decide; [done|].
    apply blocked_widen, Hblk; [lia|done].
  - destruct (decide (j = b)) as [->|Hne]; [|apply Hblk; (done || lia)].
    apply (blocked_equiv n truthTable t seed); [done|].
    exists m. split; [|done]. by apply covers_narrow_flip.
Qed.

Lemma expand_blocked seed tdc :
  0 <= seed < 2 ^ n → rd truthTable seed = Some LOGIC_TRUE →
  for_range (Z.to_nat n) 0 (test_bit W fuel truthTable) (seed, 0) = Some tdc →
  expand_inv n truthTable seed n tdc ∧
  ∀ j, 0 <= j < n → Z.testbit tdc.2 j = false → blocked n truthTable seed tdc.2 j.
Proof.
  intros Hseed Htrue Hrun.
  destruct (for_range_inv
              (λ b tdc, expand_inv n truthTable seed b tdc ∧
                        ∀ j, 0 <= j < b → Z.testbit tdc.2 j = false →
                             blocked n truthTable seed tdc.2 j)
              (test_bit W fuel truthTable) (Z.to_nat n) 0 (seed, 0)) as (tdc' & Hrun' & Hinv).
  - split; [|intros j Hj; lia].
    unfold expand_inv. cbn [fst snd]. split_and!; try done; try lia.
    intros m [_ Hm]. rewrite !Z.lor_0_r in Hm. subst m. by rewrite Htrue.
  - intros b s Hb [Hinv Hblk].
    destruct (expand_step W HW n Hn truthTable Htt fuel Hfuel seed b s) as (s' & Hs' & Hinv');
      [lia|done|].
    exists s'. split; [done|]. split; [done|].
    eapply expand_blocked_step; [|done..]. lia.
  - rewrite Hrun in Hrun'. injection Hrun' as <-.
    by rewrite Z.add_0_l, Z2Nat.id in Hinv by lia.
Qed.

(** What the expansion makes of a true minterm is a prime implicant. *)
Lemma expansion_prime seed td :
  0 <= seed < 2 ^ n → expansion_of W fuel n truthTable seed td →
  0 <= td.1 < 2 ^ n ∧ 0 <= td.2 < 2 ^ n ∧ Z.land td.1 td.2 = 0 ∧
  covers n td.1 td.2 seed ∧ prime_implicant n truthTable td.1 td.2.
Proof.
  intros Hseed (Htrue & t & Hrun & Ht1). destruct td as [t1 dc]. cbn [fst snd] in *. subst t1.
  destruct (expand_blocked seed (t, dc) Hseed Htrue Hrun) as [Hinv Hblk].
  destruct Hinv as (Hdc & Ht & Heq & Himp & _). cbn [fst snd] in *.
  pose proof (ldiff_range t dc n ltac:(lia) Ht).
  assert (Z.lor (Z.ldiff t dc) dc = Z.lor seed dc) as Heq' by (by rewrite lor_ldiff).
  split_and!; [lia..|apply ldiff_disjoint| |].
  - apply (covers_equiv n (Z.ldiff t dc) seed dc seed Heq'). by apply covers_self.
  - split.
    + intros m Hm. apply Himp. revert Hm. by apply covers_equiv.
    + intros b Hb Hbit. apply (blocked_equiv n truthTable seed); [done|]. by apply Hblk.
Qed.

End Maximal.

Section Discovery.
Context (W : Z) (HW : 0 < W).
Context (n : Z) (Hn : 1 <= n < W).
Context (truthTable : list triLogic) (Htt : Z.of_nat (length truthTable) = 2 ^ n).
Context (fuel : nat) (Hfuel : 2 ^ n <= Z.of_nat fuel).

(** One pass of the loop over [iInput] leaves the terms as they are
    or appends the expansion of [iInput]. *)
Lemma reduce_step_shape i rs rs' (k : nat) :
  0 <= i < 2 ^ n → reduce_inv n truthTable i rs → rs_numTerms rs = Z.of_nat k →
  reduce_step W fuel n truthTable i rs = Some rs' →
  (rs_numTerms rs' = Z.of_nat k ∧ live_terms k rs' = live_terms k rs ∧
   (rd truthTable i = Some LOGIC_TRUE → covered n (live_terms k rs) i)) ∨
  (∃ td, rs_numTerms rs' = Z.of_nat (Datatypes.S k) ∧
         live_terms (Datatypes.S k) rs' = live_terms k rs ++ [td] ∧
         expansion_of W fuel n truthTable i td ∧ ¬ covered n (live_terms k rs) i).
Proof.
  intros Hi Hinv Hk.
  pose proof (pow2_lt n W ltac:(lia)) as HnW.
  destruct (rd_is_Some truthTable i) as [v Hv]; [lia|].
  destruct (rd_is_Some (rs_resolved rs) i) as [r Hr].
  { destruct Hinv as (k0 & _ & _ & _ & Hlr & _). lia. }
  unfold reduce_step. rewrite Hv. simpl.
  destruct (decide (v = LOGIC_TRUE)) as [->|Hv']; simpl.
  2:{ intros [= <-]. left. split_and!; [done..|]. congruence. }
  rewrite Hr. simpl. case_bool_decide as Hrf; simpl.
  2:{ intros [= <-]. left. split_and!; [done..|]. intros _.
      destruct Hinv as (k0 & Hnum0 & _ & _ & _ & _ & _ & Hmark & _).
      assert (k0 = k) as -> by lia. by eapply Hmark. }
  subst r.
  destruct (reduce_inv_seed W n Hn truthTable fuel i rs Hi Hv Hr Hinv)
    as (k1 & Hnum & Hhalf2 & Hcapk).
  assert (k1 = k) as -> by lia.
  destruct Hinv as (k' & Hnum' & Hlt & Hld & Hlr & Hcap & Hok & Hmark & Hcov & _).
  assert (k' = k) as -> by lia. clear Hnum'.
  rewrite Hnum. rewrite !wr_Some by lia. simpl. rewrite Nat2Z.id.
  destruct (expand_spec W HW n Hn truthTable Htt fuel Hfuel i Hi Hv) as ([t dc] & Hexp & Hinv).
  rewrite Hexp. destruct Hinv as (Hdc & Ht & Heq & _). cbn [fst snd] in *. simpl.
  rewrite land_lnotw by lia.
  pose proof (ldiff_range t dc n ltac:(lia) Ht) as Hbase.
  pose proof (while_cycle_visits W HW mark_visit (Z.to_nat n) dc (Z.ldiff t dc) fuel
                (rs_resolved rs)) as Hcyc.
  rewrite Z2Nat.id in Hcyc by lia. rewrite Hcyc; clear Hcyc; [|lia|lia|apply ldiff_disjoint|].
  2:{ pose proof (pow2_popcount_le (Z.to_nat n) n dc). lia. }
  assert (∀ m, m ∈ visited (Z.to_nat n) dc (Z.ldiff t dc) ↔ covers n i dc m) as Hvis.
  { intros m. rewrite (elem_of_visited_covers _ n); [|lia| |done].
    - by apply covers_equiv.
    - by rewrite Z2Nat.id by lia. }
  destruct (run_mark (Z.ldiff t dc) (visited (Z.to_nat n) dc (Z.ldiff t dc)) (rs_resolved rs))
    as (res' & -> & Hlen' & Hset & Hkeep).
  { intros m Hm%Hvis. rewrite Hlr. by destruct Hm. }
  simpl. rewrite !wr_Some by (rewrite length_insert; lia). simpl.
  rewrite Nat2Z.id, !list_insert_insert_eq.
  intros [= <-]. right. exists (Z.ldiff t dc, dc). cbn [rs_numTerms]. split_and!.
  - unfold capacity in Hcapk. pose proof (pow2_double n ltac:(lia)).
    rewrite wrap_small by lia. lia.
  - unfold live_terms. simpl. rewrite <- term_list_snoc by lia. f_equal. lia.
  - split; [done|]. exists t. by split.
  - intros Hc. apply Hcov in Hc. congruence.
Qed.

Lemma discovery_skip i seeds live :
  (rd truthTable i = Some LOGIC_TRUE → covered n live i) →
  discovery W fuel n truthTable i seeds live →
  discovery W fuel n truthTable (i + 1) seeds live.
Proof.
  intros Hcov (H2 & Hr & Hs & Hc & Hall). split_and!; [done| |done..|].
  - eapply Forall_impl; [done|]. simpl. lia.
  - intros m Hm Htrue. destruct (decide (m = i)) as [->|Hne]; [|apply Hall; (done || lia)].
    destruct (Hcov Htrue) as (td & [p Hp]%list_elem_of_lookup & Hc').
    destruct (Forall2_lookup_r _ _ _ _ _ H2 Hp) as (sp & Hsp & _).
    exists p, sp, td. split_and!; [done..| |done].
    apply (proj1 (Forall_lookup _ _) Hr) in Hsp. lia.
Qed.

Lemma discovery_snoc i seeds live td :
  0 <= i < 2 ^ n → discovery W fuel n truthTable i seeds live →
  expansion_of W fuel n truthTable i td →
  ¬ covered n live i → discovery W fuel n truthTable (i + 1) (seeds ++ [i]) (live ++ [td]).
Proof.
  intros Hi (H2 & Hr & Hs & Hc & Hall) Hexp Hnc.
  pose proof (Forall2_length _ _ _ H2) as Hlen.
  destruct (expansion_prime W HW n Hn truthTable Htt fuel Hfuel i td Hi Hexp)
    as (_ & _ & _ & Hself & _).
  split_and!.
  - apply Forall2_app; [done|]. by constructor.
  - apply Forall_app. split; [eapply Forall_impl; [done|]; simpl; lia|].
    apply Forall_singleton. lia.
  - intros p q sp sq Hp Hq Hpq.
    apply lookup_app_Some in Hq as [Hq|[Hq1 Hq2]].
    + rewrite lookup_app_l in Hp by (apply lookup_lt_Some in Hq; lia). by eapply Hs.
    + apply list_lookup_singleton_Some in Hq2 as [Hq2 <-].
      rewrite lookup_app_l in Hp by lia.
      apply (proj1 (Forall_lookup _ _) Hr) in Hp. lia.
  - intros p q sp td' Hp Hq Hqp.
    apply lookup_app_Some in Hp as [Hp|[Hp1 Hp2]].
    + rewrite lookup_app_l in Hq by (apply lookup_lt_Some in Hp; lia). by eapply Hc.
    + apply list_lookup_singleton_Some in Hp2 as [Hp2 <-].
      rewrite lookup_app_l in Hq by lia. intros Hcov. apply Hnc.
      exists td'. split; [by eapply list_elem_of_lookup_2|done].
  - intros m Hm Htrue. destruct (decide (m = i)) as [->|Hne].
    + exists (length seeds), i, td. split_and!; [| |lia|done].
      * by rewrite lookup_app_r, Nat.sub_diag by lia.
      * by rewrite Hlen, lookup_app_r, Nat.sub_diag by lia.
    + destruct (Hall m) as (p & sp & td' & Hp & Hq & Hle & Hcov); [lia|done|].
      exists p, sp, td'. split_and!; [| |done..].
      * rewrite lookup_app_l; [done|]. by apply lookup_lt_Some in Hp.
      * rewrite lookup_app_l; [done|]. by apply lookup_lt_Some in Hq.
Qed.

Lemma reduce_loop_discovery :
  ∃ rs (k : nat) seeds,
    for_range (Z.to_nat (2 ^ n)) 0 (reduce_step W fuel n truthTable)
      (mk_rs 0 (replicate (Z.to_nat (capacity n truthTable)) 0)
         (replicate (Z.to_nat (capacity n truthTable)) 0)
         (replicate (Z.to_nat (2 ^ n)) LOGIC_FALSE)) = Some rs ∧
    rs_numTerms rs = Z.of_nat k ∧ discovery W fuel n truthTable (2 ^ n) seeds (live_terms k rs).
Proof.
  assert (0 < 2 ^ n) as Hpos by (apply Z.pow_pos_nonneg; lia).
  destruct (reduce_loop_spec W HW n Hn truthTable Htt fuel Hfuel) as (rs0 & Hrun0 & _).
  set (s0 := mk_rs 0 (replicate (Z.to_nat (capacity n truthTable)) 0)
               (replicate (Z.to_nat (capacity n truthTable)) 0)
               (replicate (Z.to_nat (2 ^ n)) LOGIC_FALSE)) in *.
  destruct (for_range_inv
              (λ i rs, reduce_inv n truthTable i rs ∧
                       ∃ (k : nat) seeds, rs_numTerms rs = Z.of_nat k ∧
                                          discovery W fuel n truthTable i seeds (live_terms k rs))
              (reduce_step W fuel n truthTable) (Z.to_nat (2 ^ n)) 0 s0)
    as (rs & Hrun & _ & k & seeds & Hk & Hdisc).
  - split.
    + exists 0%nat. unfold live_terms, term_list, s0. simpl. rewrite !length_replicate.
      assert (0 <= capacity n truthTable).
      { unfold capacity. pose proof (true_count_nonneg truthTable).
        pose proof (Z.pow_pos_nonneg 2 (n - 1)). lia. }
      split_and!; try done; try lia.
      * intros m v Hrd Hvf. apply rd_lt in Hrd as Hm. rewrite length_replicate in Hm.
        rewrite rd_replicate in Hrd by lia. congruence.
      * intros m (td & Htd & _). by apply elem_of_nil in Htd.
      * intros _. split; [lia|done].
    + exists 0%nat, []. split; [done|]. unfold live_terms, term_list. simpl.
      split_and!; [constructor..| | |].
      * intros ? ? ? ?. by rewrite lookup_nil.
      * intros ? ? ? ?. by rewrite lookup_nil.
      * intros m Hm. lia.
  - intros i rs Hi [Hinv (k & seeds & Hk & Hdisc)]. rewrite Z2Nat.id in Hi by lia.
    destruct (reduce_step_spec W HW n Hn truthTable Htt fuel Hfuel i rs) as (rs' & Hstep & Hinv');
      [lia|done|].
    exists rs'. split; [done|]. split; [done|].
    destruct (reduce_step_shape i rs rs' k)
      as [(Hk' & Hlive & Hcov)|(td & Hk' & Hlive & Hexp & Hnc)]; [lia|done..| |].
    + exists k, seeds. split; [done|]. rewrite Hlive. by apply discovery_skip.
    + exists (Datatypes.S k), (seeds ++ [i]). split; [done|]. rewrite Hlive.
      apply discovery_snoc; (done || lia).
  - exists rs, k, seeds. rewrite Z.add_0_l, Z2Nat.id in Hdisc by lia. done.
Qed.

End Discovery.

Lemma prime_implicant_stands_for n truthTable live td :
  Forall (λ td0, prime_implicant n truthTable td0.1 td0.2) live →
  Forall (λ td0, 0 <= td0.2 < 2 ^ n) live →
  stands_for n live td →
  0 <= td.1 < 2 ^ n ∧ 0 <= td.2 < 2 ^ n ∧ prime_implicant n truthTable td.1 td.2.
Proof.
  intros Hprime Hrange (Ht & td0 & Hin & Hdc & Heq).
  pose proof (proj1 (Forall_forall _ _) Hprime td0 Hin) as [Himp Hblk].
  pose proof (proj1 (Forall_forall _ _) Hrange td0 Hin) as Hdc0. simpl in Hdc0.
  rewrite Hdc in *. split_and!; [lia..|]. split.
  - intros m Hm. apply Himp. revert Hm. by apply covers_equiv.
  - intros b Hb Hbit. apply (blocked_equiv n truthTable td0.1); [done|]. by apply Hblk.
Qed.

(** X6 (prime implicants).  For [1 <= numVars < W] every term of the
    result lies within [numVars] bits and is a prime implicant of the
    function: it covers no minterm on which the table is
    [LOGIC_FALSE], and freeing any one of its fixed variables would
    cover such a minterm. *)
Theorem ReduceLogic_returns_prime_implicants (W n : Z) (truthTable : list triLogic) (fuel : nat)
    (sumOfProducts : SumOfProducts) :
  1 <= n < W → numVars sumOfProducts = n →
  Z.of_nat (length truthTable) = 2 ^ n → 2 ^ n <= Z.of_nat fuel →
  ∃ result,
    ReduceLogic W fuel all_ok (Some truthTable) (Some sumOfProducts) =
      Some (STATUS_OKAY, result) ∧
    numTerms result = Z.of_nat (length (terms_of result)) ∧
    Forall (λ td, 0 <= td.1 < 2 ^ n ∧ 0 <= td.2 < 2 ^ n ∧
                  prime_implicant n truthTable td.1 td.2) (terms_of result).
Proof.
  intros Hn Hnv Htt Hfuel. assert (0 < W) as HW by lia.
  destruct (ReduceLogic_stages W HW n Hn truthTable Htt fuel Hfuel all_ok sumOfProducts)
    as (rs & k & Hloop & Hinv & Hnum & Hcap & Hlt & Hld & ->); [done..|].
  destruct (reduce_loop_discovery W HW n Hn truthTable Htt fuel Hfuel)
    as (rs' & k' & seeds & Hloop' & Hnum' & Hexp & Hseeds & _).
  rewrite Hloop in Hloop'. injection Hloop' as <-. assert (k' = k) as -> by lia.
  assert (Forall (λ td, 0 <= td.2 < 2 ^ n ∧ Z.land td.1 td.2 = 0 ∧ 0 <= td.1 < 2 ^ n ∧
                        prime_implicant n truthTable td.1 td.2) (live_terms k rs)) as Hlive.
  { apply Forall_forall. intros td Hin.
    apply list_elem_of_lookup in Hin as [p Hp].
    destruct (Forall2_lookup_r _ _ _ _ _ Hexp Hp) as (s & Hs & Hsd).
    apply (proj1 (Forall_lookup _ _) Hseeds) in Hs.
    destruct (expansion_prime W HW n Hn truthTable Htt fuel Hfuel s td) as (? & ? & ? & _ & ?);
      done. }
  assert (0 < 2 ^ n) as Hpos by (apply Z.pow_pos_nonneg; lia).
  assert (2 ^ (n - 1) <= 2 ^ n) as Hhalf by (apply Z.pow_le_mono_r; lia).
  unfold capacity in *. unfold realloc_shrink.
  destruct (Z.eqb_spec (Z.of_nat k) 0) as [Hk0|Hk0].
  - assert (k = 0)%nat as -> by lia. change (Z.of_nat 0) with 0 in *.
    rewrite RemoveNonprimeImplicants_zero. simpl. eexists. split; [done|]. by split.
  - simpl. rewrite Nat2Z.id.
    destruct (RemoveNonprimeImplicants_spec W HW n Hn fuel Hfuel
                (take k (rs_terms rs)) (take k (rs_dontCares rs)) k) with (mem := all_ok)
                (eqn := equation sumOfProducts)
      as (sop & -> & _ & _ & Hwf & Hlive').
    + rewrite length_take. lia.
    + rewrite length_take. lia.
    + unfold live_terms, term_list in Hlive. rewrite Nat2Z.id in Hlive.
      eapply Forall_impl; [done|]. intros td (? & ? & ? & _). unfold term_wf. tauto.
    + lia.
    + done.
    + simpl. eexists. split; [done|]. split; [done|].
      apply live_inv_final in Hlive' as (Hst & _).
      unfold live_terms, term_list in Hlive. rewrite Nat2Z.id in Hlive.
      eapply Forall_impl; [done|]. intros td Hstd. simpl in Hstd.
      eapply prime_implicant_stands_for; [| |done].
      * eapply Forall_impl; [done|]. by intros ? (_ & _ & _ & ?).
      * eapply Forall_impl; [done|]. by intros ? (? & _).
Qed.

(** The terms the second loop of the filter has kept so far: the
    first [iNewTerm] entries of the two buffers. *)
Lemma normal_covers n t dc m : term_wf n (t, dc) → covers n t dc m → normal_form (m, dc) = (t, dc).
Proof.
  intros (_ & _ & Hd) [_ Heq]. unfold normal_form. cbn [fst snd] in *.
  apply ldiff_eq_lor_eq in Heq. by rewrite Heq, ldiff_id.
Qed.

Section FilterOrder.
Context (W : Z) (HW : 0 < W).
Context (n : Z) (Hn : 1 <= n < W).
Context (fuel : nat) (Hfuel : 2 ^ n <= Z.of_nat fuel).
Context (ts0 ds0 : list Z) (k : nat).
Context (Hlt : length ts0 = k) (Hld : length ds0 = k).
Context (Hwf : Forall (term_wf n) (zip ts0 ds0)) (Hk : Z.of_nat k <= 2 ^ n).

(** One pass of the second loop drops term [i] or appends it, parked
    on one of its minterms, to the terms kept. *)
Lemma filter_term_shape i fs fs' t dc :
  0 <= i < Z.of_nat k → filter_inv n ts0 ds0 k i fs →
  zip ts0 ds0 !! Z.to_nat i = Some (t, dc) →
  filter_term W fuel n i fs = Some fs' →
  kept_terms fs' = kept_terms fs ∨ ∃ m, covers n t dc m ∧ kept_terms fs' = kept_terms fs ++ [(m, dc)].
Proof.
  intros Hi (j & ts & ds & rc & -> & Hji & Hlts & Hlds & Hdt & Hdd & Hlen & Hrc & Hlive) Hz'.
  pose proof (pow2_lt n W ltac:(lia)) as HnW.
  destruct (lookup_live W n Hn fuel ts0 ds0 k Hlt Hld Hwf (Z.to_nat i)) as (t1 & dc1 & Ht0 & Hdc0 & Hz & Htd);
    [lia|].
  rewrite Hz in Hz'. injection Hz' as -> ->.
  assert (ts !! Z.to_nat i = Some t) as Ht by (by rewrite (lookup_drop_eq ts ts0)).
  assert (ds !! Z.to_nat i = Some dc) as Hdc by (by rewrite (lookup_drop_eq ds ds0)).
  assert (rd ts i = Some t) as Hrt by (apply rd_Some; split; [lia|done]).
  assert (rd ds i = Some dc) as Hrd by (apply rd_Some; split; [lia|done]).
  rewrite (drop_S _ _ _ Hz) in Hrc.
  destruct (cycle_term W HW n Hn fuel Hfuel prime_visit t dc (Some rc) Htd) as (Hcyc & Hvis & Hnd).
  unfold filter_term, rdp, wrp. simpl. rewrite Hrt, !Hrd. simpl. rewrite Hcyc.
  destruct (run_prime t rc (visited (Z.to_nat n) dc t)) as [(m & -> & Hm & Hone)|[-> Hmany]].
  { intros m Hm%Hvis. rewrite Hlen. by destruct Hm. }
  - apply Hvis in Hm. simpl. rewrite (wr_Some ts i m) by lia. simpl.
    assert (wrap W (Z.of_nat j + 1) = Z.of_nat j + 1) as Hw by (rewrite wrap_small; lia).
    destruct (decide (i ≠ Z.of_nat j)) as [Hne|Heq].
    + rewrite rd_insert, decide_True by (done || lia). simpl.
      rewrite (wr_Some (<[Z.to_nat i := m]> ts)) by (rewrite length_insert; lia). simpl.
      rewrite (wr_Some ds) by lia. simpl. rewrite Nat2Z.id.
      intros [= <-]. right. exists m. split; [done|]. unfold kept_terms. simpl.
      rewrite Hw, term_list_snoc by (rewrite ?length_insert; lia). f_equal.
      unfold term_list. by rewrite Nat2Z.id, take_insert_ge by lia.
    + apply dec_stable in Heq. assert (Z.to_nat i = j) as Hij by lia. simpl.
      intros [= <-]. right. exists m. split; [done|]. unfold kept_terms. simpl.
      rewrite Hw, Hij. rewrite <- (list_insert_id ds j dc) at 1 by (by rewrite <- Hij).
      by rewrite term_list_snoc by lia.
  - simpl. rewrite wr_Some by lia. simpl. rewrite list_insert_id by done.
    destruct (cycle_term W HW n Hn fuel Hfuel (deref_visit W) t dc (Some rc) Htd) as (Hcyc' & _ & _).
    rewrite Hcyc'.
    set (K := term_list (Z.of_nat j) ts ds) in *.
    set (rest := drop (Datatypes.S (Z.to_nat i)) (zip ts0 ds0)) in *.
    destruct (run_deref W t (visited (Z.to_nat n) dc t) rc Hnd)
      as (rc' & -> & Hlen' & Hset & Hkeep).
    { intros m Hm. pose proof Hm as Hc%Hvis. pose proof (covers_range _ _ _ _ Hc) as Hmr.
      eexists. split; [by apply Hrc|].
      pose proof (cover_count_le_length n (K ++ (t, dc) :: rest) m) as Hle.
      rewrite length_app in Hle. simpl in Hle.
      assert (length K = j) as HlK by (apply length_term_list; lia).
      assert (Z.of_nat (length rest) = Z.of_nat k - i - 1) as Hlrest.
      { unfold rest. rewrite length_drop, length_zip_with. lia. }
      assert (0 < cover_count n (K ++ (t, dc) :: rest) m).
      { apply covered_count, covered_app. right. apply covered_cons. by left. }
      lia. }
    simpl. rewrite wr_Some by lia. simpl. rewrite list_insert_id by done.
    intros [= <-]. by left.
Qed.

Lemma filter_loop_order fs1 :
  count_inv n ts0 ds0 k (Z.of_nat k) fs1 →
  ∃ fs2, for_range k 0 (filter_term W fuel n) fs1 = Some fs2 ∧
         filter_inv n ts0 ds0 k (Z.of_nat k) fs2 ∧
         normal_form <$> kept_terms fs2 `sublist_of` zip ts0 ds0.
Proof.
  intros (rc & -> & Hlen & Hrc).
  destruct (for_range_inv
              (λ i fs, filter_inv n ts0 ds0 k i fs ∧
                       normal_form <$> kept_terms fs `sublist_of` take (Z.to_nat i) (zip ts0 ds0))
              (filter_term W fuel n) k 0
              (mk_fs 0 (Z.of_nat k) (Some ts0) (Some ds0) (Some rc))) as (fs & Hrun & Hinv & Hsub).
  - split; [|apply sublist_nil_l].
    exists 0%nat, ts0, ds0, rc. split_and!; try done.
    + f_equal. lia.
    + intros m Hm. rewrite Hrc by done. f_equal. f_equal.
      rewrite Nat2Z.id, take_ge by (rewrite length_zip_with; lia). done.
  - intros i fs Hi [Hinv Hsub].
    destruct (filter_term_spec W HW n Hn fuel Hfuel ts0 ds0 k Hlt Hld Hwf Hk i fs)
      as (fs' & Hstep & Hinv'); [lia|done|].
    exists fs'. split; [done|]. split; [done|].
    destruct (lookup_live W n Hn fuel ts0 ds0 k Hlt Hld Hwf (Z.to_nat i))
      as (t & dc & _ & _ & Hz & Htd); [lia|].
    replace (Z.to_nat (i + 1)) with (Datatypes.S (Z.to_nat i)) by lia.
    rewrite (take_S_r _ _ (t, dc)) by done.
    destruct (filter_term_shape i fs fs' t dc) as [->|(m & Hm & ->)]; [lia|done..| |].
    + by apply sublist_inserts_r.
    + rewrite fmap_app. apply sublist_app; [done|]. simpl.
      by rewrite (normal_covers n t dc m).
  - exists fs. split; [done|]. rewrite Z.add_0_l in Hinv, Hsub.
    rewrite Nat2Z.id, take_ge in Hsub by (rewrite length_zip_with; lia). done.
Qed.

End FilterOrder.

(** The filter keeps the order of the terms. *)
Lemma RemoveNonprimeImplicants_sublist (W n : Z) (fuel : nat)
    (ts ds : list Z) (k : nat) (mem : Allocator) (eqn : option string) :
  1 <= n < W → 2 ^ n <= Z.of_nat fuel →
  length ts = k → length ds = k → Z.of_nat k <= 2 ^ n →
  Forall (term_wf n) (zip ts ds) →
  calloc_refCntTable mem = true →
  ∃ result,
    RemoveNonprimeImplicants W fuel mem (mkSumOfProducts n (Z.of_nat k) (Some ts) (Some ds) eqn)
      = Some result ∧
    normal_form <$> terms_of result `sublist_of` zip ts ds.
Proof.
  intros Hn Hfuel Hlt Hld Hk Hwf Hmem. assert (0 < W) as HW by lia.
  unfold RemoveNonprimeImplicants. simpl.
  rewrite Hmem, shl1_small by lia. unfold alloc. rewrite Nat2Z.id.
  destruct (count_loop_spec W HW n Hn fuel Hfuel ts ds k Hlt Hld Hwf Hk) as (fs1 & -> & Hfs1).
  simpl.
  destruct (filter_loop_order W HW n Hn fuel Hfuel ts ds k Hlt Hld Hwf Hk fs1 Hfs1)
    as (fs2 & -> & Hfs2 & Hsub). simpl.
  destruct Hfs2 as (j & ts' & ds' & rc & -> & Hji & Hlts & Hlds & _). unfold kept_terms in Hsub.
  simpl in *.
  destruct (decide (Z.of_nat k - (Z.of_nat k - Z.of_nat j) ≠ Z.of_nat k)) as [Hne|Heq].
  - eexists. split; [done|]. unfold terms_of, realloc_shrink. simpl.
    replace (Z.of_nat k - (Z.of_nat k - Z.of_nat j)) with (Z.of_nat j) by lia.
    destruct (Z.eqb_spec (Z.of_nat j) 0) as [Hj0|Hj0]; simpl.
    + assert (j = 0)%nat as -> by lia. apply sublist_nil_l.
    + by rewrite Nat2Z.id, term_list_take.
  - apply dec_stable in Heq. eexists. split; [done|]. unfold terms_of. simpl.
    by replace (Z.of_nat k - (Z.of_nat k - Z.of_nat j)) with (Z.of_nat j) by lia.
Qed.

(** X10 (the filter on its own).  On [k] well-formed terms over
    [1 <= numVars < W], [RemoveNonprimeImplicants] returns at most [k]
    terms that cover exactly the minterms the given terms cover; the
    terms returned are, with their don't-care bits cleared, a
    subsequence of the given ones, and each of them is the only one to
    cover some minterm. *)
Theorem RemoveNonprimeImplicants_keeps_coverage (W n : Z) (fuel : nat)
    (ts ds : list Z) (k : nat) (mem : Allocator) (eqn : option string) :
  1 <= n < W → 2 ^ n <= Z.of_nat fuel →
  length ts = k → length ds = k → Z.of_nat k <= 2 ^ n →
  Forall (term_wf n) (zip ts ds) →
  calloc_refCntTable mem = true →
  ∃ result,
    RemoveNonprimeImplicants W fuel mem (mkSumOfProducts n (Z.of_nat k) (Some ts) (Some ds) eqn)
      = Some result ∧
    numVars result = n ∧ equation result = eqn ∧
    0 <= numTerms result <= Z.of_nat k ∧
    numTerms result = Z.of_nat (length (terms_of result)) ∧
    (∀ m, covered n (terms_of result) m ↔ covered n (zip ts ds) m) ∧
    normal_form <$> terms_of result `sublist_of` zip ts ds ∧
    Forall (λ td, ∃ m, covers n td.1 td.2 m ∧ cover_count n (terms_of result) m = 1)
      (terms_of result).
Proof.
  intros Hn Hfuel Hlt Hld Hk Hwf Hmem. assert (0 < W) as HW by lia.
  destruct (RemoveNonprimeImplicants_spec W HW n Hn fuel Hfuel ts ds k Hlt Hld Hwf Hk mem eqn Hmem)
    as (sop & Hrun & Hnv & Heqn & Hnum & Hlive).
  destruct (RemoveNonprimeImplicants_le W n fuel ts ds k mem eqn) as (sop' & Hrun' & Hle);
    [done..|].
  assert (sop' = sop) as -> by congruence.
  apply live_inv_final in Hlive as (Hst & Hcov & Hsole).
  destruct (RemoveNonprimeImplicants_sublist W n fuel ts ds k mem eqn) as (sop'' & Hrun'' & Hsub);
    [done..|].
  assert (sop'' = sop) as -> by congruence.
  exists sop. split_and!; try done; try lia.
  intros m. split; [|apply Hcov].
  intros (td & Hin & Hc). eapply stands_for_covers; [|done].
  by apply (proj1 (Forall_forall _ _) Hst).
Qed.

Lemma expansion_of_functional W fuel n truthTable seed td td' :
  expansion_of W fuel n truthTable seed td → expansion_of W fuel n truthTable seed td' →
  td = td'.
Proof.
  unfold expansion_of. destruct td as [t dc], td' as [t' dc']. cbn [fst snd].
  intros (_ & u & Hu & ->) (_ & u' & Hu' & ->). congruence.
Qed.

(** In two lists that pass for discovered and agree before position
    [p], the seed at [p] of the second is at most that of the first. *)
Lemma discovery_seed_le W fuel n truthTable i seeds live seeds' live' (p : nat) m :
  discovery W fuel n truthTable i seeds live →
  discovery W fuel n truthTable i seeds' live' →
  (∀ q, (q < p)%nat → live !! q = live' !! q) →
  seeds !! p = Some m → ∃ m', seeds' !! p = Some m' ∧ m' <= m.
Proof.
  intros (H2 & Hr & _ & Hc & _) (H2' & _ & Hs' & _ & Hall') Hpre Hm.
  pose proof (proj1 (Forall_lookup _ _) Hr _ _ Hm) as Hrange.
  destruct (Forall2_lookup_l _ _ _ _ _ H2 Hm) as (td & Htd & Htrue & _).
  destruct (Hall' m Hrange Htrue) as (p' & sp' & td' & Hp' & Hq' & Hle & Hcov).
  destruct (decide (p' < p)%nat) as [Hlt|Hge].
  { exfalso. apply (Hc p p' m td'); [done| |done..]. by rewrite Hpre. }
  destruct (lookup_lt_is_Some_2 seeds' p) as [m' Hm']; [apply lookup_lt_Some in Hp'; lia|].
  exists m'. split; [done|].
  destruct (decide (p = p')) as [->|Hne]; [by simplify_eq|].
  pose proof (Hs' p p' m' sp' Hm' Hp' ltac:(lia)). lia.
Qed.

(** The table determines the discovered list. *)
Lemma discovery_unique W fuel n truthTable i seeds live seeds' live' :
  discovery W fuel n truthTable i seeds live →
  discovery W fuel n truthTable i seeds' live' →
  seeds' = seeds ∧ live' = live.
Proof.
  intros Hd Hd'.
  assert (∀ p q, (q < p)%nat → seeds !! q = seeds' !! q ∧ live !! q = live' !! q) as Hall.
  { induction p as [|p IH]; intros q Hq; [lia|].
    destruct (decide (q < p)%nat) as [|Hge]; [by apply IH|]. assert (q = p) as -> by lia.
    assert (∀ r, (r < p)%nat → live !! r = live' !! r) as Hpre by (intros r Hr; by apply IH).
    assert (∀ r, (r < p)%nat → live' !! r = live !! r) as Hpre' by (intros r Hr; by rewrite Hpre).
    assert (seeds !! p = seeds' !! p) as Hseed.
    { destruct (seeds !! p) as [m|] eqn:Hm.
      - destruct (discovery_seed_le _ _ _ _ _ _ _ _ _ p m Hd Hd' Hpre Hm) as (m' & Hm' & Hle).
        destruct (discovery_seed_le _ _ _ _ _ _ _ _ _ p m' Hd' Hd Hpre' Hm')
          as (m'' & Hm'' & Hle').
        rewrite Hm' . f_equal. simplify_eq. lia.
      - destruct (seeds' !! p) as [m'|] eqn:Hm'; [|done].
        destruct (discovery_seed_le _ _ _ _ _ _ _ _ _ p m' Hd' Hd Hpre' Hm') as (m'' & Hm'' & _).
        congruence. }
    split; [done|].
    destruct Hd as (H2 & _), Hd' as (H2' & _).
    destruct (seeds !! p) as [m|] eqn:Hm.
    - destruct (Forall2_lookup_l _ _ _ _ _ H2 Hm) as (td & Htd & Hexp).
      destruct (Forall2_lookup_l _ _ _ _ _ H2' (eq_sym Hseed)) as (td' & Htd' & Hexp').
      rewrite Htd, Htd'. f_equal. by eapply expansion_of_functional.
    - apply lookup_ge_None in Hm. symmetry in Hseed. apply lookup_ge_None in Hseed.
      rewrite (Forall2_length _ _ _ H2) in Hm. rewrite (Forall2_length _ _ _ H2') in Hseed.
      by rewrite !(proj2 (lookup_ge_None _ _)). }
  split; apply list_eq; intros p; destruct (Hall (Datatypes.S p) p) as [? ?]; (done || lia).
Qed.

Lemma discovery_NoDup W fuel n truthTable i seeds live :
  0 < W → 1 <= n < W → Z.of_nat (length truthTable) = 2 ^ n → 2 ^ n <= Z.of_nat fuel →
  i <= 2 ^ n →
  discovery W fuel n truthTable i seeds live → NoDup live.
Proof.
  intros HW Hn Htt Hfuel Hi (H2 & Hr & _ & Hc & _).
  assert (∀ p q td, (p < q)%nat → live !! p = Some td → live !! q = Some td → False) as Hlt.
  { intros p q td Hpq Hp Hq.
    destruct (Forall2_lookup_r _ _ _ _ _ H2 Hq) as (sq & Hsq & Hexp).
    pose proof (proj1 (Forall_lookup _ _) Hr _ _ Hsq) as Hrange. simpl in Hrange.
    destruct (expansion_prime W HW n Hn truthTable Htt fuel Hfuel sq td) as (_ & _ & _ & Hself & _);
      [lia|done|].
    by apply (Hc q p sq td). }
  apply NoDup_alt. intros p q td Hp Hq.
  destruct (Nat.lt_trichotomy p q) as [Hpq|[->|Hpq]]; [exfalso|done|exfalso]; by eapply Hlt.
Qed.

(** X7 (order of the terms).  For [1 <= numVars < W] the terms of the
    result, with their don't-care bits cleared, are a subsequence of
    the list the loop over [iInput] discovers: the expansions of the
    true minterms that no earlier term covers, by increasing minterm.
    The table determines that list, and no term occurs twice in it, so
    the filter drops terms but never reorders them. *)
Theorem ReduceLogic_discovery_order (W n : Z) (truthTable : list triLogic) (fuel : nat)
    (sumOfProducts : SumOfProducts) :
  1 <= n < W → numVars sumOfProducts = n →
  Z.of_nat (length truthTable) = 2 ^ n → 2 ^ n <= Z.of_nat fuel →
  ∃ result seeds live,
    ReduceLogic W fuel all_ok (Some truthTable) (Some sumOfProducts) =
      Some (STATUS_OKAY, result) ∧
    discovery W fuel n truthTable (2 ^ n) seeds live ∧
    (∀ seeds' live', discovery W fuel n truthTable (2 ^ n) seeds' live' →
                     seeds' = seeds ∧ live' = live) ∧
    NoDup live ∧
    normal_form <$> terms_of result `sublist_of` live.
Proof.
  intros Hn Hnv Htt Hfuel. assert (0 < W) as HW by lia.
  destruct (ReduceLogic_stages W HW n Hn truthTable Htt fuel Hfuel all_ok sumOfProducts)
    as (rs & k & Hloop & Hinv & Hnum & Hcap & Hlt & Hld & ->); [done..|].
  destruct (reduce_loop_discovery W HW n Hn truthTable Htt fuel Hfuel)
    as (rs' & k' & seeds & Hloop' & Hnum' & Hdisc).
  rewrite Hloop in Hloop'. injection Hloop' as <-. assert (k' = k) as -> by lia.
  destruct Hinv as (k' & Hnum'' & _ & _ & _ & _ & Hok & _). assert (k' = k) as -> by lia.
  assert (0 < 2 ^ n) as Hpos by (apply Z.pow_pos_nonneg; lia).
  assert (2 ^ (n - 1) <= 2 ^ n) as Hhalf by (apply Z.pow_le_mono_r; lia).
  assert (∃ result,
            (sop' ← RemoveNonprimeImplicants W fuel all_ok
                      (mkSumOfProducts n (Z.of_nat k)
                         (realloc_shrink (Some (rs_terms rs)) (Z.of_nat k))
                         (realloc_shrink (Some (rs_dontCares rs)) (Z.of_nat k))
                         (equation sumOfProducts));
             Some (STATUS_OKAY, sop')) = Some (STATUS_OKAY, result) ∧
            normal_form <$> terms_of result `sublist_of` live_terms k rs)
    as (result & -> & Hsub).
  { unfold capacity in *. unfold realloc_shrink.
    destruct (Z.eqb_spec (Z.of_nat k) 0) as [Hk0|Hk0].
    - assert (k = 0)%nat as -> by lia. change (Z.of_nat 0) with 0 in *.
      rewrite RemoveNonprimeImplicants_zero. simpl. eexists. split; [done|].
      apply sublist_nil_l.
    - simpl. rewrite Nat2Z.id.
      destruct (RemoveNonprimeImplicants_sublist W n fuel (take k (rs_terms rs))
                  (take k (rs_dontCares rs)) k all_ok (equation sumOfProducts))
        as (sop & -> & Hsub); try done.
      + rewrite length_take. lia.
      + rewrite length_take. lia.
      + lia.
      + eapply Forall_impl; [|apply term_ok_wf].
        unfold live_terms, term_list in Hok. by rewrite Nat2Z.id in Hok.
      + simpl. exists sop. split; [done|].
        unfold live_terms, term_list. by rewrite Nat2Z.id. }
  exists result, seeds, (live_terms k rs). split_and!; [done..| | |done].
  - intros seeds' live' Hd'. by eapply discovery_unique.
  - by eapply (discovery_NoDup W fuel n truthTable (2 ^ n)).
Qed.

(** A loop whose body fails at index [j] fails. *)
Lemma for_range_fails {St} (body : Z → St → option St) (j : Z) :
  (∀ s, body j s = None) →
  ∀ count i s, i <= j < i + Z.of_nat count → for_range count i body s = None.
Proof.
  intros Hfail. induction count as [|count IH]; intros i s Hj; simpl; [lia|].
  destruct (decide (i = j)) as [->|Hne]; [by rewrite Hfail|].
  destruct (body i s) as [s'|]; simpl; [|done]. apply IH. lia.
Qed.

Lemma rd_beyond {A} (a : list A) i : Z.of_nat (length a) <= i → rd a i = None.
Proof.
  intros Hi. unfold rd. destruct (decide (0 <= i)); [|done].
  apply lookup_ge_None. lia.
Qed.

(** X5 (length of the table).  [ReduceLogic] reads the table over the
    whole range [0 .. 2 ^ numVars - 1] before anything else: a table
    with fewer entries is read beyond its end, whatever the allocator
    does. *)
Theorem ReduceLogic_short_table (W n : Z) (truthTable : list triLogic) (fuel : nat)
    (mem : Allocator) (sumOfProducts : SumOfProducts) :
  1 <= n < W → numVars sumOfProducts = n → Z.of_nat (length truthTable) < 2 ^ n →
  ReduceLogic W fuel mem (Some truthTable) (Some sumOfProducts) = None.
Proof.
  intros Hn Hnv Htt. assert (0 < W) as HW by lia.
  unfold ReduceLogic, MAX_NUM_VARIABLES. simpl. rewrite Hnv.
  destruct (Z.ltb_spec n 1) as [|_]; [lia|].
  destruct (Z.ltb_spec W n) as [|_]; [lia|].
  unfold EstimateMaxNumOfMinterms. rewrite shl1_small by lia.
  rewrite (for_range_fails _ (Z.of_nat (length truthTable))); [done| |lia].
  intros s. unfold count_true. by rewrite rd_beyond.
Qed.

(** The terms of a reduced sum of products lie within [n] bits and
    are implicants. *)
Lemma reduced_terms n truthTable sop :
  reduced n truthTable sop →
  Forall (λ td, 0 <= td.1 < 2 ^ n ∧ 0 <= td.2 < 2 ^ n ∧ implicant n truthTable td.1 td.2)
    (terms_of sop).
Proof.
  intros (_ & _ & live & Hok & _ & Hlive & _).
  apply live_inv_final in Hlive as (Hst & _). eapply Forall_impl; [done|].
  intros td (Ht & td0 & Hin & Hdc & Heq). simpl.
  pose proof (proj1 (Forall_forall _ _) Hok td0 Hin) as (_ & Hdc0 & _ & Himp).
  rewrite Hdc in *. split_and!; [lia..|].
  intros m Hm. apply Himp. revert Hm. by apply covers_equiv.
Qed.

(** X13 (the two evaluators).  On every result of [ReduceLogic], for
    [1 <= numVars < W], the mask-comparison evaluator and the older
    per-bit-loop evaluator return the same value on every input
    word. *)
Theorem ReduceLogic_evaluators_agree (W n : Z) (truthTable : list triLogic) (fuel : nat)
    (sumOfProducts : SumOfProducts) :
  1 <= n < W → numVars sumOfProducts = n →
  Z.of_nat (length truthTable) = 2 ^ n → 2 ^ n <= Z.of_nat fuel →
  ∃ result,
    ReduceLogic W fuel all_ok (Some truthTable) (Some sumOfProducts) =
      Some (STATUS_OKAY, result) ∧
    ∀ input, 0 <= input < 2 ^ W →
      EvaluateSumOfProducts W result input =
      EvaluateSumOfProducts_bitloop W (numVars result) (numTerms result)
        (terms result) (dontCares result) input.
Proof.
  intros Hn Hnv Htt Hfuel. assert (0 < W) as HW by lia.
  destruct (ReduceLogic_spec W HW n Hn truthTable Htt fuel Hfuel sumOfProducts Hnv)
    as (sop & Hrun & _ & Hred).
  exists sop. split; [done|]. intros input Hinput.
  pose proof (reduced_terms n truthTable sop Hred) as Hterms.
  destruct Hred as (Hnv' & Hnum & _).
  unfold EvaluateSumOfProducts, EvaluateSumOfProducts_bitloop. rewrite Hnv'.
  rewrite (input_mask W HW), Z.land_ones by lia.
  apply (eval_terms_agree W HW); [done..|]. intros p Hp.
  destruct (lookup_lt_is_Some_2 (terms_of sop) (Z.to_nat p)) as [[t dc] Hlook]; [lia|].
  pose proof (Forall_lookup_1 _ _ _ _ Hterms Hlook) as (Ht & _).
  apply terms_of_lookup in Hlook as (_ & Hrt & Hrd). rewrite Z2Nat.id in Hrt, Hrd by lia.
  by exists t, dc.
Qed.

Lemma covers_free_bit n t dc m b :
  0 <= b < n → Z.testbit dc b = true → covers n t dc m → covers n t dc (Z.lxor m (2 ^ b)).
Proof.
  intros Hb Hbit [Hm Heq]. split.
  - apply lxor_range; [lia|done|].
    split; [apply Z.pow_nonneg; lia|apply Z.pow_lt_mono_r; lia].
  - rewrite <- Heq. apply Z.bits_inj'. intros j Hj.
    rewrite !Z.lor_spec, Z.lxor_spec, testbit_pow2 by lia.
    case_bool_decide; [subst j; by rewrite Hbit, !orb_true_r|by rewrite xorb_false_r].
Qed.

Lemma lxor_pow2_neq m b : 0 <= b → Z.lxor m (2 ^ b) ≠ m.
Proof.
  intros Hb Heq. pose proof (f_equal (λ x, Z.testbit x b) Heq) as Hbit. simpl in Hbit.
  rewrite Z.lxor_spec, testbit_pow2, bool_decide_true in Hbit by done.
  by destruct (Z.testbit m b).
Qed.

(** X8 (a single true minterm).  When the table is [LOGIC_TRUE] on
    one minterm and [LOGIC_FALSE] on all the others, the result is
    that minterm alone, with no don't-care. *)
Theorem ReduceLogic_single_minterm (W n : Z) (truthTable : list triLogic) (fuel : nat)
    (sumOfProducts : SumOfProducts) (m0 : Z) :
  1 <= n < W → numVars sumOfProducts = n →
  Z.of_nat (length truthTable) = 2 ^ n → 2 ^ n <= Z.of_nat fuel →
  rd truthTable m0 = Some LOGIC_TRUE →
  (∀ m, 0 <= m < 2 ^ n → m ≠ m0 → rd truthTable m = Some LOGIC_FALSE) →
  ∃ result,
    ReduceLogic W fuel all_ok (Some truthTable) (Some sumOfProducts) =
      Some (STATUS_OKAY, result) ∧
    numTerms result = 1 ∧ terms_of result = [(m0, 0)].
Proof.
  intros Hn Hnv Htt Hfuel Hm0 Hrest. assert (0 < W) as HW by lia.
  destruct (ReduceLogic_spec W HW n Hn truthTable Htt fuel Hfuel sumOfProducts Hnv)
    as (sop & Hrun & _ & Hred).
  exists sop. split; [done|].
  pose proof (reduced_terms n truthTable sop Hred) as Hterms.
  assert (∀ td, td ∈ terms_of sop → td = (m0, 0)) as Hall.
  { intros [t dc] Hin.
    pose proof (proj1 (Forall_forall _ _) Hterms _ Hin) as (Ht & Hdc & Himp). cbn [fst snd] in *.
    assert (∀ m, covers n t dc m → m = m0) as Honly.
    { intros m Hm. destruct (decide (m = m0)) as [|Hne]; [done|]. exfalso.
      apply (Himp m Hm). apply Hrest; [by destruct Hm|done]. }
    assert (dc = 0) as ->.
    { apply Z.bits_inj'. intros b Hb. rewrite Z.bits_0.
      destruct (decide (b < n)) as [Hbn|Hbn]; [|apply (bits_above dc n); lia].
      destruct (Z.testbit dc b) eqn:Hbit; [exfalso|done].
      pose proof (covers_self n t dc Ht) as Hc.
      pose proof (Honly _ Hc) as ->.
      pose proof (Honly _ (covers_free_bit n m0 dc m0 b ltac:(lia) Hbit Hc)) as Hx.
      by apply lxor_pow2_neq in Hx. }
    f_equal. apply Honly. by apply covers_self. }
  destruct (reduced_covers_true n truthTable sop m0 Hred Hm0) as (p & Hp & _).
  destruct Hred as (_ & Hnum & live & _ & _ & Hlive & _).
  apply live_inv_final in Hlive as (_ & _ & Hsole).
  destruct (terms_of sop) as [|td1 [|td2 l]] eqn:Hts; simpl in Hnum; [lia| |exfalso].
  - split; [lia|]. f_equal. apply Hall. left.
  - pose proof (Hall td1 ltac:(left)) as ->. pose proof (Hall td2 ltac:(right; left)) as ->.
    apply Forall_cons in Hsole as [(m & Hm & Hone) _]. cbn [fst snd] in *.
    rewrite !cover_count_cons, !decide_True in Hone by done.
    pose proof (cover_count_nonneg n l m). lia.
Qed.

(** The buffers the filter leaves behind. *)
Lemma RemoveNonprimeImplicants_buffers W n fuel ts0 ds0 (k : nat) mem eqn :
  0 < W → 1 <= n < W → 2 ^ n <= Z.of_nat fuel →
  length ts0 = k → length ds0 = k →
  Forall (term_wf n) (zip ts0 ds0) → Z.of_nat k <= 2 ^ n →
  calloc_refCntTable mem = true → (0 < k)%nat →
  ∃ sop',
    RemoveNonprimeImplicants W fuel mem
      (mkSumOfProducts n (Z.of_nat k) (Some ts0) (Some ds0) eqn) = Some sop' ∧
    ((numTerms sop' = 0 ∧ terms sop' = None ∧ dontCares sop' = None) ∨
     (0 < numTerms sop' ∧
      ∃ ts ds, terms sop' = Some ts ∧ dontCares sop' = Some ds ∧
               Z.of_nat (length ts) = numTerms sop' ∧ Z.of_nat (length ds) = numTerms sop')).
Proof.
  intros HW Hn Hfuel Hlt Hld Hwf Hk Hmem Hk0. unfold RemoveNonprimeImplicants. simpl.
  rewrite Hmem, shl1_small by lia. unfold alloc. rewrite Nat2Z.id.
  destruct (count_loop_spec W HW n Hn fuel Hfuel ts0 ds0 k Hlt Hld Hwf Hk) as (fs1 & -> & Hfs1).
  simpl.
  destruct (filter_loop_spec W HW n Hn fuel Hfuel ts0 ds0 k Hlt Hld Hwf Hk fs1 Hfs1)
    as (fs2 & -> & Hfs2). simpl.
  destruct Hfs2 as (j & ts & ds & rc & -> & Hji & Hlts & Hlds & _). simpl.
  replace (Z.of_nat k - (Z.of_nat k - Z.of_nat j)) with (Z.of_nat j) by lia.
  destruct (decide (Z.of_nat j ≠ Z.of_nat k)) as [Hne|Heq].
  - eexists. split; [done|]. unfold realloc_shrink. simpl.
    destruct (Z.eqb_spec (Z.of_nat j) 0) as [Hj0|Hj0]; simpl; [by left|].
    right. split; [lia|]. eexists _, _. split_and!; [done..| |]; rewrite length_take; lia.
  - apply dec_stable in Heq. eexists. split; [done|]. simpl.
    right. split; [lia|]. eexists _, _. split_and!; [done..| |]; lia.
Qed.

(** X9 (buffers of the result).  On success the two buffers hold
    exactly [numTerms] entries each, and are null when there is no
    term. *)
Theorem ReduceLogic_buffers_fit (W n : Z) (truthTable : list triLogic) (fuel : nat)
    (sumOfProducts : SumOfProducts) :
  1 <= n < W → numVars sumOfProducts = n →
  Z.of_nat (length truthTable) = 2 ^ n → 2 ^ n <= Z.of_nat fuel →
  ∃ result,
    ReduceLogic W fuel all_ok (Some truthTable) (Some sumOfProducts) =
      Some (STATUS_OKAY, result) ∧
    ((numTerms result = 0 ∧ terms result = None ∧ dontCares result = None) ∨
     (0 < numTerms result ∧
      ∃ ts ds, terms result = Some ts ∧ dontCares result = Some ds ∧
               Z.of_nat (length ts) = numTerms result ∧
               Z.of_nat (length ds) = numTerms result)).
Proof.
  intros Hn Hnv Htt Hfuel. assert (0 < W) as HW by lia.
  destruct (ReduceLogic_stages W HW n Hn truthTable Htt fuel Hfuel all_ok sumOfProducts)
    as (rs & k & _ & Hinv & Hnum & Hcap & Hlt & Hld & ->); [done..|].
  destruct Hinv as (k' & Hnum' & _ & _ & _ & _ & Hok & _).
  assert (k' = k) as -> by lia.
  assert (0 < 2 ^ n) as Hpos by (apply Z.pow_pos_nonneg; lia).
  assert (2 ^ (n - 1) <= 2 ^ n) as Hhalf by (apply Z.pow_le_mono_r; lia).
  unfold capacity in *. unfold realloc_shrink.
  destruct (Z.eqb_spec (Z.of_nat k) 0) as [Hk0|Hk0].
  - assert (k = 0)%nat as -> by lia. change (Z.of_nat 0) with 0 in *.
    rewrite RemoveNonprimeImplicants_zero. simpl. eexists. split; [done|]. by left.
  - simpl. rewrite Nat2Z.id.
    destruct (RemoveNonprimeImplicants_buffers W n fuel (take k (rs_terms rs))
                (take k (rs_dontCares rs)) k all_ok (equation sumOfProducts))
      as (sop & -> & Hbuf); try done.
    + rewrite length_take. lia.
    + rewrite length_take. lia.
    + eapply Forall_impl; [|apply term_ok_wf].
      unfold live_terms, term_list in Hok. by rewrite Nat2Z.id in Hok.
    + lia.
    + lia.
    + simpl. by eexists.
Qed.

Section Rendering.
Context (W : Z).
Context (sop : SumOfProducts) (varNames : option (list string)).
Context (Hwf : numTerms sop = Z.of_nat (length (terms_of sop))).
Context (Hnames : ∀ names, varNames = Some names → numVars sop <= Z.of_nat (length names)).

Lemma var_name_Some iVar : 0 <= iVar < numVars sop → is_Some (var_name varNames iVar).
Proof.
  intros Hi. unfold var_name. destruct varNames as [names|]; [|done].
  apply rd_is_Some. specialize (Hnames names eq_refl). lia.
Qed.

Lemma term_readable iTerm :
  0 <= iTerm < numTerms sop →
  ∃ t dc, rdp (terms sop) iTerm = Some t ∧ rdp (dontCares sop) iTerm = Some dc.
Proof.
  intros Hi.
  destruct (lookup_lt_is_Some_2 (terms_of sop) (Z.to_nat iTerm)) as [[t dc] Hlook]; [lia|].
  apply terms_of_lookup in Hlook as (_ & Ht & Hdc). rewrite Z2Nat.id in Ht, Hdc by lia.
  by exists t, dc.
Qed.

Lemma term_string_Some iTerm :
  0 <= iTerm < numTerms sop →
  ∀ count iVar eq, 0 <= iVar → iVar + Z.of_nat count <= numVars sop →
    is_Some (term_string W count iVar (numVars sop) iTerm (terms sop) (dontCares sop)
               varNames eq).
Proof.
  intros Hi. destruct (term_readable iTerm Hi) as (t & dc & Ht & Hdc).
  induction count as [|count IH]; intros iVar eq HiVar Hle; simpl; [done|].
  rewrite Hdc. simpl.
  destruct (var_name_Some iVar) as [name Hname]; [lia|]. rewrite Hname, Ht. simpl.
  destruct (Z.land dc _ =? 0); simpl; apply IH; lia.
Qed.

Lemma equation_string_Some :
  0 <= numVars sop →
  ∀ count iTerm eq, 0 <= iTerm → iTerm + Z.of_nat count <= numTerms sop →
    is_Some (equation_string W count iTerm (numVars sop) (numTerms sop) (terms sop)
               (dontCares sop) varNames eq).
Proof.
  intros Hn. induction count as [|count IH]; intros iTerm eq Hi Hle; simpl; [done|].
  destruct (term_string_Some iTerm ltac:(lia) (Z.to_nat (numVars sop)) 0 eq) as [eq1 ->];
    [lia|lia|].
  simpl. apply IH; lia.
Qed.

Lemma all_dc_loop_Some :
  0 < numTerms sop → ∀ count iVar, is_Some (all_dc_loop W count iVar (dontCares sop)).
Proof.
  intros Hnum. destruct (term_readable 0) as (t & dc & _ & Hdc); [lia|].
  induction count as [|count IH]; intros iVar; simpl; [done|].
  rewrite Hdc. simpl. destruct (Z.land dc _ =? 0); [done|apply IH].
Qed.

Lemma GenerateEquationString_Some :
  0 <= numVars sop →
  ∃ eq, GenerateEquationString W sop varNames =
        Some (STATUS_OKAY,
              mkSumOfProducts (numVars sop) (numTerms sop) (terms sop) (dontCares sop)
                (Some eq)).
Proof.
  intros Hn. unfold GenerateEquationString.
  destruct (Z.leb_spec (numTerms sop) 0) as [|Hpos]; [by eexists|].
  assert (∃ one : bool,
            (if numTerms sop =? 1
             then iVar ← all_dc_loop W (Z.to_nat (numVars sop)) 0 (dontCares sop);
                  Some (iVar =? numVars sop)
             else Some false) = Some one) as [one ->].
  { destruct (numTerms sop =? 1); [|by eexists].
    destruct (all_dc_loop_Some Hpos (Z.to_nat (numVars sop)) 0) as [iVar ->]. by eexists. }
  simpl. destruct one; [by eexists|].
  assert (is_Some (mapM (var_name varNames) (seqZ 0 (numVars sop)))) as [ns ->].
  { apply mapM_is_Some, Forall_forall. intros iVar HiVar%elem_of_seqZ.
    apply var_name_Some. lia. }
  simpl.
  destruct (equation_string_Some Hn (Z.to_nat (numTerms sop)) 0 EmptyString) as [eq ->];
    [lia|lia|].
  simpl. by eexists.
Qed.

End Rendering.

(** ** The buffers of [GenerateEquationString] *)

Lemma chars_app a b :
  list_ascii_of_string (a +:+ b) = list_ascii_of_string a ++ list_ascii_of_string b.
Proof. induction a as [|c a IH]; simpl; [done|]. by rewrite IH. Qed.

Lemma chars_length s : length (list_ascii_of_string s) = String.length s.
Proof. induction s as [|c s IH]; simpl; [done|]. by rewrite IH. Qed.

Lemma strlen_terminated cs rest :
  NUL ∉ cs → strlen (cs ++ NUL :: rest) = Some (Z.of_nat (length cs)).
Proof.
  induction cs as [|c cs IH]; intros Hnul; cbn [strlen app].
  - by destruct (decide (NUL = NUL)).
  - destruct (decide (c = NUL)) as [->|_]; [destruct Hnul; left|].
    rewrite IH by (intros ?; apply Hnul; by right). simpl. f_equal. lia.
Qed.

Lemma c_string_terminated s rest :
  NUL ∉ list_ascii_of_string s → c_string (list_ascii_of_string s ++ NUL :: rest) = Some s.
Proof.
  induction s as [|c s IH]; intros Hnul; cbn [c_string app list_ascii_of_string].
  - by destruct (decide (NUL = NUL)).
  - cbn [list_ascii_of_string] in Hnul.
    destruct (decide (c = NUL)) as [->|_]; [destruct Hnul; left|].
    rewrite IH by (intros ?; apply Hnul; by right). done.
Qed.

Lemma auto_name_no_NUL iVar : 0 <= iVar < 191 → NUL ∉ list_ascii_of_string (auto_name iVar).
Proof.
  intros Hi. unfold auto_name. simpl. intros Hin%list_elem_of_singleton.
  assert (N_of_ascii (ascii_of_N (Z.to_N ((65 + iVar) mod 256))) = N_of_ascii NUL) as Heq
    by (by rewrite <- Hin).
  rewrite N_ascii_embedding in Heq.
  - simpl in Heq. rewrite Z.mod_small in Heq by lia. lia.
  - rewrite Z.mod_small by lia. lia.
Qed.

Lemma writes_nil W : writes W Some [].
Proof. intros pre tail _ _. simpl. by rewrite app_nil_r. Qed.

Lemma writes_put W c : writes W (put W c) [c].
Proof.
  intros pre tail Hlen Hfit. simpl in Hlen, Hfit.
  destruct tail as [|j tail]; [simpl in Hlen; lia|].
  unfold put, wr. simpl. rewrite decide_True by (rewrite length_app; simpl; lia).
  simpl. rewrite Nat2Z.id. rewrite <- (Nat.add_0_r (length pre)) at 1.
  rewrite insert_app_r. simpl. rewrite drop_0, <- app_assoc. simpl.
  do 2 f_equal. unfold wrap. rewrite Z.mod_small by lia. rewrite length_app. simpl. lia.
Qed.

Lemma writes_bind W f g cs1 cs2 :
  writes W f cs1 → writes W g cs2 → writes W (λ st, st' ← f st; g st') (cs1 ++ cs2).
Proof.
  intros Hf Hg pre tail Hlen Hfit. rewrite length_app in Hlen, Hfit.
  rewrite Hf by lia. simpl. rewrite Hg.
  - rewrite drop_drop, !length_app, <- !app_assoc. do 3 f_equal. lia.
  - rewrite length_drop. lia.
  - rewrite length_app. lia.
Qed.

Lemma writes_copy_loop W name todo :
  ∀ seen : list ascii, (∀ i c, todo !! i = Some c → name !! (length seen + i)%nat = Some c) →
    writes W (for_range (length todo) (Z.of_nat (length seen))
              (λ iCharPos st, c ← rd name iCharPos; put W c st)) todo.
Proof.
  induction todo as [|c todo IH]; intros seen Hname; [apply writes_nil|].
  intros pre tail Hlen Hfit. simpl in Hlen, Hfit. simpl.
  assert (rd name (Z.of_nat (length seen)) = Some c) as ->.
  { apply rd_Some. split; [lia|]. rewrite Nat2Z.id.
    specialize (Hname 0%nat c eq_refl). by rewrite Nat.add_0_r in Hname. }
  simpl.
  rewrite (writes_put W c pre tail) by (simpl; lia). simpl.
  replace (Z.of_nat (length seen) + 1) with (Z.of_nat (length (seen ++ [c])))
    by (rewrite length_app; simpl; lia).
  rewrite (IH (seen ++ [c])).
  - by rewrite drop_drop, <- (app_assoc pre [c] todo).
  - intros i c' Hi. rewrite length_app. simpl.
    replace (length seen + 1 + i)%nat with (length seen + Datatypes.S i)%nat by lia.
    by apply Hname.
  - rewrite length_drop. simpl. lia.
  - rewrite length_app. simpl. lia.
Qed.

Lemma writes_copy_name W s :
  writes W (copy_name W (c_array s) (Z.of_nat (String.length s))) (list_ascii_of_string s).
Proof.
  intros pre tail Hlen Hfit. unfold copy_name.
  rewrite decide_True by (rewrite <- chars_length; lia).
  rewrite Nat2Z.id, <- chars_length.
  apply (writes_copy_loop W (c_array s) (list_ascii_of_string s) []); [|done..].
  intros i c Hi. simpl. unfold c_array. by apply lookup_app_l_Some.
Qed.

Lemma wrap_size_add SZ a b : wrap_size SZ (wrap_size SZ a + b) = wrap_size SZ (a + b).
Proof. unfold wrap_size. apply Zplus_mod_idemp_l. Qed.

Section Refine.
Context (W SZ : Z) (HW : 0 < W).
Context (numVars : Z) (terms dontCares : option (list Z)) (varNames : option (list string)).
Context (varNamesToUse : list (option (list ascii))) (varNameSizes : list Z).
Context (Hnames : ∀ iVar name, 0 <= iVar < numVars → var_name varNames iVar = Some name →
           (NUL ∉ list_ascii_of_string name) ∧
           rd varNamesToUse iVar = Some (Some (c_array name)) ∧
           rd varNameSizes iVar = Some (Z.of_nat (String.length name))).

Lemma term_string_buffers iTerm :
  ∀ n iVar eq eq', 0 <= iVar → iVar + Z.of_nat n <= numVars →
    term_string W n iVar numVars iTerm terms dontCares varNames eq = Some eq' →
    ∃ cs, list_ascii_of_string eq' = list_ascii_of_string eq ++ cs ∧ (NUL ∉ cs) ∧
      measures SZ (size_term W SZ n iVar numVars iTerm terms dontCares varNameSizes)
        (length cs) ∧
      writes W (write_term W n iVar numVars iTerm terms dontCares varNamesToUse
                  varNameSizes) cs.
Proof.
  induction n as [|n IH]; intros iVar eq eq' HiVar Hle Hrun.
  { simpl in Hrun. injection Hrun as <-. exists []. rewrite app_nil_r.
    split; [done|]. split; [apply not_elem_of_nil|]. split; [|apply writes_nil].
    intros outputSize. simpl. by rewrite Z.add_0_r. }
  cbn [term_string] in Hrun.
  destruct (rdp dontCares iTerm) as [dc|] eqn:Hdc; [|done]. simpl in Hrun.
  destruct (Z.land dc _ =? 0) eqn:Htest.
  - destruct (var_name varNames iVar) as [name|] eqn:Hname; [|done]. simpl in Hrun.
    destruct (rdp terms iTerm) as [t|] eqn:Ht; [|done]. simpl in Hrun.
    destruct (Hnames iVar name) as (Hnul & Hrd & Hsz); [lia|done|].
    destruct (Z.land t _ =? 0) eqn:Htest2.
    + destruct (IH (iVar + 1) _ _ ltac:(lia) ltac:(lia) Hrun) as (cs & Heq & Hcs & Hm & Hw).
      exists (list_ascii_of_string name ++ ["'"%char] ++ cs).
      split; [by rewrite Heq, !chars_app, <- !app_assoc|].
      split; [|split].
      * intros [?|[?%list_elem_of_singleton|?]%elem_of_app]%elem_of_app; done.
      * intros outputSize. cbn [size_term]. rewrite Hdc. simpl. rewrite Htest, Hsz. simpl.
        rewrite Ht. simpl. rewrite Htest2.
        rewrite wrap_size_add, <- Z.add_assoc, wrap_size_add, Hm. do 2 f_equal.
        rewrite !length_app, chars_length. simpl. lia.
      * pose proof (writes_bind W _ _ _ _ (writes_copy_name W name)
                      (writes_bind W _ _ _ _ (writes_put W "'"%char) Hw)) as Hall.
        intros pre tail Hlen Hfit. rewrite <- (Hall pre tail Hlen Hfit).
        cbn [write_term]. rewrite Hdc. simpl. rewrite Htest, Hsz. simpl. rewrite Hrd. simpl.
        destruct (copy_name _ _ _ _) as [st1|]; [|done]. simpl. rewrite Ht. simpl.
        by rewrite Htest2.
    + destruct (IH (iVar + 1) _ _ ltac:(lia) ltac:(lia) Hrun) as (cs & Heq & Hcs & Hm & Hw).
      exists (list_ascii_of_string name ++ cs).
      split; [by rewrite Heq, !chars_app, <- !app_assoc|].
      split; [|split].
      * intros [?|?]%elem_of_app; done.
      * intros outputSize. cbn [size_term]. rewrite Hdc. simpl. rewrite Htest, Hsz. simpl.
        rewrite Ht. simpl. rewrite Htest2.
        rewrite wrap_size_add, Hm. do 2 f_equal.
        rewrite !length_app, chars_length. lia.
      * pose proof (writes_bind W _ _ _ _ (writes_copy_name W name) Hw) as Hall.
        intros pre tail Hlen Hfit. rewrite <- (Hall pre tail Hlen Hfit).
        cbn [write_term]. rewrite Hdc. simpl. rewrite Htest, Hsz. simpl. rewrite Hrd. simpl.
        destruct (copy_name _ _ _ _) as [st1|]; [|done]. simpl. rewrite Ht. simpl.
        by rewrite Htest2.
  - destruct (IH (iVar + 1) _ _ ltac:(lia) ltac:(lia) Hrun) as (cs & Heq & Hcs & Hm & Hw).
    exists cs. split; [done|]. split; [done|]. split.
    + intros outputSize. cbn [size_term]. rewrite Hdc. simpl. rewrite Htest. simpl.
      apply Hm.
    + intros pre tail Hlen Hfit. cbn [write_term]. rewrite Hdc. simpl. rewrite Htest. simpl.
      by apply Hw.
Qed.

Lemma equation_string_buffers numTerms :
  0 <= numVars → 0 < numTerms < 2 ^ W →
  ∀ c iTerm eq eq', 0 <= iTerm → iTerm + Z.of_nat (Datatypes.S c) = numTerms →
    equation_string W (Datatypes.S c) iTerm numVars numTerms terms dontCares varNames eq =
      Some eq' →
    ∃ cs, list_ascii_of_string eq' = list_ascii_of_string eq ++ cs ∧ (NUL ∉ cs) ∧
      measures SZ (size_equation W SZ (Datatypes.S c) iTerm numVars numTerms terms dontCares
                  varNameSizes) (Datatypes.S (length cs)) ∧
      writes W (write_equation W (Datatypes.S c) iTerm numVars numTerms terms dontCares
                  varNamesToUse varNameSizes) (cs ++ [NUL]).
Proof.
  intros Hn Hnum.
  assert (wrap W (numTerms - 1) = numTerms - 1) as Hlast by (apply Z.mod_small; lia).
  induction c as [|c IH]; intros iTerm eq eq' Hi Hsum Hrun.
  - cbn [equation_string] in Hrun.
    destruct (term_string _ _ _ _ _ _ _ _ _) as [eq1|] eqn:Hterm; [|done].
    simpl in Hrun. rewrite Hlast in Hrun.
    destruct (Z.ltb_spec iTerm (numTerms - 1)) as [?|_]; [lia|]. injection Hrun as <-.
    destruct (term_string_buffers iTerm (Z.to_nat numVars) 0 _ _ ltac:(lia) ltac:(lia) Hterm)
      as (cs & Heq & Hcs & Hm & Hw).
    exists cs. split; [done|]. split; [done|]. split.
    + intros outputSize. cbn [size_equation]. rewrite Hm. simpl. rewrite Hlast.
      destruct (Z.ltb_spec iTerm (numTerms - 1)) as [?|_]; [lia|].
      rewrite wrap_size_add. do 2 f_equal. lia.
    + pose proof (writes_bind W _ _ _ _ Hw (writes_put W NUL)) as Hall.
      intros pre tail Hlen Hfit. rewrite <- (Hall pre tail Hlen Hfit).
      cbn [write_equation]. destruct (write_term _ _ _ _ _ _ _ _ _ _) as [st1|]; [|done].
      simpl. rewrite Hlast.
      destruct (Z.ltb_spec iTerm (numTerms - 1)) as [?|_]; [lia|].
      by destruct (put W NUL st1).
  - remember (Datatypes.S c) as c' eqn:Hc'. cbn [equation_string] in Hrun.
    destruct (term_string _ _ _ _ _ _ _ _ _) as [eq1|] eqn:Hterm; [|done].
    simpl in Hrun. rewrite Hlast in Hrun.
    destruct (Z.ltb_spec iTerm (numTerms - 1)) as [_|?]; [|lia].
    destruct (term_string_buffers iTerm (Z.to_nat numVars) 0 _ _ ltac:(lia) ltac:(lia) Hterm)
      as (cs1 & Heq1 & Hcs1 & Hm1 & Hw1).
    destruct (IH (iTerm + 1) _ _ ltac:(lia) ltac:(lia) Hrun) as (cs2 & Heq2 & Hcs2 & Hm2 & Hw2).
    exists (cs1 ++ [" "; "+"; " "]%char ++ cs2).
    split; [by rewrite Heq2, chars_app, Heq1, <- !app_assoc|]. split; [|split].
    + intros [?|[Hin|?]%elem_of_app]%elem_of_app; [done| |done].
      by repeat apply elem_of_cons in Hin as [?|Hin]; [..|apply elem_of_nil in Hin].
    + intros outputSize. cbn [size_equation]. rewrite Hm1. simpl. rewrite Hlast.
      destruct (Z.ltb_spec iTerm (numTerms - 1)) as [_|?]; [|lia].
      rewrite wrap_size_add, Hm2. do 2 f_equal. rewrite !length_app. simpl. lia.
    + pose proof (writes_bind W _ _ _ _ Hw1
                    (writes_bind W _ _ _ _
                       (writes_bind W _ _ _ _ (writes_put W " "%char)
                          (writes_bind W _ _ _ _ (writes_put W "+"%char)
                             (writes_put W " "%char))) Hw2)) as Hall.
      intros pre tail Hlen Hfit.
      replace ((cs1 ++ [" "; "+"; " "]%char ++ cs2) ++ [NUL])
        with (cs1 ++ ([" "%char] ++ ["+"%char] ++ [" "%char]) ++ cs2 ++ [NUL]) in *
        by (by rewrite <- !app_assoc).
      rewrite <- (Hall pre tail Hlen Hfit).
      cbn [write_equation]. destruct (write_term _ _ _ _ _ _ _ _ _ _) as [st1|]; [|done].
      simpl. rewrite Hlast.
      destruct (Z.ltb_spec iTerm (numTerms - 1)) as [_|?]; [|lia]. done.
Qed.

End Refine.

Lemma auto_names_all mem :
  (∀ iVar, malloc_varNameAuto mem iVar = true) →
  ∀ k i, 0 <= i →
    auto_names mem k i ((auto_array <$> seqZ 0 i) ++ replicate k None) =
      Some (Some (auto_array <$> seqZ 0 (i + Z.of_nat k))).
Proof.
  intros Hmem. induction k as [|k IH]; intros i Hi.
  { simpl. by rewrite app_nil_r, Z.add_0_r. }
  assert (length (auto_array <$> seqZ 0 i) = Z.to_nat i) as Hlen
    by (by rewrite length_fmap, length_seqZ).
  cbn [auto_names replicate].
  assert (rd ((auto_array <$> seqZ 0 i) ++ None :: replicate k None) i = Some None) as ->.
  { apply rd_Some. split; [done|]. rewrite lookup_app_r by lia.
    by rewrite Hlen, Nat.sub_diag. }
  simpl. rewrite Hmem. rewrite wr_Some by (rewrite length_app; simpl; lia). simpl.
  replace (Z.to_nat i) with (length (auto_array <$> seqZ 0 i) + 0)%nat by lia.
  rewrite insert_app_r. simpl.
  replace (i + Z.of_nat (Datatypes.S k)) with ((i + 1) + Z.of_nat k) by lia.
  rewrite <- IH by lia. f_equal.
  rewrite (seqZ_app 0 i 1), fmap_app, <- app_assoc by lia. done.
Qed.

Lemma rd_seqZ_fmap {A} (f : Z → A) n i : 0 <= i < n → rd (f <$> seqZ 0 n) i = Some (f i).
Proof.
  intros Hi. apply rd_Some. split; [lia|].
  rewrite list_lookup_fmap, lookup_seqZ_lt by lia. simpl. f_equal. f_equal. lia.
Qed.

Lemma mapM_rd {A} (f : Z → option A) n l i :
  mapM f (seqZ 0 n) = Some l → 0 <= i < n → rd l i = f i.
Proof.
  intros Hl%mapM_Some Hi.
  destruct (Forall2_lookup_l _ _ _ (Z.to_nat i) i Hl) as (y & Hy & Hf).
  { rewrite lookup_seqZ_lt by lia. f_equal. lia. }
  rewrite Hf. apply rd_Some. split; [lia|done].
Qed.

Section Rendered.
Context (W SZ PTR : Z) (mem : StringAllocator) (sop : SumOfProducts).
Context (varNames : option (list string)).
Context (HW : 0 < W) (HPTR : 1 <= PTR) (Hn : 0 <= numVars sop) (Hnum : numTerms sop < 2 ^ W).
Context (Hfit : names_fit (numVars sop) varNames) (Hmem : allocations_succeed mem).

Lemma names_fit_no_NUL iVar name :
  0 <= iVar < numVars sop → var_name varNames iVar = Some name →
  NUL ∉ list_ascii_of_string name.
Proof.
  intros Hi Hname. unfold names_fit, var_name in *. destruct varNames as [names|].
  - destruct Hfit as [_ Hall]. apply rd_Some in Hname as [_ Hname].
    rewrite Forall_lookup in Hall. by apply (Hall _ _ Hname).
  - injection Hname as <-. apply auto_name_no_NUL. lia.
Qed.

Lemma constant_buffer {A} (c : ascii) (k : string → option A) :
  c ≠ NUL →
  (equation ← wr (equation_contents mem <$> seqZ 0 2) 0 c;
   equation ← wr equation 1 NUL; eq ← c_string equation; k eq) = k (String c EmptyString).
Proof.
  intros Hc. change (seqZ 0 2) with [0; 1]. rewrite wr_Some by (simpl; lia).
  cbn [mbind option_bind]. rewrite wr_Some by (simpl; lia).
  cbn [mbind option_bind].
  change (<[Z.to_nat 1:=NUL]> (<[Z.to_nat 0:=c]> (equation_contents mem <$> [0; 1])))
    with [c; NUL].
  cbn [c_string]. destruct (decide (c = NUL)); [done|].
  by destruct (decide (NUL = NUL)).
Qed.

Lemma GenerateEquationString_buffers_refines eq :
  GenerateEquationString W sop varNames =
    Some (STATUS_OKAY,
          mkSumOfProducts (numVars sop) (numTerms sop) (terms sop) (dontCares sop) (Some eq)) →
  Z.of_nat (String.length eq) + 1 < 2 ^ W →
  (Z.of_nat (String.length eq) + 1) * PTR < 2 ^ SZ →
  GenerateEquationString_buffers W SZ PTR mem sop varNames =
    Some (STATUS_OKAY,
          mkSumOfProducts (numVars sop) (numTerms sop) (terms sop) (dontCares sop) (Some eq)).
Proof.
  destruct Hmem as (Hequation & Hauto & Hname & Hsizes).
  unfold GenerateEquationString, GenerateEquationString_buffers.
  destruct (Z.leb_spec (numTerms sop) 0) as [|Hpos].
  { intros [= <-] _ _. rewrite Hequation.
    by rewrite (constant_buffer "0"%char). }
  destruct (if numTerms sop =? 1 then _ else _) as [one|]; [|done].
  cbn [mbind option_bind]. destruct one.
  { intros [= <-] _ _. rewrite Hequation.
    by rewrite (constant_buffer "1"%char). }
  destruct (mapM (var_name varNames) _) as [ns|] eqn:Hns; [|done]. simpl.
  destruct (equation_string _ _ _ _ _ _ _ _ _) as [eq'|] eqn:Hrun; [|done]. simpl.
  intros [= <-] HfitW HfitS.
  set (varNamesToUse :=
         match varNames with
         | Some names => (λ name, Some (c_array name)) <$> names
         | None => auto_array <$> seqZ 0 (numVars sop)
         end).
  assert (match varNames with
          | Some names => Some (Some ((λ name, Some (c_array name)) <$> names))
          | None =>
              if malloc_varNamesAuto mem then
                auto_names mem (Z.to_nat (numVars sop)) 0
                  (replicate (Z.to_nat (numVars sop)) None)
              else Some None
          end = Some (Some varNamesToUse)) as ->.
  { subst varNamesToUse. destruct varNames as [names|]; [done|]. rewrite Hauto.
    pose proof (auto_names_all mem Hname (Z.to_nat (numVars sop)) 0 ltac:(lia)) as Hall.
    rewrite Z.add_0_l, Z2Nat.id in Hall by lia. change (seqZ 0 0) with (@nil Z) in Hall.
    by rewrite <- Hall. }
  cbn [mbind option_bind]. rewrite Hsizes.
  assert (∀ iVar name, 0 <= iVar < numVars sop → var_name varNames iVar = Some name →
            rd varNamesToUse iVar = Some (Some (c_array name))) as Htable.
  { intros iVar name Hi Hvar. subst varNamesToUse. unfold var_name in Hvar.
    destruct varNames as [names|].
    - apply rd_Some in Hvar as [? Hvar]. apply rd_Some. split; [done|].
      by rewrite list_lookup_fmap, Hvar.
    - injection Hvar as <-. by rewrite rd_seqZ_fmap. }
  assert (∀ iVar name, 0 <= iVar < numVars sop → var_name varNames iVar = Some name →
            name_size varNamesToUse iVar = Some (Z.of_nat (String.length name))) as Hsize.
  { intros iVar name Hi Hvar. unfold name_size. rewrite (Htable iVar name Hi Hvar). simpl.
    unfold c_array. rewrite strlen_terminated by by apply (names_fit_no_NUL iVar).
    by rewrite chars_length. }
  assert (∀ iVar, 0 <= iVar < numVars sop → is_Some (var_name varNames iVar)) as Hvars.
  { intros iVar Hi. apply mapM_Some in Hns.
    destruct (Forall2_lookup_l _ _ _ (Z.to_nat iVar) iVar Hns) as (name & _ & Hvar).
    - rewrite lookup_seqZ_lt by lia. f_equal. lia.
    - by exists name. }
  destruct (mapM (name_size varNamesToUse) (seqZ 0 (numVars sop))) as [varNameSizes|]
    eqn:Hmap; last first.
  { exfalso. assert (is_Some (mapM (name_size varNamesToUse) (seqZ 0 (numVars sop)))) as [? ?];
      [|congruence].
    apply mapM_is_Some, Forall_forall. intros iVar HiVar%elem_of_seqZ.
    destruct (Hvars iVar) as [name Hvar]; [lia|]. unfold compose.
    rewrite (Hsize iVar name) by (done || lia). done. }
  simpl.
  assert (∀ iVar name, 0 <= iVar < numVars sop → var_name varNames iVar = Some name →
            (NUL ∉ list_ascii_of_string name) ∧
            rd varNamesToUse iVar = Some (Some (c_array name)) ∧
            rd varNameSizes iVar = Some (Z.of_nat (String.length name))) as Hall.
  { intros iVar name Hi Hvar. split; [by apply (names_fit_no_NUL iVar)|].
    split; [by apply Htable|]. rewrite (mapM_rd _ _ _ _ Hmap Hi). by apply Hsize. }
  destruct (Z.to_nat (numTerms sop)) as [|c] eqn:Hc; [lia|].
  destruct (equation_string_buffers W SZ HW _ _ _ _ _ _ Hall (numTerms sop) Hn
              ltac:(lia) c 0 _ _ ltac:(lia) ltac:(lia) Hrun)
    as (cs & Hcs & Hnul & Hmeasure & Hwrite).
  simpl in Hcs. subst cs.
  specialize (Hmeasure 0). unfold wrap_size at 1 in Hmeasure. rewrite Zmod_0_l in Hmeasure.
  rewrite Hmeasure. cbn [mbind option_bind]. rewrite Hequation.
  rewrite chars_length in *.
  assert (0 < 2 ^ SZ) by nia.
  unfold wrap_size. rewrite (Z.mod_small (0 + _)) by nia.
  rewrite (Z.mod_small (_ * PTR)) by nia.
  set (buffer := equation_contents mem <$> seqZ 0 _).
  assert (Z.of_nat (length buffer) = (0 + Z.of_nat (Datatypes.S (String.length eq'))) * PTR)
    as Hbuffer by (subst buffer; rewrite length_fmap, length_seqZ; nia).
  specialize (Hwrite [] buffer). change ([] ++ buffer) with buffer in Hwrite.
  change (Z.of_nat (length (@nil ascii))) with 0 in Hwrite. rewrite Hwrite.
  - simpl. rewrite <- app_assoc. simpl. by rewrite c_string_terminated.
  - rewrite length_app, chars_length. simpl. nia.
  - rewrite length_app, chars_length. simpl. lia.
Qed.

End Rendered.

Lemma strlen_c_array s : is_Some (strlen (c_array s)).
Proof.
  unfold c_array. induction s as [|c s IH]; cbn [list_ascii_of_string app strlen].
  - by destruct (decide (NUL = NUL)).
  - destruct (decide (c = NUL)); [done|]. destruct IH as [k ->]. done.
Qed.

Lemma auto_names_total mem :
  ∀ k i, 0 <= i →
    auto_names mem k i ((auto_array <$> seqZ 0 i) ++ replicate k None) = Some None ∨
    auto_names mem k i ((auto_array <$> seqZ 0 i) ++ replicate k None) =
      Some (Some (auto_array <$> seqZ 0 (i + Z.of_nat k))).
Proof.
  induction k as [|k IH]; intros i Hi.
  { right. simpl. by rewrite app_nil_r, Z.add_0_r. }
  assert (length (auto_array <$> seqZ 0 i) = Z.to_nat i) as Hlen
    by (by rewrite length_fmap, length_seqZ).
  cbn [auto_names replicate].
  assert (rd ((auto_array <$> seqZ 0 i) ++ None :: replicate k None) i = Some None) as ->.
  { apply rd_Some. split; [done|]. rewrite lookup_app_r by lia.
    by rewrite Hlen, Nat.sub_diag. }
  simpl. destruct (malloc_varNameAuto mem i); [|by left].
  rewrite wr_Some by (rewrite length_app; simpl; lia). simpl.
  replace (Z.to_nat i) with (length (auto_array <$> seqZ 0 i) + 0)%nat by lia.
  rewrite insert_app_r. simpl.
  replace (i + Z.of_nat (Datatypes.S k)) with ((i + 1) + Z.of_nat k) by lia.
  specialize (IH (i + 1) ltac:(lia)).
  rewrite (seqZ_app 0 i 1), fmap_app, <- app_assoc in IH by lia. done.
Qed.

Section Failing.
Context (W SZ PTR : Z) (mem : StringAllocator) (sop : SumOfProducts).
Context (varNames : option (list string)).
Context (Hn : 0 <= numVars sop).
Context (Hwf : numTerms sop = Z.of_nat (length (terms_of sop))).
Context (Hnames : ∀ names, varNames = Some names → numVars sop <= Z.of_nat (length names)).

Lemma size_term_Some iTerm varNameSizes :
  0 <= iTerm < numTerms sop → Z.of_nat (length varNameSizes) = numVars sop →
  ∀ n iVar outputSize, 0 <= iVar → iVar + Z.of_nat n <= numVars sop →
    is_Some (size_term W SZ n iVar (numVars sop) iTerm (terms sop) (dontCares sop)
               varNameSizes outputSize).
Proof.
  intros Hi Hlen. destruct (term_readable sop Hwf iTerm Hi) as (t & dc & Ht & Hdc).
  induction n as [|n IH]; intros iVar outputSize HiVar Hle; cbn [size_term]; [done|].
  rewrite Hdc. cbn [mbind option_bind].
  destruct (rd_is_Some varNameSizes iVar) as [size Hsize]; [lia|]. rewrite Hsize, Ht.
  destruct (Z.land dc _ =? 0); cbn [mbind option_bind]; apply IH; lia.
Qed.

Lemma size_equation_Some varNameSizes :
  Z.of_nat (length varNameSizes) = numVars sop →
  ∀ count iTerm outputSize, 0 <= iTerm → iTerm + Z.of_nat count <= numTerms sop →
    is_Some (size_equation W SZ count iTerm (numVars sop) (numTerms sop) (terms sop)
               (dontCares sop) varNameSizes outputSize).
Proof.
  intros Hlen. induction count as [|count IH]; intros iTerm outputSize Hi Hle;
    cbn [size_equation]; [done|].
  destruct (size_term_Some iTerm varNameSizes ltac:(lia) Hlen (Z.to_nat (numVars sop)) 0
              outputSize) as [size1 ->]; [lia|lia|].
  cbn [mbind option_bind]. apply IH; lia.
Qed.

Lemma name_sizes_Some varNamesToUse :
  (∀ iVar, 0 <= iVar < numVars sop →
           ∃ name, rd varNamesToUse iVar = Some (Some (c_array name))) →
  ∃ varNameSizes,
    mapM (name_size varNamesToUse) (seqZ 0 (numVars sop)) = Some varNameSizes ∧
    Z.of_nat (length varNameSizes) = numVars sop.
Proof.
  intros Htable.
  assert (is_Some (mapM (name_size varNamesToUse) (seqZ 0 (numVars sop)))) as [sizes Hsizes].
  { apply mapM_is_Some, Forall_forall. intros iVar HiVar%elem_of_seqZ. unfold compose.
    destruct (Htable iVar) as [name Hname]; [lia|]. unfold name_size. rewrite Hname.
    apply strlen_c_array. }
  exists sizes. split; [done|]. apply mapM_Some, Forall2_length in Hsizes.
  rewrite length_seqZ in Hsizes. lia.
Qed.

Lemma GenerateEquationString_buffers_fails :
  malloc_equation mem = false →
  GenerateEquationString_buffers W SZ PTR mem sop varNames =
    Some (STATUS_OUT_OF_MEMORY,
          mkSumOfProducts (numVars sop) (numTerms sop) (terms sop) (dontCares sop) None).
Proof.
  intros Hequation. unfold GenerateEquationString_buffers. rewrite Hequation.
  destruct (Z.leb_spec (numTerms sop) 0) as [|Hpos]; [done|].
  assert (∃ one : bool,
            (if numTerms sop =? 1
             then iVar ← all_dc_loop W (Z.to_nat (numVars sop)) 0 (dontCares sop);
                  Some (iVar =? numVars sop)
             else Some false) = Some one) as [one ->].
  { destruct (numTerms sop =? 1); [|by eexists].
    destruct (all_dc_loop_Some W sop Hwf Hpos (Z.to_nat (numVars sop)) 0) as [iVar ->].
    by eexists. }
  cbn [mbind option_bind]. destruct one; [done|].
  assert (∀ table, (∀ iVar, 0 <= iVar < numVars sop →
                      ∃ name, rd table iVar = Some (Some (c_array name))) →
            (if malloc_varNameSizes mem then
               varNameSizes ← mapM (name_size table) (seqZ 0 (numVars sop));
               outputSize ← size_equation W SZ (Z.to_nat (numTerms sop)) 0 (numVars sop)
                              (numTerms sop) (terms sop) (dontCares sop) varNameSizes 0;
               Some (STATUS_OUT_OF_MEMORY,
                     mkSumOfProducts (numVars sop) (numTerms sop) (terms sop)
                       (dontCares sop) None)
             else Some (STATUS_OUT_OF_MEMORY,
                        mkSumOfProducts (numVars sop) (numTerms sop) (terms sop)
                          (dontCares sop) None)) =
            Some (STATUS_OUT_OF_MEMORY,
                  mkSumOfProducts (numVars sop) (numTerms sop) (terms sop)
                    (dontCares sop) None)) as Hrest.
  { intros table Htable. destruct (malloc_varNameSizes mem); [|done].
    destruct (name_sizes_Some table Htable) as (sizes & -> & Hlen). cbn [mbind option_bind].
    destruct (size_equation_Some sizes Hlen (Z.to_nat (numTerms sop)) 0 0) as [size ->];
      [lia|lia|done]. }
  destruct varNames as [names|].
  - cbn [mbind option_bind]. apply Hrest. intros iVar Hi.
    specialize (Hnames names eq_refl).
    destruct (rd_is_Some names iVar) as [name Hname]; [lia|]. exists name.
    apply rd_Some in Hname as [? Hname]. apply rd_Some. split; [done|].
    by rewrite list_lookup_fmap, Hname.
  - destruct (malloc_varNamesAuto mem); [|done].
    pose proof (auto_names_total mem (Z.to_nat (numVars sop)) 0 ltac:(lia)) as Hauto.
    rewrite Z.add_0_l, Z2Nat.id in Hauto by lia. change (seqZ 0 0) with (@nil Z) in Hauto.
    cbn [fmap list_fmap app] in Hauto. destruct Hauto as [-> | ->]; [done|].
    cbn [mbind option_bind]. apply Hrest. intros iVar Hi. exists (auto_name iVar).
    by rewrite rd_seqZ_fmap.
Qed.

End Failing.



(** One counted pass is one pass of [filter_term], and advances one
    of the counters by one. *)
Lemma filter_term_counted_step W fuel n i fs c fs' c' :
  filter_term_counted W fuel n i (fs, c) = Some (fs', c') →
  filter_term W fuel n i fs = Some fs' ∧
  ((fs_iNewTerm fs' = wrap W (fs_iNewTerm fs + 1) ∧ fs_numTerms fs' = fs_numTerms fs ∧
    c' = mk_tc (wrap W (numTermsKept c + 1)) (numTermsRemoved c)) ∨
   (fs_iNewTerm fs' = fs_iNewTerm fs ∧ fs_numTerms fs' = wrap W (fs_numTerms fs - 1) ∧
    c' = mk_tc (numTermsKept c) (wrap W (numTermsRemoved c + 1)))).
Proof.
  unfold filter_term_counted, filter_term.
  destruct (rdp (fs_terms fs) i) as [t|]; simpl; [|done].
  destruct (rdp (fs_dontCares fs) i) as [dc|]; simpl; [|done].
  destruct (while_cycle W fuel n dc prime_visit _ _) as [[t1 s1|t1 s1]|]; simpl; [| |done].
  - destruct (wrp (fs_terms fs) i t1) as [terms1|]; simpl; [|done].
    destruct (decide (i ≠ fs_iNewTerm fs)).
    + destruct (rdp terms1 i) as [t'|]; simpl; [|done].
      destruct (wrp terms1 (fs_iNewTerm fs) t') as [terms2|]; simpl; [|done].
      destruct (wrp (fs_dontCares fs) (fs_iNewTerm fs) dc) as [dontCares2|]; simpl; [|done].
      intros [= <- <-]. split; [done|]. by left.
    + simpl. intros [= <- <-]. split; [done|]. by left.
  - destruct (wrp (fs_terms fs) i t1) as [terms1|]; simpl; [|done].
    destruct (while_cycle W fuel n dc (deref_visit W) _ _) as [r'|]; simpl; [|done].
    destruct (wrp terms1 i (exit_t r')) as [terms2|]; simpl; [|done].
    intros [= <- <-]. split; [done|]. by right.
Qed.

Lemma filter_term_counted_Some W fuel n i fs c fs' :
  filter_term W fuel n i fs = Some fs' →
  ∃ c', filter_term_counted W fuel n i (fs, c) = Some (fs', c').
Proof.
  unfold filter_term_counted, filter_term.
  destruct (rdp (fs_terms fs) i) as [t|]; simpl; [|done].
  destruct (rdp (fs_dontCares fs) i) as [dc|]; simpl; [|done].
  destruct (while_cycle W fuel n dc prime_visit _ _) as [[t1 s1|t1 s1]|]; simpl; [| |done].
  - destruct (wrp (fs_terms fs) i t1) as [terms1|]; simpl; [|done].
    destruct (decide (i ≠ fs_iNewTerm fs)).
    + destruct (rdp terms1 i) as [t'|]; simpl; [|done].
      destruct (wrp terms1 (fs_iNewTerm fs) t') as [terms2|]; simpl; [|done].
      destruct (wrp (fs_dontCares fs) (fs_iNewTerm fs) dc) as [dontCares2|]; simpl; [|done].
      intros [= <-]. by eexists.
    + simpl. intros [= <-]. by eexists.
  - destruct (wrp (fs_terms fs) i t1) as [terms1|]; simpl; [|done].
    destruct (while_cycle W fuel n dc (deref_visit W) _ _) as [r'|]; simpl; [|done].
    destruct (wrp terms1 i (exit_t r')) as [terms2|]; simpl; [|done].
    intros [= <-]. by eexists.
Qed.

Section Counted.
Context (W : Z) (HW : 0 < W).
Context (n : Z) (Hn : 1 <= n < W).
Context (fuel : nat) (Hfuel : 2 ^ n <= Z.of_nat fuel).
Context (ts0 ds0 : list Z) (k : nat).
Context (Hlt : length ts0 = k) (Hld : length ds0 = k).
Context (Hwf : Forall (term_wf n) (zip ts0 ds0)) (Hk : Z.of_nat k <= 2 ^ n).
Context (c0 : term_counters).
Context (Hkept : 0 <= numTermsKept c0 < 2 ^ W) (Hremoved : 0 <= numTermsRemoved c0 < 2 ^ W).

Lemma counted_step i st :
  0 <= i < Z.of_nat k → counted_inv W n ts0 ds0 k c0 i st →
  ∃ st', filter_term_counted W fuel n i st = Some st' ∧ counted_inv W n ts0 ds0 k c0 (i + 1) st' ∧
         filter_term W fuel n i st.1 = Some st'.1.
Proof.
  intros Hi (Hinv & Hk1 & Hr1). destruct st as [fs c]. cbn [fst snd] in *.
  pose proof (pow2_lt n W ltac:(lia)) as HnW.
  destruct (filter_term_spec W HW n Hn fuel Hfuel ts0 ds0 k Hlt Hld Hwf Hk i fs)
    as (fs' & Hstep & Hinv'); [lia|done|].
  destruct (filter_term_counted_Some W fuel n i fs c fs' Hstep) as (c' & Hstep').
  exists (fs', c'). split; [done|]. split; [|done]. split; [done|]. cbn [fst snd].
  destruct Hinv as (j & ts & ds & rc & -> & Hji & _).
  destruct Hinv' as (j' & ts' & ds' & rc' & -> & Hji' & _).
  apply filter_term_counted_step in Hstep' as [_ [(Hnew & Hnum & ->)|(Hnew & Hnum & ->)]];
    simpl in *.
  - rewrite wrap_small in Hnew by lia. rewrite Hk1, Hr1, wrap_succ.
    split; f_equal; lia.
  - rewrite wrap_small in Hnum by lia. rewrite Hk1, Hr1, wrap_succ.
    split; f_equal; lia.
Qed.

Lemma counted_loop fs1 :
  count_inv n ts0 ds0 k (Z.of_nat k) fs1 →
  ∃ fs2 c2,
    for_range k 0 (filter_term_counted W fuel n) (fs1, c0) = Some (fs2, c2) ∧
    for_range k 0 (filter_term W fuel n) fs1 = Some fs2 ∧
    counted_inv W n ts0 ds0 k c0 (Z.of_nat k) (fs2, c2).
Proof.
  intros (rc & -> & Hlen & Hrc).
  assert (counted_inv W n ts0 ds0 k c0 0 (mk_fs 0 (Z.of_nat k) (Some ts0) (Some ds0) (Some rc), c0)) as Hinit.
  { split_and!; cbn [fst snd fs_iNewTerm fs_numTerms].
    - exists 0%nat, ts0, ds0, rc. split_and!; try done.
      + f_equal. lia.
      + intros m Hm. rewrite Hrc by done. f_equal. f_equal.
        rewrite Nat2Z.id, take_ge by (rewrite length_zip_with; lia). done.
    - by rewrite Z.add_0_r, wrap_small.
    - by rewrite Z.sub_diag, Z.add_0_r, wrap_small. }
  assert (∀ count i st, i + Z.of_nat count <= Z.of_nat k → 0 <= i → counted_inv W n ts0 ds0 k c0 i st →
            ∃ fs2 c2,
              for_range count i (filter_term_counted W fuel n) st = Some (fs2, c2) ∧
              for_range count i (filter_term W fuel n) st.1 = Some fs2 ∧
              counted_inv W n ts0 ds0 k c0 (i + Z.of_nat count) (fs2, c2)) as Hloop.
  { induction count as [|count IH]; intros i st Hle Hi Hinv; simpl.
    - destruct st as [fs c]. exists fs, c. rewrite Z.add_0_r. by split_and!.
    - destruct (counted_step i st) as (st' & -> & Hinv' & ->); [lia|done|]. simpl.
      destruct (IH (i + 1) st') as (fs2 & c2 & -> & -> & Hinv2); [lia|lia|done|].
      exists fs2, c2. split_and!; [done..|].
      by replace (i + Z.of_nat (Datatypes.S count)) with (i + 1 + Z.of_nat count) by lia. }
  destruct (Hloop k 0 _ ltac:(lia) ltac:(lia) Hinit) as (fs2 & c2 & H1 & H2 & H3).
  exists fs2, c2. rewrite Z.add_0_l in H3. by split_and!.
Qed.

Lemma RemoveNonprimeImplicants_counted_spec mem eqn :
  calloc_refCntTable mem = true →
  ∃ result c',
    RemoveNonprimeImplicants_counted W fuel mem
      (mkSumOfProducts n (Z.of_nat k) (Some ts0) (Some ds0) eqn) c0 = Some (result, c') ∧
    RemoveNonprimeImplicants W fuel mem
      (mkSumOfProducts n (Z.of_nat k) (Some ts0) (Some ds0) eqn) = Some result ∧
    0 <= numTerms result <= Z.of_nat k ∧
    GetNumTermsKept c' = wrap W (GetNumTermsKept c0 + numTerms result) ∧
    GetNumTermsRemoved c' = wrap W (GetNumTermsRemoved c0 + (Z.of_nat k - numTerms result)).
Proof.
  intros Hmem. unfold RemoveNonprimeImplicants_counted, RemoveNonprimeImplicants. simpl.
  rewrite Hmem, shl1_small by lia. unfold alloc. rewrite Nat2Z.id.
  destruct (count_loop_spec W HW n Hn fuel Hfuel ts0 ds0 k Hlt Hld Hwf Hk) as (fs1 & -> & Hfs1).
  simpl.
  destruct (counted_loop fs1 Hfs1) as (fs2 & c2 & -> & -> & Hinv & Hk2 & Hr2). simpl.
  cbn [fst snd] in *.
  destruct Hinv as (j & ts & ds & rc & -> & Hji & _). simpl in *.
  replace (Z.of_nat k - (Z.of_nat k - Z.of_nat j)) with (Z.of_nat j) in * by lia.
  unfold GetNumTermsKept, GetNumTermsRemoved.
  destruct (decide (Z.of_nat j ≠ Z.of_nat k)); eexists _, _; split_and!; try done; simpl; lia.
Qed.

End Counted.

(** X11 (the term counters).  After [ResetTermCounters], one run of
    the filter on [k] terms leaves the number of terms it returns in
    [numTermsKept] and the number of terms it dropped in
    [numTermsRemoved]; the counters do not change what the filter
    returns. *)
Theorem term_counters_after_filter (W n : Z) (fuel : nat)
    (ts ds : list Z) (k : nat) (mem : Allocator) (eqn : option string) (c : term_counters) :
  1 <= n < W → 2 ^ n <= Z.of_nat fuel →
  length ts = k → length ds = k → Z.of_nat k <= 2 ^ n →
  Forall (term_wf n) (zip ts ds) →
  calloc_refCntTable mem = true →
  ∃ result c',
    RemoveNonprimeImplicants W fuel mem (mkSumOfProducts n (Z.of_nat k) (Some ts) (Some ds) eqn)
      = Some result ∧
    RemoveNonprimeImplicants_counted W fuel mem
      (mkSumOfProducts n (Z.of_nat k) (Some ts) (Some ds) eqn) (ResetTermCounters c) =
      Some (result, c') ∧
    GetNumTermsKept c' = numTerms result ∧
    GetNumTermsRemoved c' = Z.of_nat k - numTerms result ∧
    0 <= numTerms result <= Z.of_nat k.
Proof.
  intros Hn Hfuel Hlt Hld Hk Hwf Hmem. assert (0 < W) as HW by lia.
  pose proof (Z.pow_pos_nonneg 2 W ltac:(lia) ltac:(lia)) as HpW.
  pose proof (pow2_lt n W ltac:(lia)) as HnW.
  destruct (RemoveNonprimeImplicants_counted_spec W HW n Hn fuel Hfuel ts ds k Hlt Hld Hwf Hk
              (ResetTermCounters c) ltac:(simpl; lia) ltac:(simpl; lia) mem eqn Hmem)
    as (result & c' & Hrun & Hrun' & Hle & Hkept & Hremoved).
  exists result, c'. unfold GetNumTermsKept, GetNumTermsRemoved in *. simpl in Hkept, Hremoved.
  rewrite wrap_small in Hkept, Hremoved by lia. split_and!; (done || lia).
Qed.

(** ** Further instances *)

(** A table of two variables that is true on minterm 1 only. *)
Lemma ReduceLogic_term_bound_witness :
  1 <= 3 < 64 ∧ numVars (fresh 3) = 3 ∧
  Z.of_nat (length scenario_A) = 2 ^ 3 ∧ 2 ^ 3 <= Z.of_nat 8 ∧
  ∃ result,
    ReduceLogic 64 8 all_ok (Some scenario_A) (Some (fresh 3)) = Some (STATUS_OKAY, result) ∧
    EstimateMaxNumOfMinterms 64 3 scenario_A =
      Some (Z.min (2 ^ (3 - 1)) (true_count scenario_A)) ∧
    0 <= numTerms result <= Z.min (2 ^ (3 - 1)) (true_count scenario_A).
Proof.
  split; [lia|]. split; [reflexivity|]. split; [reflexivity|]. split; [lia|].
  apply (ReduceLogic_term_bound 64 3 scenario_A 8 (fresh 3)); [lia|reflexivity|reflexivity|lia].
Defined.

Lemma ReduceLogic_no_terms_witness :
  1 <= 2 < 64 ∧ numVars (fresh 2) = 2 ∧
  Z.of_nat (length never_true_table) = 2 ^ 2 ∧ 2 ^ 2 <= Z.of_nat 4 ∧
  ∃ result,
    ReduceLogic 64 4 all_ok (Some never_true_table) (Some (fresh 2)) =
      Some (STATUS_OKAY, result) ∧
    (numTerms result = 0 ↔ ∀ m, rd never_true_table m ≠ Some LOGIC_TRUE) ∧
    (numTerms result = 0 →
     result = mkSumOfProducts 2 0 None None (equation (fresh 2)) ∧
     (∀ varNames, GenerateEquationString 64 result varNames =
                  Some (STATUS_OKAY, mkSumOfProducts 2 0 None None (Some "0"))) ∧
     (∀ input, EvaluateSumOfProducts 64 result input = Some LOGIC_FALSE)).
Proof.
  split; [lia|]. split; [reflexivity|]. split; [reflexivity|]. split; [lia|].
  apply (ReduceLogic_no_terms 64 2 never_true_table 4 (fresh 2));
    [lia|reflexivity|reflexivity|lia].
Defined.

Lemma ReduceLogic_out_of_memory_witness :
  1 <= 2 <= 64 ∧ numVars (fresh 2) = 2 ∧ Z.of_nat (length nand_table) = 2 ^ 2 ∧
  (calloc_resolved (mkAllocator true false true true) &&
   malloc_terms (mkAllocator true false true true) &&
   malloc_dontCares (mkAllocator true false true true) = false ↔
   ∃ result, ReduceLogic 64 4 (mkAllocator true false true true) (Some nand_table)
               (Some (fresh 2)) = Some (STATUS_OUT_OF_MEMORY, result)) ∧
  (calloc_resolved (mkAllocator true false true true) &&
   malloc_terms (mkAllocator true false true true) &&
   malloc_dontCares (mkAllocator true false true true) = false →
   ReduceLogic 64 4 (mkAllocator true false true true) (Some nand_table) (Some (fresh 2)) =
   Some (STATUS_OUT_OF_MEMORY, mkSumOfProducts 2 0 None None (equation (fresh 2)))).
Proof.
  split; [lia|]. split; [reflexivity|]. split; [reflexivity|].
  apply (ReduceLogic_out_of_memory 64 2 nand_table 4 (mkAllocator true false true true)
           (fresh 2)); [lia|reflexivity|reflexivity].
Defined.

Lemma ReduceLogic_refCntTable_unchecked_witness :
  1 <= 2 < 64 ∧ numVars (fresh 2) = 2 ∧
  Z.of_nat (length nand_table) = 2 ^ 2 ∧ 2 ^ 2 <= Z.of_nat 4 ∧
  calloc_resolved (mkAllocator true true true false) = true ∧
  malloc_terms (mkAllocator true true true false) = true ∧
  malloc_dontCares (mkAllocator true true true false) = true ∧
  calloc_refCntTable (mkAllocator true true true false) = false ∧
  ((∃ m, rd nand_table m = Some LOGIC_TRUE) →
   ReduceLogic 64 4 (mkAllocator true true true false) (Some nand_table) (Some (fresh 2)) =
   None) ∧
  ((∀ m, rd nand_table m ≠ Some LOGIC_TRUE) →
   ReduceLogic 64 4 (mkAllocator true true true false) (Some nand_table) (Some (fresh 2)) =
   Some (STATUS_OKAY, mkSumOfProducts 2 0 None None (equation (fresh 2)))).
Proof.
  split; [lia|]. split; [reflexivity|]. split; [reflexivity|]. split; [lia|].
  split; [reflexivity|]. split; [reflexivity|]. split; [reflexivity|]. split; [reflexivity|].
  apply (ReduceLogic_refCntTable_unchecked 64 2 nand_table 4 (mkAllocator true true true false)
           (fresh 2)); [lia|reflexivity|reflexivity|lia|reflexivity..].
Defined.

Lemma ReduceLogic_short_table_witness :
  1 <= 3 < 64 ∧ numVars (fresh 3) = 3 ∧ Z.of_nat (length nand_table) < 2 ^ 3 ∧
  ReduceLogic 64 8 all_ok (Some nand_table) (Some (fresh 3)) = None.
Proof.
  split; [lia|]. split; [reflexivity|]. split; [simpl; lia|].
  apply (ReduceLogic_short_table 64 3 nand_table 8 all_ok (fresh 3));
    [lia|reflexivity|simpl; lia].
Defined.

Lemma ReduceLogic_returns_prime_implicants_witness :
  1 <= 3 < 64 ∧ numVars (fresh 3) = 3 ∧
  Z.of_nat (length scenario_A) = 2 ^ 3 ∧ 2 ^ 3 <= Z.of_nat 8 ∧
  ∃ result,
    ReduceLogic 64 8 all_ok (Some scenario_A) (Some (fresh 3)) = Some (STATUS_OKAY, result) ∧
    numTerms result = Z.of_nat (length (terms_of result)) ∧
    Forall (λ td, 0 <= td.1 < 2 ^ 3 ∧ 0 <= td.2 < 2 ^ 3 ∧
                  prime_implicant 3 scenario_A td.1 td.2) (terms_of result).
Proof.
  split; [lia|]. split; [reflexivity|]. split; [reflexivity|]. split; [lia|].
  apply (ReduceLogic_returns_prime_implicants 64 3 scenario_A 8 (fresh 3));
    [lia|reflexivity|reflexivity|lia].
Defined.

Lemma ReduceLogic_discovery_order_witness :
  1 <= 3 < 64 ∧ numVars (fresh 3) = 3 ∧
  Z.of_nat (length scenario_A) = 2 ^ 3 ∧ 2 ^ 3 <= Z.of_nat 8 ∧
  ∃ result seeds live,
    ReduceLogic 64 8 all_ok (Some scenario_A) (Some (fresh 3)) = Some (STATUS_OKAY, result) ∧
    discovery 64 8 3 scenario_A (2 ^ 3) seeds live ∧
    (∀ seeds' live', discovery 64 8 3 scenario_A (2 ^ 3) seeds' live' →
                     seeds' = seeds ∧ live' = live) ∧
    NoDup live ∧
    normal_form <$> terms_of result `sublist_of` live.
Proof.
  split; [lia|]. split; [reflexivity|]. split; [reflexivity|]. split; [lia|].
  apply (ReduceLogic_discovery_order 64 3 scenario_A 8 (fresh 3));
    [lia|reflexivity|reflexivity|lia].
Defined.

Lemma ReduceLogic_single_minterm_witness :
  1 <= 2 < 64 ∧ numVars (fresh 2) = 2 ∧
  Z.of_nat (length only_one_table) = 2 ^ 2 ∧ 2 ^ 2 <= Z.of_nat 4 ∧
  rd only_one_table 1 = Some LOGIC_TRUE ∧
  (∀ m, 0 <= m < 2 ^ 2 → m ≠ 1 → rd only_one_table m = Some LOGIC_FALSE) ∧
  ∃ result,
    ReduceLogic 64 4 all_ok (Some only_one_table) (Some (fresh 2)) =
      Some (STATUS_OKAY, result) ∧
    numTerms result = 1 ∧ terms_of result = [(1, 0)].
Proof.
  assert (∀ m, 0 <= m < 2 ^ 2 → m ≠ 1 → rd only_one_table m = Some LOGIC_FALSE) as Hrest.
  { intros m Hm Hne. assert (m = 0 ∨ m = 2 ∨ m = 3) as [-> | [-> | ->]] by lia; reflexivity. }
  split; [lia|]. split; [reflexivity|]. split; [reflexivity|]. split; [lia|].
  split; [reflexivity|]. split; [exact Hrest|].
  apply (ReduceLogic_single_minterm 64 2 only_one_table 4 (fresh 2) 1);
    [lia|reflexivity|reflexivity|lia|reflexivity|exact Hrest].
Defined.

Lemma ReduceLogic_buffers_fit_witness :
  1 <= 3 < 64 ∧ numVars (fresh 3) = 3 ∧
  Z.of_nat (length scenario_A) = 2 ^ 3 ∧ 2 ^ 3 <= Z.of_nat 8 ∧
  ∃ result,
    ReduceLogic 64 8 all_ok (Some scenario_A) (Some (fresh 3)) = Some (STATUS_OKAY, result) ∧
    ((numTerms result = 0 ∧ terms result = None ∧ dontCares result = None) ∨
     (0 < numTerms result ∧
      ∃ ts ds, terms result = Some ts ∧ dontCares result = Some ds ∧
               Z.of_nat (length ts) = numTerms result ∧
               Z.of_nat (length ds) = numTerms result)).
Proof.
  split; [lia|]. split; [reflexivity|]. split; [reflexivity|]. split; [lia|].
  apply (ReduceLogic_buffers_fit 64 3 scenario_A 8 (fresh 3));
    [lia|reflexivity|reflexivity|lia].
Defined.

Lemma term_wf_overlapping : Forall (term_wf 2) (zip [0; 0; 1] [1; 2; 0]).
Proof.
  repeat (apply Forall_cons; split; [unfold term_wf; cbn; split_and!; (reflexivity || lia)|]).
  constructor.
Defined.

Lemma RemoveNonprimeImplicants_keeps_coverage_witness :
  1 <= 2 < 64 ∧ 2 ^ 2 <= Z.of_nat 4 ∧
  length [0; 0; 1] = 3%nat ∧ length [1; 2; 0] = 3%nat ∧ Z.of_nat 3 <= 2 ^ 2 ∧
  Forall (term_wf 2) (zip [0; 0; 1] [1; 2; 0]) ∧
  calloc_refCntTable all_ok = true ∧
  ∃ result,
    RemoveNonprimeImplicants 64 4 all_ok
      (mkSumOfProducts 2 (Z.of_nat 3) (Some [0; 0; 1]) (Some [1; 2; 0]) None) = Some result ∧
    numVars result = 2 ∧ equation result = None ∧
    0 <= numTerms result <= Z.of_nat 3 ∧
    numTerms result = Z.of_nat (length (terms_of result)) ∧
    (∀ m, covered 2 (terms_of result) m ↔ covered 2 (zip [0; 0; 1] [1; 2; 0]) m) ∧
    normal_form <$> terms_of result `sublist_of` zip [0; 0; 1] [1; 2; 0] ∧
    Forall (λ td, ∃ m, covers 2 td.1 td.2 m ∧ cover_count 2 (terms_of result) m = 1)
      (terms_of result).
Proof.
  split; [lia|]. split; [lia|]. split; [reflexivity|]. split; [reflexivity|]. split; [lia|].
  split; [exact term_wf_overlapping|]. split; [reflexivity|].
  apply (RemoveNonprimeImplicants_keeps_coverage 64 2 4 [0; 0; 1] [1; 2; 0] 3 all_ok None);
    [lia|lia|reflexivity|reflexivity|lia|exact term_wf_overlapping|reflexivity].
Defined.

Lemma term_counters_after_filter_witness :
  1 <= 2 < 64 ∧ 2 ^ 2 <= Z.of_nat 4 ∧
  length [0; 0; 1] = 3%nat ∧ length [1; 2; 0] = 3%nat ∧ Z.of_nat 3 <= 2 ^ 2 ∧
  Forall (term_wf 2) (zip [0; 0; 1] [1; 2; 0]) ∧
  calloc_refCntTable all_ok = true ∧
  ∃ result c',
    RemoveNonprimeImplicants 64 4 all_ok
      (mkSumOfProducts 2 (Z.of_nat 3) (Some [0; 0; 1]) (Some [1; 2; 0]) None) = Some result ∧
    RemoveNonprimeImplicants_counted 64 4 all_ok
      (mkSumOfProducts 2 (Z.of_nat 3) (Some [0; 0; 1]) (Some [1; 2; 0]) None)
      (ResetTermCounters (mk_tc 5 7)) = Some (result, c') ∧
    GetNumTermsKept c' = numTerms result ∧
    GetNumTermsRemoved c' = Z.of_nat 3 - numTerms result ∧
    0 <= numTerms result <= Z.of_nat 3.
Proof.
  split; [lia|]. split; [lia|]. split; [reflexivity|]. split; [reflexivity|]. split; [lia|].
  split; [exact term_wf_overlapping|]. split; [reflexivity|].
  apply (term_counters_after_filter 64 2 4 [0; 0; 1] [1; 2; 0] 3 all_ok None (mk_tc 5 7));
    [lia|lia|reflexivity|reflexivity|lia|exact term_wf_overlapping|reflexivity].
Defined.

Lemma EvaluateSumOfProducts_covered_witness :
  0 <= numVars scenario_A_terms < 64 ∧
  numTerms scenario_A_terms = Z.of_nat (length (terms_of scenario_A_terms)) ∧
  0 <= 2 ^ 40 + 5 < 2 ^ 64 ∧
  ∃ r,
    EvaluateSumOfProducts 64 scenario_A_terms (2 ^ 40 + 5) = Some r ∧
    (r = LOGIC_TRUE ↔
     covered (numVars scenario_A_terms) (terms_of scenario_A_terms)
       ((2 ^ 40 + 5) mod 2 ^ numVars scenario_A_terms)) ∧
    (r = LOGIC_FALSE ↔
     ¬ covered (numVars scenario_A_terms) (terms_of scenario_A_terms)
         ((2 ^ 40 + 5) mod 2 ^ numVars scenario_A_terms)).
Proof.
  split; [simpl; lia|]. split; [reflexivity|]. split; [lia|].
  apply (EvaluateSumOfProducts_covered 64 scenario_A_terms (2 ^ 40 + 5));
    [simpl; lia|reflexivity|lia].
Defined.

Lemma ReduceLogic_evaluators_agree_witness :
  1 <= 3 < 64 ∧ numVars (fresh 3) = 3 ∧
  Z.of_nat (length scenario_A) = 2 ^ 3 ∧ 2 ^ 3 <= Z.of_nat 8 ∧
  ∃ result,
    ReduceLogic 64 8 all_ok (Some scenario_A) (Some (fresh 3)) = Some (STATUS_OKAY, result) ∧
    ∀ input, 0 <= input < 2 ^ 64 →
      EvaluateSumOfProducts 64 result input =
      EvaluateSumOfProducts_bitloop 64 (numVars result) (numTerms result)
        (terms result) (dontCares result) input.
Proof.
  split; [lia|]. split; [reflexivity|]. split; [reflexivity|]. split; [lia|].
  apply (ReduceLogic_evaluators_agree 64 3 scenario_A 8 (fresh 3));
    [lia|reflexivity|reflexivity|lia].
Defined.

(** The equation of scenario A with three names, through the
    buffers of an LLP64 machine; and the same call where [size_t] has
    four bits, so that the measured length wraps and the second pass
    leaves the block. *)
Lemma rendering_through_buffers :
  GenerateEquationString_buffers 32 64 8 strings_ok scenario_A_terms
      (Some ["Apple"; "Pear"; "Banana"]%string) =
    Some (STATUS_OKAY,
          mkSumOfProducts 3 2 (Some [1; 0]) (Some [2; 4])
            (Some "Apple'Banana + Pear'Banana'"%string)).
Proof. vm_compute. reflexivity. Qed.

Lemma rendering_leaves_narrow_block :
  GenerateEquationString_buffers 32 4 1 strings_ok scenario_A_terms
      (Some ["Apple"; "Pear"; "Banana"]%string) = None.
Proof. vm_compute. reflexivity. Qed.



Lemma TestAllInputs_all_right_witness :
  1 <= 3 < 64 ∧ numVars (fresh 3) = 3 ∧
  Z.of_nat (length scenario_A) = 2 ^ 3 ∧ 2 ^ 3 <= Z.of_nat 8 ∧
  0 <= 0 < 2 ^ 64 ∧
  ∃ result,
    ReduceLogic 64 8 all_ok (Some scenario_A) (Some (fresh 3)) = Some (STATUS_OKAY, result) ∧
    TestAllInputs 64 result scenario_A 0 0 = Some (wrap 64 (0 + 2 ^ 3), 0).
Proof.
  split; [lia|]. split; [reflexivity|]. split; [reflexivity|]. split; [lia|]. split; [lia|].
  apply (TestAllInputs_all_right 64 3 scenario_A 8 (fresh 3) 0 0);
    [lia|reflexivity|reflexivity|lia|lia].
Defined.
